(** * The reactivity core of vue3-code-read: dependency tracking,
      triggering and the base proxy handlers.

    The development follows the source units it embeds:
    - [dep.ts]          (createDep, wasTracked, newTracked, initDepMarkers,
                         finalizeDepMarkers),
    - [effect.ts]       (ReactiveEffect.run / stop, cleanupEffect, track,
                         trackEffects, pauseTracking, enableTracking,
                         resetTracking, trigger, triggerEffects,
                         triggerEffect),
    - [baseHandlers.ts] (createGetter, createSetter, deleteProperty, has,
                         ownKeys, the array instrumentations,
                         readonlyHandlers),
    together with the shared helpers ([hasChanged], [isIntegerKey],
    [remove], [isOn], [isModelListener], [capitalize], [toHandlerKey],
    [cacheStringFunction]) and, of the language, [parseInt], [Number] on
    strings and the printing of numbers. *)

From Stdlib Require Import ZArith QArith Qround Qpower Lqa List String Ascii Bool Lia SpecFloat.
From Stdlib Require DecimalString DecimalNat DecimalN DecimalPos DecimalFacts.
Import ListNotations.
Local Open Scope Z_scope.

Set Implicit Arguments.

(* ===================================================================== *)
(** ** JavaScript values and property keys                                *)
(* ===================================================================== *)

(** Numbers are IEEE doubles, as [spec_float] in the normal form of
    binary64 (the one [binary_normalize 53 1024] produces): NaN, the two
    zeros and the infinities are apart, equal numbers are equal terms, and
    [SFcompare] orders them. *)
Definition number := spec_float.

Definition num_of_Z (z : Z) : number := binary_normalize 53 1024 z 0 false.

Inductive value :=
| VUndef
| VNull
| VBool (b : bool)
| VNum (f : number)
| VStr (s : string)
| VSym (n : nat)
| VObj (a : nat).

(** A property key is a string or a symbol. *)
Inductive key :=
| KStr (s : string)
| KSym (n : nat).

Definition key_eqb (a b : key) : bool :=
  match a, b with
  | KStr s, KStr t => String.eqb s t
  | KSym n, KSym m => Nat.eqb n m
  | _, _ => false
  end.

Lemma key_eqb_spec (a b : key) : reflect (a = b) (key_eqb a b).
Proof.
  destruct a as [s|n], b as [t|m]; simpl; try (constructor; discriminate).
  - destruct (String.eqb_spec s t); constructor; congruence.
  - destruct (Nat.eqb_spec n m); constructor; congruence.
Qed.

Lemma key_eqb_refl (a : key) : key_eqb a a = true.
Proof. destruct (key_eqb_spec a a); congruence. Qed.

Lemma key_eqb_eq (a b : key) : key_eqb a b = true <-> a = b.
Proof. destruct (key_eqb_spec a b); split; congruence. Qed.

Lemma key_eqb_neq (a b : key) : key_eqb a b = false <-> a <> b.
Proof. destruct (key_eqb_spec a b); split; congruence. Qed.

Definition key_value (k : key) : value :=
  match k with KStr s => VStr s | KSym n => VSym n end.

(** [ITERATE_KEY] and [MAP_KEY_ITERATE_KEY] are two fixed symbols. *)
Definition ITERATE_KEY : key := KSym 0.
Definition MAP_KEY_ITERATE_KEY : key := KSym 1.
Definition length_key : key := KStr "length".

(** operations.ts *)
Inductive TrackOpTypes := GET | HAS | ITERATE.
Inductive TriggerOpTypes := SET | ADD | DELETE | CLEAR.

(** What [isArray] and [isMap] observe of a target. *)
Inductive kind := PlainObject | ArrayObject | MapObject | OtherObject.

Definition kind_isArray (k : kind) : bool :=
  match k with ArrayObject => true | _ => false end.
Definition kind_isMap (k : kind) : bool :=
  match k with MapObject => true | _ => false end.

(* ===================================================================== *)
(** ** Shared helpers                                                     *)
(* ===================================================================== *)

Definition number_eqb (a b : number) : bool :=
  match a, b with
  | S754_zero s, S754_zero t => Bool.eqb s t
  | S754_infinity s, S754_infinity t => Bool.eqb s t
  | S754_nan, S754_nan => true
  | S754_finite s m e, S754_finite t m' e' =>
      Bool.eqb s t && Pos.eqb m m' && Z.eqb e e'
  | _, _ => false
  end.

(** [Object.is]: NaN is the same as NaN, +0 and -0 differ, objects and
    symbols are compared by identity. *)
Definition Object_is (a b : value) : bool :=
  match a, b with
  | VUndef, VUndef => true
  | VNull, VNull => true
  | VBool x, VBool y => Bool.eqb x y
  | VNum x, VNum y => number_eqb x y
  | VStr x, VStr y => String.eqb x y
  | VSym x, VSym y => Nat.eqb x y
  | VObj x, VObj y => Nat.eqb x y
  | _, _ => false
  end.

(** [hasChanged = (value, oldValue) => !Object.is(value, oldValue)] *)
Definition hasChanged (v oldValue : value) : bool := negb (Object_is v oldValue).

Definition NaN : number := S754_nan.
Definition pos_zero : number := S754_zero false.
Definition neg_zero : number := S754_zero true.

(** Decimal numerals, for [isIntegerKey]. *)
Definition is_digit (c : ascii) : bool :=
  let n := nat_of_ascii c in (48 <=? n)%nat && (n <=? 57)%nat.

Fixpoint all_digits (s : string) : bool :=
  match s with
  | EmptyString => true
  | String c r => is_digit c && all_digits r
  end.

Fixpoint digits_value (acc : Z) (s : string) : Z :=
  match s with
  | EmptyString => acc
  | String c r => digits_value (10 * acc + (Z.of_nat (nat_of_ascii c) - 48)) r
  end.

(** A numeral as [String(n)] prints a non-negative integer: digits only,
    no leading zero unless it is "0" itself. *)
Definition canonical_numeral (s : string) : bool :=
  match s with
  | EmptyString => false
  | String c r =>
      all_digits s && (negb (Ascii.eqb c "0"%char) || String.eqb r EmptyString)
  end.

Section IntegerKey.
(** [numeral_roundtrips n] stands for: the double nearest to the integer
    [n] prints back as the decimal numeral of [n] (this is [prints_back]
    below).  It holds of every integer below 2^53; above, it depends on
    the rounding of doubles. *)
Variable numeral_roundtrips : Z -> bool.

(** [isIntegerKey], in the form the engine and the traps are stated
    with.  The source has
    [key => isString(key) && key !== 'NaN' && key[0] !== '-' &&
            '' + parseInt(key, 10) === key],
    which is [isIntegerKey_parseInt] below.  [parseInt] skips blanks and
    a sign and reads the leading digits; its result prints back as the
    whole key only if the key is a canonical numeral (a key that is not
    one has a blank, a sign, a leading zero or a trailing character that
    the printed number lacks), and then only if the number survives the
    trip through a double. *)
Definition isIntegerKey (k : key) : bool :=
  match k with
  | KSym _ => false
  | KStr s => canonical_numeral s && numeral_roundtrips (digits_value 0 s)
  end.
End IntegerKey.

(* ===================================================================== *)
(** ** The language under [isIntegerKey]: parseInt and number printing    *)
(* ===================================================================== *)

(** Strings are taken over the code units below 256.  The white space
    that [parseInt] and [Number] skip ([StrWhiteSpaceChar]) is then TAB,
    LF, VT, FF, CR, SP and NBSP. *)
Definition StrWhiteSpaceChar (c : ascii) : bool :=
  let n := nat_of_ascii c in
  ((9 <=? n) && (n <=? 13) || (n =? 32) || (n =? 160))%nat.

Fixpoint skip_white (s : string) : string :=
  match s with
  | String c r => if StrWhiteSpaceChar c then skip_white r else s
  | EmptyString => s
  end.

(** The longest prefix made of decimal digits. *)
Fixpoint digit_prefix (s : string) : string :=
  match s with
  | String c r => if is_digit c then String c (digit_prefix r) else EmptyString
  | EmptyString => EmptyString
  end.

(** [parseInt(string, 10)]: white space is skipped, then a sign, then the
    digits are read up to the first character that is not one; without a
    digit the result is NaN, otherwise the double nearest to the integer
    read (with more than 20 significant digits an engine may read the
    digits after the 20th as zeros; the integer is taken exactly here). *)
Definition parseInt (s : string) : number :=
  let inputString := skip_white s in
  let '(negative, rest) :=
    match inputString with
    | String c r =>
        if Ascii.eqb c "-" then (true, r)
        else if Ascii.eqb c "+" then (false, r)
        else (false, inputString)
    | EmptyString => (false, inputString)
    end in
  match digit_prefix rest with
  | EmptyString => NaN
  | digits =>
      let mathInt := digits_value 0 digits in
      if mathInt =? 0 then S754_zero negative
      else num_of_Z (if negative then - mathInt else mathInt)
  end.

(** The decimal numeral of a non-negative integer. *)
Definition numeral (z : Z) : string :=
  DecimalString.NilEmpty.string_of_uint (N.to_uint (Z.to_N z)).

Fixpoint zeros (n : nat) : string :=
  match n with
  | O => EmptyString
  | S m => String "0" (zeros m)
  end.

(** The value of the finite double with mantissa [m] and exponent [e]. *)
Definition Q_of_double (m : positive) (e : Z) : Q :=
  (inject_Z (Zpos m) * Qpower 2 e)%Q.

(** [rounds_to m e v]: the real [v] rounds to that double, to nearest and
    ties to the even mantissa.  The doubles next to it are one unit
    [2^e] of the last place away, the one below only half a unit when
    the mantissa is [2^52] (and the double is not the least normal one);
    [v] rounds to the double when it is nearer to it than to both, and
    when it is midway only if the mantissa is even. *)
Definition rounds_to (m : positive) (e : Z) (v : Q) : bool :=
  let x := Q_of_double m e in
  let above := Qpower 2 (e - 1) in
  let below :=
    if Pos.eqb m (2 ^ 52) && (-1074 <? e) then Qpower 2 (e - 2)
    else Qpower 2 (e - 1) in
  if Z.even (Zpos m)
  then Qle_bool (x - below) v && Qle_bool v (x + above)
  else negb (Qle_bool v (x - below)) && negb (Qle_bool (x + above) v).

(** The number of decimal digits of a positive integer. *)
Fixpoint count_digits (fuel : nat) (z : Z) : Z :=
  match fuel with
  | O => 1
  | S f => if z <? 10 then 1 else 1 + count_digits f (z / 10)
  end.

Fixpoint decimal_position_below (fuel : nat) (x : Q) (n : Z) : Z :=
  match fuel with
  | O => n
  | S f => if Qle_bool (Qpower 10 (n - 1)) x then n
           else decimal_position_below f x (n - 1)
  end.

(** The [n] with [10^(n-1) <= x < 10^n], for a positive double [x]. *)
Definition decimal_position (x : Q) : Z :=
  if Qle_bool 1 x
  then count_digits (S (Z.to_nat (Z.log2 (Qfloor x)))) (Qfloor x)
  else decimal_position_below 400 x 0.

(** A decimal [s * 10^(n-k)] with [k] digits is kept as [(s, n)]. *)
Definition decimal_value (k : Z) (c : Z * Z) : Q :=
  (inject_Z (fst c) * Qpower 10 (snd c - k))%Q.

(** The two decimals of [k] digits that are next to [x], below and
    above. *)
Definition decimals_around (x : Q) (nx k : Z) : (Z * Z) * (Z * Z) :=
  let below := Qfloor (x / Qpower 10 (nx - k)) in
  ((below, nx),
   if below + 1 =? 10 ^ k then (10 ^ (k - 1), nx + 1) else (below + 1, nx)).

Definition is_digits_of (m : positive) (e : Z) (k : Z) (c : Z * Z) : bool :=
  (10 ^ (k - 1) <=? fst c) && (fst c <? 10 ^ k)
  && rounds_to m e (decimal_value k c).

(** The decimal of [k] digits that prints the double, if there is one:
    of two, the nearer, and the even one if they are as near. *)
Definition decimal_of_length (m : positive) (e : Z) (nx k : Z) : option (Z * Z) :=
  let x := Q_of_double m e in
  let '(c1, c2) := decimals_around x nx k in
  match is_digits_of m e k c1, is_digits_of m e k c2 with
  | true, false => Some c1
  | false, true => Some c2
  | false, false => None
  | true, true =>
      match Qcompare (x - decimal_value k c1) (decimal_value k c2 - x) with
      | Lt => Some c1
      | Gt => Some c2
      | Eq => Some (if Z.even (fst c1) then c1 else c2)
      end
  end.

(** The shortest decimal: [k] as small as possible. *)
Fixpoint shortest_decimal (fuel : nat) (m : positive) (e : Z) (nx k : Z)
  : option (Z * Z * Z) :=
  match fuel with
  | O => None
  | S f =>
      match decimal_of_length m e nx k with
      | Some (s, n) => Some (s, k, n)
      | None => shortest_decimal f m e nx (k + 1)
      end
  end.

(** Steps 6 to 10 of [Number::toString]: the digits of [s], with zeros,
    a point or an exponent according to [n]. *)
Definition format_decimal (s k n : Z) : string :=
  let digits := numeral s in
  if (k <=? n) && (n <=? 21) then
    (digits ++ zeros (Z.to_nat (n - k)))%string
  else if (0 <? n) && (n <=? 21) then
    (substring 0 (Z.to_nat n) digits ++ "."
     ++ substring (Z.to_nat n) (Z.to_nat (k - n)) digits)%string
  else if (-6 <? n) && (n <=? 0) then
    ("0." ++ zeros (Z.to_nat (- n)) ++ digits)%string
  else
    let mark := if n - 1 <? 0 then "e-"%string else "e+"%string in
    let exponent := (mark ++ numeral (Z.abs (n - 1)))%string in
    if k =? 1 then (digits ++ exponent)%string
    else (substring 0 1 digits ++ "."
          ++ substring 1 (Z.to_nat (k - 1)) digits ++ exponent)%string.

(** ['' + x], that is [Number::toString(x)] in radix 10.  Seventeen
    digits tell every double from the others, and an integer needs no
    more digits than it has; should no decimal be found, which does not
    happen for a double, the result is empty. *)
Definition Number_toString (x : number) : string :=
  match x with
  | S754_nan => "NaN"%string
  | S754_zero _ => "0"%string
  | S754_infinity s => (if s then "-Infinity" else "Infinity")%string
  | S754_finite s m e =>
      let nx := decimal_position (Q_of_double m e) in
      ((if s then "-"%string else EmptyString)
       ++ match shortest_decimal (Z.to_nat (Z.max nx 17)) m e nx 1 with
          | Some (s, k, n) => format_decimal s k n
          | None => EmptyString
          end)%string
  end.

(** [isIntegerKey = key => isString(key) && key !== 'NaN' &&
      key[0] !== '-' && '' + parseInt(key, 10) === key], as it is
    written. *)
Definition isIntegerKey_parseInt (k : key) : bool :=
  match k with
  | KSym _ => false
  | KStr s =>
      negb (String.eqb s "NaN")
      && negb (match s with String c _ => Ascii.eqb c "-" | EmptyString => false end)
      && String.eqb (Number_toString (parseInt s)) s
  end.

(** The double nearest to [z] prints back as the numeral of [z]. *)
Definition prints_back (z : Z) : bool :=
  String.eqb (Number_toString (num_of_Z z)) (numeral z).

(** *** [Number(string)] *)

Fixpoint all_white (s : string) : bool :=
  match s with
  | EmptyString => true
  | String c r => StrWhiteSpaceChar c && all_white r
  end.

(** The rest of a string after its leading digits. *)
Fixpoint after_digits (s : string) : string :=
  match s with
  | String c r => if is_digit c then after_digits r else s
  | EmptyString => s
  end.

(** The quotient of two positive integers as a double: the division of
    [SpecFloat] rounds it once, to nearest and ties to even. *)
Definition round_ratio (p q : Z) : number :=
  match p, q with
  | Zpos a, Zpos b => SFdiv 53 1024 (S754_finite false a 0) (S754_finite false b 0)
  | _, _ => NaN
  end.

(** The digit that a character is in the radix, if it is one. *)
Definition radix_digit (radix : Z) (c : ascii) : option Z :=
  let n := Z.of_nat (nat_of_ascii c) in
  let v :=
    if (48 <=? n) && (n <=? 57) then n - 48
    else if (97 <=? n) && (n <=? 102) then n - 87
    else if (65 <=? n) && (n <=? 70) then n - 55
    else radix in
  if v <? radix then Some v else None.

Fixpoint radix_digits (radix : Z) (acc : Z) (s : string) : Z * string :=
  match s with
  | String c r =>
      match radix_digit radix c with
      | Some d => radix_digits radix (radix * acc + d) r
      | None => (acc, s)
      end
  | EmptyString => (acc, s)
  end.

(** [NonDecimalIntegerLiteral]: [0b], [0o] or [0x] (the letter in either
    case) and at least one digit of the radix; the value and what follows
    the literal. *)
Definition non_decimal_literal (s : string) : option (Z * string) :=
  match s with
  | String "0" (String x (String c r)) =>
      let radix :=
        if Ascii.eqb x "b" || Ascii.eqb x "B" then 2
        else if Ascii.eqb x "o" || Ascii.eqb x "O" then 8
        else if Ascii.eqb x "x" || Ascii.eqb x "X" then 16
        else 0 in
      match radix_digit radix c with
      | Some _ => Some (radix_digits radix 0 (String c r))
      | None => None
      end
  | _ => None
  end.

(** [ExponentPart]: [e] or [E], a sign or none, and at least one digit;
    without one the exponent is 0 and nothing is read. *)
Definition exponent_part (s : string) : Z * string :=
  match s with
  | String e r =>
      if Ascii.eqb e "e" || Ascii.eqb e "E" then
        let '(negative, digits) :=
          match r with
          | String c r' =>
              if Ascii.eqb c "-" then (true, r')
              else if Ascii.eqb c "+" then (false, r')
              else (false, r)
          | EmptyString => (false, r)
          end in
        match digit_prefix digits with
        | EmptyString => (0, s)
        | d => (if negative then - digits_value 0 d else digits_value 0 d,
                after_digits digits)
        end
      else (0, s)
  | EmptyString => (0, s)
  end.

(** [StrUnsignedDecimalLiteral]: [Infinity], or digits with a point and
    an exponent, where there is a digit before or after the point; the
    double nearest to what it spells, and what follows the literal. *)
Definition unsigned_decimal_literal (s : string) : option (number * string) :=
  if String.prefix "Infinity" s
  then Some (S754_infinity false, substring 8 (String.length s - 8) s)
  else
    let integer := digit_prefix s in
    let rest := after_digits s in
    let '(fraction, rest1) :=
      match rest with
      | String c r =>
          if Ascii.eqb c "."
          then (digit_prefix r,
                match integer, digit_prefix r with
                | EmptyString, EmptyString => rest
                | _, _ => after_digits r
                end)
          else (EmptyString, rest)
      | EmptyString => (EmptyString, rest)
      end in
    match (integer ++ fraction)%string with
    | EmptyString => None
    | digits =>
        let '(exponent, rest2) := exponent_part rest1 in
        let mantissa := digits_value 0 digits in
        let exp10 := exponent - Z.of_nat (String.length fraction) in
        Some (if mantissa =? 0 then pos_zero
              else if 0 <=? exp10 then num_of_Z (mantissa * 10 ^ exp10)
              else round_ratio mantissa (10 ^ (- exp10)),
              rest2)
    end.

(** [StringToNumber]: the value of the string as a
    [StringNumericLiteral], NaN when it is not one.  A string of white
    space is 0; a sign goes with a decimal literal only. *)
Definition StringNumericValue (s : string) : number :=
  match skip_white s with
  | EmptyString => pos_zero
  | t =>
      match non_decimal_literal t with
      | Some (v, rest) => if all_white rest then num_of_Z v else NaN
      | None =>
          let '(negative, u) :=
            match t with
            | String c r =>
                if Ascii.eqb c "-" then (true, r)
                else if Ascii.eqb c "+" then (false, r)
                else (false, t)
            | EmptyString => (false, t)
            end in
          match unsigned_decimal_literal u with
          | Some (x, rest) =>
              if all_white rest
              then if negative then SFopp x else x
              else NaN
          | None => NaN
          end
      end
  end.

(* ===================================================================== *)
(** ** dep.ts: dependency sets                                            *)
(* ===================================================================== *)

(** Effects are named by natural numbers. *)
Definition eff := nat.

(** A JavaScript [Set] of effects keeps insertion order and has no
    duplicates: [Set.add] appends only an absent element. *)
Definition set_has (e : eff) (l : list eff) : bool := existsb (Nat.eqb e) l.
Definition set_add (e : eff) (l : list eff) : list eff :=
  if set_has e l then l else l ++ [e].
Definition set_delete (e : eff) (l : list eff) : list eff :=
  filter (fun x => negb (Nat.eqb e x)) l.
Definition set_of_list (l : list eff) : list eff :=
  fold_left (fun acc e => set_add e acc) l [].

(** [type Dep = Set<ReactiveEffect> & TrackedMarkers] *)
Record Dep := mkDep {
  members : list eff;
  w : Z;   (* wasTracked *)
  n : Z    (* newTracked *)
}.

Definition createDep (effects : list eff) : Dep :=
  {| members := set_of_list effects; w := 0; n := 0 |}.

(** Both markers are 32-bit integers, and so is every [trackOpBit]; on
    such operands [Z.land], [Z.lor] and [Z.lnot] are the JavaScript
    operators [&], [|] and [~]. *)
Definition wasTracked (bit : Z) (dep : Dep) : bool := Z.land (w dep) bit >? 0.
Definition newTracked (bit : Z) (dep : Dep) : bool := Z.land (n dep) bit >? 0.

(* ===================================================================== *)
(** ** effect.ts: the global state                                        *)
(* ===================================================================== *)

(** [type KeyToDepMap = Map<any, Dep>]: a [Map] iterates in insertion
    order, so it is an association list with one entry per key. *)
Definition KeyToDepMap := list (key * Dep).

Fixpoint map_get (k : key) (m : KeyToDepMap) : option Dep :=
  match m with
  | [] => None
  | (k', d) :: r => if key_eqb k k' then Some d else map_get k r
  end.

Fixpoint map_set (k : key) (d : Dep) (m : KeyToDepMap) : KeyToDepMap :=
  match m with
  | [] => [(k, d)]
  | (k', d') :: r => if key_eqb k k' then (k, d) :: r else (k', d') :: map_set k d r
  end.

(** A [Dep] object is created by [track] for one slot of [targetMap] and
    is never taken out of it, so the object is named by its slot: the
    target and the key.  Every reference to a [Dep] held elsewhere (in
    [effect.deps]) is such a name and is read through [targetMap]. *)
Definition dep_ref := (nat * key)%type.

Definition dep_ref_eqb (a b : dep_ref) : bool :=
  Nat.eqb (fst a) (fst b) && key_eqb (snd a) (snd b).

(** The fields of a [ReactiveEffect] that the engine writes. *)
Record EffectState := mkEffectState {
  active : bool;
  deps : list dep_ref;
  parent : option eff;
  deferStop : bool
}.

(** [new ReactiveEffect(fn)] *)
Definition new_effect : EffectState :=
  {| active := true; deps := []; parent := None; deferStop := false |}.

Record State := mkState {
  targetMap : nat -> option KeyToDepMap;
  effects : eff -> EffectState;
  activeEffect : option eff;
  shouldTrack : bool;
  trackStack : list bool;
  effectTrackDepth : Z;
  trackOpBit : Z
}.

Definition maxMarkerBits : Z := 30.

(** [1 << d]: the shift count is taken modulo 32 and the result is a
    signed 32-bit integer. *)
Definition int32 (z : Z) : Z := (z + 2 ^ 31) mod 2 ^ 32 - 2 ^ 31.
Definition shl1 (d : Z) : Z := int32 (Z.shiftl 1 (Z.land d 31)).

Definition initial_state : State :=
  {| targetMap := fun _ => None;
     effects := fun _ => new_effect;
     activeEffect := None;
     shouldTrack := true;
     trackStack := [];
     effectTrackDepth := 0;
     trackOpBit := 1 |}.

Definition set_targetMap (st : State) (tm : nat -> option KeyToDepMap) : State :=
  {| targetMap := tm; effects := effects st; activeEffect := activeEffect st;
     shouldTrack := shouldTrack st; trackStack := trackStack st;
     effectTrackDepth := effectTrackDepth st; trackOpBit := trackOpBit st |}.

Definition set_effects (st : State) (ef : eff -> EffectState) : State :=
  {| targetMap := targetMap st; effects := ef; activeEffect := activeEffect st;
     shouldTrack := shouldTrack st; trackStack := trackStack st;
     effectTrackDepth := effectTrackDepth st; trackOpBit := trackOpBit st |}.

Definition upd_effect (st : State) (e : eff) (f : EffectState -> EffectState) : State :=
  set_effects st (fun x => if Nat.eqb x e then f (effects st e) else effects st x).

Definition dep_at (st : State) (r : dep_ref) : option Dep :=
  match targetMap st (fst r) with
  | Some m => map_get (snd r) m
  | None => None
  end.

(** Writes a field of the [Dep] object named [r]. *)
Definition upd_dep (st : State) (r : dep_ref) (f : Dep -> Dep) : State :=
  set_targetMap st (fun t =>
    if Nat.eqb t (fst r) then
      match targetMap st t with
      | Some m =>
          match map_get (snd r) m with
          | Some d => Some (map_set (snd r) (f d) m)
          | None => Some m
          end
      | None => None
      end
    else targetMap st t).

Definition dep_has (st : State) (r : dep_ref) (e : eff) : bool :=
  match dep_at st r with
  | Some d => set_has e (members d)
  | None => false
  end.

Definition set_w (z : Z) (d : Dep) : Dep := {| members := members d; w := z; n := n d |}.
Definition set_n (z : Z) (d : Dep) : Dep := {| members := members d; w := w d; n := z |}.
Definition set_members (l : list eff) (d : Dep) : Dep :=
  {| members := l; w := w d; n := n d |}.

Definition set_deps (l : list dep_ref) (s : EffectState) : EffectState :=
  {| active := active s; deps := l; parent := parent s; deferStop := deferStop s |}.
Definition set_parent (p : option eff) (s : EffectState) : EffectState :=
  {| active := active s; deps := deps s; parent := p; deferStop := deferStop s |}.
Definition set_active (b : bool) (s : EffectState) : EffectState :=
  {| active := b; deps := deps s; parent := parent s; deferStop := deferStop s |}.
Definition set_deferStop (b : bool) (s : EffectState) : EffectState :=
  {| active := active s; deps := deps s; parent := parent s; deferStop := b |}.

(** [initDepMarkers]: [deps[i].w |= trackOpBit] for every dep of the effect. *)
Definition initDepMarkers (st : State) (e : eff) : State :=
  fold_left
    (fun s r => upd_dep s r (fun d => set_w (Z.lor (w d) (trackOpBit s)) d))
    (deps (effects st e)) st.

(** The loop of [finalizeDepMarkers]: [kept] is [deps[0..ptr)]. *)
Fixpoint finalize_loop (e : eff) (l : list dep_ref) (kept : list dep_ref)
    (st : State) : State * list dep_ref :=
  match l with
  | [] => (st, kept)
  | r :: rest =>
      match dep_at st r with
      | None => finalize_loop e rest (kept ++ [r]) st
      | Some dep =>
          let bit := trackOpBit st in
          let stale := wasTracked bit dep && negb (newTracked bit dep) in
          let st1 :=
            if stale then upd_dep st r (fun d => set_members (set_delete e (members d)) d)
            else st in
          let kept1 := if stale then kept else kept ++ [r] in
          let st2 := upd_dep st1 r (fun d => set_w (Z.land (w d) (Z.lnot bit)) d) in
          let st3 := upd_dep st2 r (fun d => set_n (Z.land (n d) (Z.lnot bit)) d) in
          finalize_loop e rest kept1 st3
      end
  end.

Definition finalizeDepMarkers (st : State) (e : eff) : State :=
  let '(st1, kept) := finalize_loop e (deps (effects st e)) [] st in
  upd_effect st1 e (set_deps kept).

(** [cleanupEffect]: delete the effect from each of its deps, then
    [deps.length = 0]. *)
Definition cleanupEffect (st : State) (e : eff) : State :=
  let st1 :=
    fold_left
      (fun s r => upd_dep s r (fun d => set_members (set_delete e (members d)) d))
      (deps (effects st e)) st in
  upd_effect st1 e (set_deps []).

(** [trackEffects(dep)] for the [Dep] named [r], which exists. *)
Definition trackEffects (st : State) (r : dep_ref) : State :=
  match activeEffect st, dep_at st r with
  | Some a, Some dep =>
      let bit := trackOpBit st in
      let '(st1, track_it) :=
        if effectTrackDepth st <=? maxMarkerBits then
          if negb (newTracked bit dep) then
            (upd_dep st r (fun d => set_n (Z.lor (n d) bit) d),
             negb (wasTracked bit dep))
          else (st, false)
        else
          (* Full cleanup mode. *)
          (st, negb (set_has a (members dep))) in
      if track_it then
        let st2 := upd_dep st1 r (fun d => set_members (set_add a (members d)) d) in
        upd_effect st2 a (fun s => set_deps (deps s ++ [r]) s)
      else st1
  | _, _ => st
  end.

(** The lookups of [track]: the map of the target and the dep of the key
    are created when they are absent. *)
Definition ensure_dep (st : State) (target : nat) (k : key) : State :=
  let depsMap := match targetMap st target with Some m => m | None => [] end in
  let depsMap1 :=
    match map_get k depsMap with
    | Some _ => depsMap
    | None => map_set k (createDep []) depsMap
    end in
  set_targetMap st (fun t =>
    if Nat.eqb t target then Some depsMap1 else targetMap st t).

(** [track(target, type, key)]; the operation type only reaches the
    debugger hooks. *)
Definition track (st : State) (target : nat) (k : key) : State :=
  if shouldTrack st
     && (match activeEffect st with Some _ => true | None => false end) then
    trackEffects (ensure_dep st target k) (target, k)
  else st.

(** [pauseTracking], [enableTracking] and [resetTracking] *)
Definition set_tracking (st : State) (b : bool) (stack : list bool) : State :=
  {| targetMap := targetMap st; effects := effects st;
     activeEffect := activeEffect st; shouldTrack := b; trackStack := stack;
     effectTrackDepth := effectTrackDepth st; trackOpBit := trackOpBit st |}.

Definition pauseTracking (st : State) : State :=
  set_tracking st false (trackStack st ++ [shouldTrack st]).

Definition enableTracking (st : State) : State :=
  set_tracking st true (trackStack st ++ [shouldTrack st]).

Definition resetTracking (st : State) : State :=
  match rev (trackStack st) with
  | [] => set_tracking st true []
  | last :: r => set_tracking st last (rev r)
  end.

(** What a run leaves behind for an observer. *)
Inductive event :=
| EvFn (e : eff)          (* the computation [fn] of [e] starts *)
| EvScheduler (e : eff)   (* [e.scheduler()] is called *)
| EvOnStop (e : eff).     (* [e.onStop()] is called *)

(** A computation is a sequence of calls into the engine. *)
Inductive op :=
| OpTrack (target : nat) (k : key)
| OpStop (e : eff)
| OpRun (e : eff)
| OpTrigger (target : nat) (tk : kind) (type : TriggerOpTypes)
            (k : option key) (newValue : value).

(** The fields of a [ReactiveEffect] that the engine only reads. *)
Record EffectDef := mkEffectDef {
  fn : list op;
  computed : bool;       (* [effect.computed] is set *)
  allowRecurse : bool;
  scheduler : bool;      (* [effect.scheduler] is set *)
  onStop : bool          (* [effect.onStop] is set *)
}.

(** A call returns normally or throws. *)
Inductive outcome (A : Type) :=
| Ok (a : A)
| Throw.
Arguments Throw {A}.

Definition opt_eff_eqb (a : option eff) (e : eff) : bool :=
  match a with Some x => Nat.eqb x e | None => false end.

Section Engine.
Variable defs : eff -> EffectDef.

(** ECMAScript [ToNumber] on strings and on objects; a symbol throws. *)
Variable StringToNumber : string -> number.
Variable ObjectToNumber : nat -> option number.

Definition ToNumber (v : value) : option number :=
  match v with
  | VUndef => Some NaN
  | VNull => Some pos_zero
  | VBool true => Some (num_of_Z 1)
  | VBool false => Some pos_zero
  | VNum f => Some f
  | VStr s => Some (StringToNumber s)
  | VSym _ => None
  | VObj a => ObjectToNumber a
  end.

(** [a >= b] on numbers: false as soon as one of them is NaN. *)
Definition number_ge (a b : number) : bool := SFleb b a.

Variable numeral_roundtrips : Z -> bool.

(** [ReactiveEffect.stop] *)
Definition stop (st : State) (e : eff) : State * list event :=
  if opt_eff_eqb (activeEffect st) e then
    (upd_effect st e (set_deferStop true), [])
  else if active (effects st e) then
    let st1 := cleanupEffect st e in
    (upd_effect st1 e (set_active false),
     if onStop (defs e) then [EvOnStop e] else [])
  else (st, []).

(** The [depsMap.forEach] of the length branch of [trigger]; comparing
    a symbol key with a number throws a TypeError. *)
Fixpoint length_select (newLength : number) (m : KeyToDepMap) : outcome (list key) :=
  match m with
  | [] => Ok []
  | (k, _) :: rest =>
      let continue_with (sel : bool) :=
        match length_select newLength rest with
        | Ok l => Ok (if sel then k :: l else l)
        | Throw => Throw
        end in
      if key_eqb k length_key then continue_with true
      else match k with
           | KSym _ => Throw
           | KStr s => continue_with (number_ge (StringToNumber s) newLength)
           end
  end.

(** The first half of [trigger]: the slots whose deps are pushed on
    [deps], in order.  A pushed slot may hold no dep ([undefined]). *)
Definition trigger_select (depsMap : KeyToDepMap) (tk : kind)
    (type : TriggerOpTypes) (k : option key) (newValue : value)
  : outcome (list key) :=
  match type with
  | CLEAR => Ok (map fst depsMap)
  | _ =>
    if (match k with Some k' => key_eqb k' length_key | None => false end)
       && kind_isArray tk then
      match ToNumber newValue with
      | None => Throw
      | Some newLength => length_select newLength depsMap
      end
    else
      let own := match k with Some k' => [k'] | None => [] end in
      let extra :=
        match type with
        | ADD =>
            if negb (kind_isArray tk) then
              ITERATE_KEY :: (if kind_isMap tk then [MAP_KEY_ITERATE_KEY] else [])
            else if (match k with
                     | Some k' => isIntegerKey numeral_roundtrips k'
                     | None => false
                     end) then [length_key]
            else []
        | DELETE =>
            if negb (kind_isArray tk) then
              ITERATE_KEY :: (if kind_isMap tk then [MAP_KEY_ITERATE_KEY] else [])
            else []
        | SET => if kind_isMap tk then [ITERATE_KEY] else []
        | CLEAR => []
        end in
      Ok (own ++ extra)
  end.

Definition dep_members (d : option Dep) : list eff :=
  match d with Some dep => members dep | None => [] end.

(** The second half of [trigger]: the effects handed to
    [triggerEffects], from the array [deps]. *)
Definition trigger_effects (ds : list (option Dep)) : list eff :=
  match ds with
  | [d] => dep_members d
  | _ => members (createDep (flat_map dep_members ds))
  end.

(** The order in which [triggerEffects] hands the effects to
    [triggerEffect]: the computed ones, then the others. *)
Definition triggerEffects_order (l : list eff) : list eff :=
  filter (fun e => computed (defs e)) l
  ++ filter (fun e => negb (computed (defs e))) l.

(** The effects one call of [trigger] hands to [triggerEffect], in
    order; [Throw] when the selection throws. *)
Definition trigger_calls (st : State) (target : nat) (tk : kind)
    (type : TriggerOpTypes) (k : option key) (newValue : value)
  : outcome (list eff) :=
  match targetMap st target with
  | None => Ok []
  | Some depsMap =>
      match trigger_select depsMap tk type k newValue with
      | Throw => Throw
      | Ok ks =>
          Ok (triggerEffects_order
                (trigger_effects (map (fun k' => map_get k' depsMap) ks)))
      end
  end.

(** The result of running code: [None] when the fuel ran out, else the
    state, the events in order, and whether an exception escaped. *)
Definition result := option (State * list event * bool).

(** The walk up the [parent] links at the head of [run]. *)
Fixpoint chain_has (fuel : nat) (st : State) (p : option eff) (e : eff)
  : option bool :=
  match p with
  | None => Some false
  | Some q =>
      if Nat.eqb q e then Some true
      else match fuel with
           | O => None
           | S f => chain_has f st (parent (effects st q)) e
           end
  end.

Section Body.
(** [run] one level down, for the calls a computation makes. *)
Variable run : State -> eff -> result.

(** [triggerEffect] *)
Definition triggerEffect (st : State) (e : eff) : result :=
  if negb (opt_eff_eqb (activeEffect st) e) || allowRecurse (defs e) then
    if scheduler (defs e) then Some (st, [EvScheduler e], false)
    else run st e
  else Some (st, [], false).

(** One [for] loop of [triggerEffects] over the calls it makes. *)
Fixpoint triggerEffects_loop (st : State) (l : list eff) : result :=
  match l with
  | [] => Some (st, [], false)
  | e :: rest =>
      match triggerEffect st e with
      | None => None
      | Some (st1, tr1, true) => Some (st1, tr1, true)
      | Some (st1, tr1, false) =>
          match triggerEffects_loop st1 rest with
          | None => None
          | Some (st2, tr2, th) => Some (st2, tr1 ++ tr2, th)
          end
      end
  end.

(** [trigger] *)
Definition trigger (st : State) (target : nat) (tk : kind)
    (type : TriggerOpTypes) (k : option key) (newValue : value) : result :=
  match trigger_calls st target tk type k newValue with
  | Throw => Some (st, [], true)
  | Ok calls => triggerEffects_loop st calls
  end.

Definition exec_op (st : State) (o : op) : result :=
  match o with
  | OpTrack target k => Some (track st target k, [], false)
  | OpStop e => let '(st1, tr) := stop st e in Some (st1, tr, false)
  | OpRun e => run st e
  | OpTrigger target tk type k newValue => trigger st target tk type k newValue
  end.

Fixpoint exec_ops (st : State) (l : list op) : result :=
  match l with
  | [] => Some (st, [], false)
  | o :: rest =>
      match exec_op st o with
      | None => None
      | Some (st1, tr1, true) => Some (st1, tr1, true)
      | Some (st1, tr1, false) =>
          match exec_ops st1 rest with
          | None => None
          | Some (st2, tr2, th) => Some (st2, tr1 ++ tr2, th)
          end
      end
  end.
End Body.

(** The [try] block of [run] up to the call of [fn]. *)
Definition run_enter (st : State) (e : eff) : State :=
  let st1 := upd_effect st e (set_parent (activeEffect st)) in
  let depth := effectTrackDepth st1 + 1 in
  let st2 :=
    {| targetMap := targetMap st1; effects := effects st1;
       activeEffect := Some e; shouldTrack := true;
       trackStack := trackStack st1;
       effectTrackDepth := depth; trackOpBit := shl1 depth |} in
  if effectTrackDepth st2 <=? maxMarkerBits then initDepMarkers st2 e
  else cleanupEffect st2 e.

(** The [finally] block of [run]. *)
Definition run_exit (st : State) (e : eff) (lastShouldTrack : bool)
  : State * list event :=
  let st1 :=
    if effectTrackDepth st <=? maxMarkerBits then finalizeDepMarkers st e
    else st in
  let depth := effectTrackDepth st1 - 1 in
  let st2 :=
    {| targetMap := targetMap st1; effects := effects st1;
       activeEffect := parent (effects st1 e);
       shouldTrack := lastShouldTrack;
       trackStack := trackStack st1;
       effectTrackDepth := depth; trackOpBit := shl1 depth |} in
  let st3 := upd_effect st2 e (set_parent None) in
  if deferStop (effects st3 e) then stop st3 e else (st3, []).

(** [ReactiveEffect.run] *)
Fixpoint run (fuel : nat) (st : State) (e : eff) : result :=
  match fuel with
  | O => None
  | S f =>
      if negb (active (effects st e)) then
        match exec_ops (run f) st (fn (defs e)) with
        | None => None
        | Some (st1, tr, th) => Some (st1, EvFn e :: tr, th)
        end
      else
        match chain_has f st (activeEffect st) e with
        | None => None
        | Some true => Some (st, [], false)
        | Some false =>
            let lastShouldTrack := shouldTrack st in
            match exec_ops (run f) (run_enter st e) (fn (defs e)) with
            | None => None
            | Some (st1, tr, th) =>
                let '(st2, tr2) := run_exit st1 e lastShouldTrack in
                Some (st2, EvFn e :: tr ++ tr2, th)
            end
        end
  end.
End Engine.

(* ===================================================================== *)
(** ** Well-formed states                                                 *)
(* ===================================================================== *)

(** Every dep of the state is a [Set]: no effect is listed twice. *)
Definition deps_are_sets (st : State) : Prop :=
  forall t m k d, targetMap st t = Some m -> map_get k m = Some d ->
                  NoDup (members d).

(* ===================================================================== *)
(** ** Sample data                                                        *)
(* ===================================================================== *)

(** The parameters of the engine in the examples: the numerals that
    survive the trip through a double, and [Number] on strings, are the
    ones defined above. *)
Definition sample_roundtrips : Z -> bool := prints_back.

Definition sample_StringToNumber : string -> number := StringNumericValue.

Definition sample_ObjectToNumber (a : nat) : option number := Some NaN.

(** Effect 0 is plain and reads [a] and [b] of target 0; effect 1 is
    computed and reads [b]; effect 2 is plain, has a scheduler and reads
    [b]. *)
Definition sample_defs (e : eff) : EffectDef :=
  match e with
  | 0%nat => mkEffectDef [OpTrack 0 (KStr "a"); OpTrack 0 (KStr "b")]
               false false false false
  | 1%nat => mkEffectDef [OpTrack 0 (KStr "b")] true false false false
  | 2%nat => mkEffectDef [OpTrack 0 (KStr "b")] false false true false
  | _ => mkEffectDef [] false false false false
  end.

(** The state after effects 0, 1 and 2 ran once each. *)
Definition sample_depsMap : KeyToDepMap :=
  [(KStr "a", mkDep [0%nat] 0 0); (KStr "b", mkDep [0%nat; 1%nat; 2%nat] 0 0)].

Definition sample_state : State :=
  {| targetMap := fun t => if Nat.eqb t 0 then Some sample_depsMap else None;
     effects := fun e =>
       match e with
       | 0%nat => mkEffectState true [(0%nat, KStr "a"); (0%nat, KStr "b")] None false
       | 1%nat => mkEffectState true [(0%nat, KStr "b")] None false
       | 2%nat => mkEffectState true [(0%nat, KStr "b")] None false
       | _ => new_effect
       end;
     activeEffect := None;
     shouldTrack := true;
     trackStack := [];
     effectTrackDepth := 0;
     trackOpBit := 1 |}.

(** The deps of an array of which an effect read [length], the elements
    0 and 5, and the property "1.5". *)
Definition sample_array_depsMap : KeyToDepMap :=
  [(KStr "length", mkDep [0%nat] 0 0); (KStr "0", mkDep [0%nat] 0 0);
   (KStr "5", mkDep [0%nat] 0 0); (KStr "1.5", mkDep [0%nat] 0 0)].

(** The bookkeeping of an effect mirrors the deps: the effect is in a dep
    exactly if the dep is in its list [deps], and it is there once. *)
Definition mirrored (st : State) (e : eff) : Prop :=
  forall r, dep_has st r e = true <-> In r (deps (effects st e)).

Definition effect_wf (st : State) (e : eff) : Prop :=
  NoDup (deps (effects st e)) /\ mirrored st e.

(** No dep carries the marker bit [bit]: no run is using it. *)
Definition markers_clear (bit : Z) (st : State) : Prop :=
  forall r d, dep_at st r = Some d ->
              Z.land (w d) bit = 0 /\ Z.land (n d) bit = 0.

(** Computations that only read slots and stop the effect [e] itself. *)
Definition reads_or_stops (e : eff) (o : op) : Prop :=
  match o with
  | OpTrack _ _ => True
  | OpStop e' => e' = e
  | _ => False
  end.

Definition op_reads (o : op) : list dep_ref :=
  match o with OpTrack t k => [(t, k)] | _ => [] end.

(** The slots a computation reads. *)
Definition body_reads (l : list op) : list dep_ref := flat_map op_reads l.

Definition is_stop (o : op) : bool :=
  match o with OpStop _ => true | _ => false end.

(** The state [st] moved to the nesting depth [d]. *)
Definition at_depth (d : Z) (st : State) : State :=
  {| targetMap := targetMap st; effects := effects st;
     activeEffect := activeEffect st; shouldTrack := shouldTrack st;
     trackStack := trackStack st;
     effectTrackDepth := d; trackOpBit := shl1 d |}.

(** What holds while the effect [e] runs under the marker bit [bit],
    having started from [st0] with the deps [old] and read the slots
    [done] so far. *)
Definition bitmask_inv (e : eff) (bit : Z) (st0 : State)
    (old done : list dep_ref) (s : State) : Prop :=
  activeEffect s = Some e /\
  shouldTrack s = true /\
  (effectTrackDepth s <=? maxMarkerBits) = true /\
  trackOpBit s = bit /\
  active (effects s e) = true /\
  NoDup (deps (effects s e)) /\
  (forall r, In r (deps (effects s e)) <-> In r old \/ In r done) /\
  (forall r, In r old \/ In r done -> dep_at s r <> None) /\
  (forall r d, dep_at s r = Some d ->
     (wasTracked bit d = true <-> In r old) /\
     (newTracked bit d = true <-> In r done) /\
     (set_has e (members d) = true <-> In r old \/ In r done)) /\
  (forall r e', e' <> e -> dep_has s r e' = dep_has st0 r e').

(** The same for a run past the marker bits, in full cleanup mode. *)
Definition fullcleanup_inv (e : eff) (st0 : State) (done : list dep_ref)
    (s : State) : Prop :=
  activeEffect s = Some e /\
  shouldTrack s = true /\
  (effectTrackDepth s <=? maxMarkerBits) = false /\
  active (effects s e) = true /\
  NoDup (deps (effects s e)) /\
  (forall r, In r (deps (effects s e)) <-> In r done) /\
  (forall r, dep_has s r e = true <-> In r done) /\
  (forall r e', e' <> e -> dep_has s r e' = dep_has st0 r e').

(** What [finalizeDepMarkers] makes of one dep of the effect [e]. *)
Definition stale (bit : Z) (d : Dep) : bool :=
  wasTracked bit d && negb (newTracked bit d).

Definition finalized (e : eff) (bit : Z) (d : Dep) : Dep :=
  {| members := if stale bit d then set_delete e (members d) else members d;
     w := Z.land (w d) (Z.lnot bit);
     n := Z.land (n d) (Z.lnot bit) |}.

Definition kept_dep (st : State) (bit : Z) (r : dep_ref) : bool :=
  match dep_at st r with
  | Some d => negb (stale bit d)
  | None => true
  end.

(** The computation that reads the slots [reads] in turn. *)
Definition reads_body (reads : list dep_ref) : list op :=
  map (fun r => OpTrack (fst r) (snd r)) reads.

(** [on_chain st p e]: the effect [e] is met on the chain of [parent]
    links that starts at [p]. *)
Inductive on_chain (st : State) : option eff -> eff -> Prop :=
| on_chain_here (e : eff) : on_chain st (Some e) e
| on_chain_up (q e : eff) :
    on_chain st (parent (effects st q)) e -> on_chain st (Some q) e.

(** Effect 0 of the samples, now reading [b] only. *)
Definition rerun_defs (e : eff) : EffectDef :=
  match e with
  | 0%nat => mkEffectDef (reads_body [(0%nat, KStr "b")]) false false false false
  | _ => sample_defs e
  end.

(** Effect 0 reading [b] and stopping itself; it has an [onStop] hook. *)
Definition selfstop_defs (e : eff) : EffectDef :=
  match e with
  | 0%nat => mkEffectDef [OpTrack 0 (KStr "b"); OpStop 0%nat] false false false true
  | _ => sample_defs e
  end.

(** Effect 1 is running, started from within effect 0. *)
Definition nested_state (active0 : bool) : State :=
  {| targetMap := fun _ => None;
     effects := fun e =>
       match e with
       | 0%nat => mkEffectState active0 [] None false
       | 1%nat => mkEffectState true [] (Some 0%nat) false
       | _ => new_effect
       end;
     activeEffect := Some 1%nat;
     shouldTrack := true;
     trackStack := [];
     effectTrackDepth := 2;
     trackOpBit := 4 |}.

(** Effect 0 runs effect 1, which stops effect 0 and runs it again. *)
Definition reentrant_defs (e : eff) : EffectDef :=
  match e with
  | 0%nat => mkEffectDef [OpTrack 0 (KStr "a"); OpRun 1%nat] false false false false
  | 1%nat => mkEffectDef [OpStop 0%nat; OpRun 0%nat] false false false false
  | _ => mkEffectDef [] false false false false
  end.

(* ===================================================================== *)
(** ** baseHandlers.ts: the set and delete traps                          *)
(* ===================================================================== *)

(** What a trap does besides returning: the calls of [trigger] and of
    [warn] it makes, in order. *)
Inductive trap_event :=
| CallTrigger (target : nat) (type : TriggerOpTypes) (k : key)
              (newValue : value) (oldValue : option value)
| CallWarn (msg : string).

Definition dquote : string := String (ascii_of_nat 34) EmptyString.

Section Handlers.
(** The objects of the program: the traps reach them through the
    operations below, which belong to the language or to the modules
    [reactive] and [ref]. *)
Variable Heap : Type.

(** [isReadonly], [isShallow], [toRaw] of [reactive]; [isRef] of [ref];
    [oldValue.value = value] on a ref. *)
Variable isReadonly : Heap -> value -> bool.
Variable isShallow : Heap -> value -> bool.
Variable isRef : Heap -> value -> bool.
Variable toRaw : Heap -> value -> value.
Variable ref_assign : Heap -> value -> value -> Heap.

(** [target[key]], [hasOwn(target, key)], [isArray(target)],
    [target.length] and [Reflect.set(target, key, value, receiver)]. *)
Variable get_prop : Heap -> nat -> key -> value.
Variable hasOwn : Heap -> nat -> key -> bool.
Variable isArray : Heap -> nat -> bool.
Variable array_length : Heap -> nat -> Z.
Variable Reflect_set : Heap -> nat -> key -> value -> value -> bool * Heap.

(** The description of a symbol, for [String(key)]. *)
Variable symbol_description : nat -> string.

(** The build flag. *)
Variable __DEV__ : bool.

Variable numeral_roundtrips : Z -> bool.

(** The values the set trap goes on with: outside shallow mode, the old
    and the new value are both unwrapped unless the new one is shallow
    or read-only. *)
Definition setter_values (shallow : bool) (h : Heap) (oldValue v : value)
  : value * value :=
  if negb shallow && negb (isShallow h v) && negb (isReadonly h v)
  then (toRaw h oldValue, toRaw h v)
  else (oldValue, v).

(** [hadKey]: an integer key of an array is compared with the length
    (both are integers, and the length is below 2^32), any other key is
    looked up among the own properties. *)
Definition hadKey (h : Heap) (target : nat) (k : key) : bool :=
  if isArray h target && isIntegerKey numeral_roundtrips k then
    match k with
    | KStr s => digits_value 0 s <? array_length h target
    | KSym _ => false
    end
  else hasOwn h target k.

Definition is_object (v : value) (a : nat) : bool :=
  match v with VObj b => Nat.eqb a b | _ => false end.

(** [createSetter(shallow)]: the result of the trap, the objects after
    it, and the calls of [trigger] it made. *)
Definition createSetter (shallow : bool) (h : Heap) (target : nat) (k : key)
    (v : value) (receiver : value) : bool * Heap * list trap_event :=
  let oldValue := get_prop h target k in
  if isReadonly h oldValue && isRef h oldValue && negb (isRef h v) then
    (false, h, [])
  else
    let '(oldValue1, v1) := setter_values shallow h oldValue v in
    if negb shallow && negb (isArray h target)
       && isRef h oldValue1 && negb (isRef h v1) then
      (true, ref_assign h oldValue1 v1, [])
    else
      let had := hadKey h target k in
      let '(result, h1) := Reflect_set h target k v1 receiver in
      let calls :=
        if is_object (toRaw h1 receiver) target then
          if negb had then [CallTrigger target ADD k v1 None]
          else if hasChanged v1 oldValue1 then
                 [CallTrigger target SET k v1 (Some oldValue1)]
          else []
        else [] in
      (result, h1, calls).

Definition set : Heap -> nat -> key -> value -> value -> bool * Heap * list trap_event :=
  createSetter false.
Definition shallowSet : Heap -> nat -> key -> value -> value -> bool * Heap * list trap_event :=
  createSetter true.

Definition String_of_key (k : key) : string :=
  match k with
  | KStr s => s
  | KSym n => "Symbol(" ++ symbol_description n ++ ")"
  end.

(** [readonlyHandlers.set] and [readonlyHandlers.deleteProperty];
    [shallowReadonlyHandlers] has the same two traps. *)
Definition readonly_set (h : Heap) (target : nat) (k : key) (v receiver : value)
  : bool * Heap * list trap_event :=
  (true, h,
   if __DEV__ then
     [CallWarn ("Set operation on key " ++ dquote ++ String_of_key k ++ dquote
                ++ " failed: target is readonly.")]
   else []).

Definition readonly_deleteProperty (h : Heap) (target : nat) (k : key)
  : bool * Heap * list trap_event :=
  (true, h,
   if __DEV__ then
     [CallWarn ("Delete operation on key " ++ dquote ++ String_of_key k ++ dquote
                ++ " failed: target is readonly.")]
   else []).
End Handlers.

(** *** A small heap of objects for the examples *)

(** An object has own data properties; a proxy made by [reactive] or
    [readonly] also has the object it wraps. *)
Record Obj := mkObj {
  o_isArray : bool;
  o_props : list (key * value);
  o_wraps : option nat;
  o_readonly : bool
}.

Definition SimpleHeap := nat -> Obj.

Fixpoint lookup_prop (k : key) (l : list (key * value)) : option value :=
  match l with
  | [] => None
  | (k', v) :: r => if key_eqb k k' then Some v else lookup_prop k r
  end.

Fixpoint store_prop (k : key) (v : value) (l : list (key * value)) : list (key * value) :=
  match l with
  | [] => [(k, v)]
  | (k', v') :: r => if key_eqb k k' then (k, v) :: r else (k', v') :: store_prop k v r
  end.

Definition simple_get (h : SimpleHeap) (a : nat) (k : key) : value :=
  match lookup_prop k (o_props (h a)) with Some v => v | None => VUndef end.

Definition simple_hasOwn (h : SimpleHeap) (a : nat) (k : key) : bool :=
  match lookup_prop k (o_props (h a)) with Some _ => true | None => false end.

Definition simple_store (h : SimpleHeap) (a : nat) (k : key) (v : value) : SimpleHeap :=
  fun b => if Nat.eqb b a
           then mkObj (o_isArray (h a)) (store_prop k v (o_props (h a)))
                      (o_wraps (h a)) (o_readonly (h a))
           else h b.

(** A proxy answers for the object it wraps. *)
Definition simple_toRaw (h : SimpleHeap) (v : value) : value :=
  match v with
  | VObj a => match o_wraps (h a) with Some t => VObj t | None => v end
  | _ => v
  end.

Definition simple_isRef (h : SimpleHeap) (v : value) : bool :=
  match simple_toRaw h v with
  | VObj a => Object_is (simple_get h a (KStr "__v_isRef")) (VBool true)
  | _ => false
  end.

Definition simple_isReadonly (h : SimpleHeap) (v : value) : bool :=
  match v with
  | VObj a =>
      o_readonly (h a)
      || Object_is (simple_get h a (KStr "__v_isReadonly")) (VBool true)
  | _ => false
  end.

Definition simple_isShallow (h : SimpleHeap) (v : value) : bool := false.

Definition simple_ref_assign (h : SimpleHeap) (r v : value) : SimpleHeap :=
  match r with
  | VObj a => simple_store h a (KStr "value") v
  | _ => h
  end.

Definition simple_isArray (h : SimpleHeap) (a : nat) : bool := o_isArray (h a).

Definition simple_length (h : SimpleHeap) (a : nat) : Z :=
  match simple_get h a (KStr "length") with
  | VNum (S754_finite false m e) => Z.shiftl (Z.pos m) e
  | _ => 0
  end.

(** [Reflect.set] on a plain object through its proxy stores the own
    property. *)
Definition simple_Reflect_set (h : SimpleHeap) (a : nat) (k : key) (v receiver : value)
  : bool * SimpleHeap :=
  (true, simple_store h a k v).

(** Object 0 is [{ count: 1, total: NaN, box: <object 1>, locked: <object 3> }],
    object 1 is a ref, object 2 is the reactive proxy of object 0, and
    object 3 is a read-only ref. *)
Definition simple_heap : SimpleHeap :=
  fun a =>
    match a with
    | 0%nat => mkObj false
                 [(KStr "count", VNum (num_of_Z 1)); (KStr "total", VNum NaN);
                  (KStr "zero", VNum pos_zero);
                  (KStr "box", VObj 1); (KStr "locked", VObj 3)]
                 None false
    | 1%nat => mkObj false
                 [(KStr "__v_isRef", VBool true); (KStr "value", VNum (num_of_Z 1))]
                 None false
    | 2%nat => mkObj false [] (Some 0%nat) false
    | 3%nat => mkObj false
                 [(KStr "__v_isRef", VBool true); (KStr "__v_isReadonly", VBool true);
                  (KStr "value", VNum (num_of_Z 1))]
                 None false
    | _ => mkObj false [] None false
    end.

Definition simple_set (shallow : bool) :=
  createSetter simple_isReadonly simple_isShallow simple_isRef simple_toRaw
    simple_ref_assign simple_get simple_hasOwn simple_isArray simple_length
    simple_Reflect_set sample_roundtrips shallow.

(* ===================================================================== *)
(** ** What calls into the engine leave in place                          *)
(* ===================================================================== *)

(** [same_frame st st']: the running effect, the depth, the tracking flag
    with its stack, and every [parent] link are in [st'] as in [st]. *)
Definition same_frame (st st' : State) : Prop :=
  activeEffect st' = activeEffect st /\
  effectTrackDepth st' = effectTrackDepth st /\
  shouldTrack st' = shouldTrack st /\
  trackStack st' = trackStack st /\
  forall x, parent (effects st' x) = parent (effects st x).

(** [balanced st st']: the same, for the [parent] links of the effects
    that are running in [st] (the chain of the running effect). *)
Definition balanced (st st' : State) : Prop :=
  activeEffect st' = activeEffect st /\
  effectTrackDepth st' = effectTrackDepth st /\
  shouldTrack st' = shouldTrack st /\
  trackStack st' = trackStack st /\
  forall x, on_chain st (activeEffect st) x ->
            parent (effects st' x) = parent (effects st x).

Section Instrumentations.
Variable defs : eff -> EffectDef.
Variable StringToNumber : string -> number.
Variable ObjectToNumber : nat -> option number.
Variable numeral_roundtrips : Z -> bool.
Variable run' : State -> eff -> result.

End Instrumentations.

(** Effect 3 reads a symbol-keyed property of the array 5 and then sets
    the length of that array: the comparison of the symbol key with the
    new length throws inside its computation. *)
Definition throwing_defs (e : eff) : EffectDef :=
  match e with
  | 3%nat => mkEffectDef
               [OpTrack 5 (KSym 7);
                OpTrigger 5 ArrayObject SET (Some length_key) (VNum (num_of_Z 0));
                OpTrack 5 (KStr "never")]
               false false false false
  | 4%nat => mkEffectDef [OpTrack 5 (KStr "0"); OpRun 3%nat] false false false false
  | _ => mkEffectDef [] false false false false
  end.

(** The sample state after effect 0 was stopped. *)
Definition stopped_state : State := fst (stop sample_defs sample_state 0%nat).

(** The key under which the [ownKeys] trap records an enumeration:
    [isArray(target) ? 'length' : ITERATE_KEY]. *)
Definition ownKeys_key (tk : kind) : key :=
  if kind_isArray tk then length_key else ITERATE_KEY.

(** [i + '']: the decimal numeral of an index. *)
Definition string_of_index (i : nat) : string :=
  DecimalString.NilEmpty.string_of_uint (Nat.to_uint i).

(** A target with two enumerating effects: effect 0 called [ownKeys] on
    the plain object 1, effect 1 on the array 2. *)
Definition enumerated_state : State :=
  {| targetMap := fun t =>
       match t with
       | 1%nat => Some [(ITERATE_KEY, mkDep [0%nat] 0 0)]
       | 2%nat => Some [(length_key, mkDep [1%nat] 0 0)]
       | _ => None
       end;
     effects := fun e =>
       match e with
       | 0%nat => mkEffectState true [(1%nat, ITERATE_KEY)] None false
       | 1%nat => mkEffectState true [(2%nat, length_key)] None false
       | _ => new_effect
       end;
     activeEffect := None;
     shouldTrack := true;
     trackStack := [];
     effectTrackDepth := 0;
     trackOpBit := 1 |}.

(* ===================================================================== *)
(** ** baseHandlers.ts: the traps that read, and deleteProperty           *)
(* ===================================================================== *)

(** The calls of [track] a trap makes, in order. *)
Inductive read_event :=
| CallTrack (target : nat) (type : TrackOpTypes) (k : key).

(** What the get trap returns: a flag, the target itself, one of the
    functions it installs, the value read, or that value after unwrapping
    a ref ([res.value]) or wrapping an object ([readonly(res)],
    [reactive(res)]). *)
Inductive get_result :=
| GotBool (b : bool)
| GotTarget
| GotInstrumentation (name : string)
| GotHasOwnProperty
| GotValue (v : value)
| GotRefValue (ref : value)
| GotReadonly (v : value)
| GotReactive (v : value).

(** The own keys of [arrayInstrumentations]. *)
Definition arrayInstrumentations_keys : list string :=
  ["includes"; "indexOf"; "lastIndexOf";
   "push"; "pop"; "shift"; "unshift"; "splice"]%string.

Definition is_instrumented (k : key) : bool :=
  match k with
  | KStr s => existsb (String.eqb s) arrayInstrumentations_keys
  | KSym _ => false
  end.

(** [isObject = val => val !== null && typeof val === 'object'] *)
Definition isObject (v : value) : bool :=
  match v with VObj _ => true | _ => false end.

(** [===] on values: a number is compared as a number (NaN differs from
    itself, the two zeros are the same), anything else by identity. *)
Definition strict_equal (a b : value) : bool :=
  match a, b with
  | VNum x, VNum y => SFeqb x y
  | _, _ => Object_is a b
  end.

Section ReadHandlers.
Variable Heap : Type.

(** The keys [ReactiveFlags.IS_REACTIVE], [IS_READONLY], [IS_SHALLOW] and
    [RAW] of [reactive]. *)
Variable IS_REACTIVE : key.
Variable IS_READONLY : key.
Variable IS_SHALLOW : key.
Variable RAW : key.

(** [receiver === map.get(target)], for the proxy map of the mode
    (read-only or not, shallow or not). *)
Variable is_proxy_of : Heap -> bool -> bool -> value -> nat -> bool.

(** [isNonTrackableKeys], made by [makeMap], and the set
    [builtInSymbols] of the well-known symbols. *)
Variable isNonTrackableKeys : string -> bool.
Variable builtInSymbols : nat -> bool.

Variable isArray : Heap -> nat -> bool.
Variable isRef : Heap -> value -> bool.
Variable get_prop : Heap -> nat -> key -> value.
Variable hasOwn : Heap -> nat -> key -> bool.
Variable Reflect_get : Heap -> nat -> key -> value -> value.
Variable Reflect_has : Heap -> nat -> key -> bool.
Variable Reflect_ownKeys : Heap -> nat -> list key.
Variable Reflect_deleteProperty : Heap -> nat -> key -> bool * Heap.
Variable numeral_roundtrips : Z -> bool.

(** [createGetter(isReadonly, shallow)] *)
Definition createGetter (isReadonly shallow : bool) (h : Heap) (target : nat)
    (k : key) (receiver : value) : get_result * list read_event :=
  if key_eqb k IS_REACTIVE then (GotBool (negb isReadonly), [])
  else if key_eqb k IS_READONLY then (GotBool isReadonly, [])
  else if key_eqb k IS_SHALLOW then (GotBool shallow, [])
  else if key_eqb k RAW && is_proxy_of h isReadonly shallow receiver target
  then (GotTarget, [])
  else
    let targetIsArray := isArray h target in
    if negb isReadonly && targetIsArray && is_instrumented k then
      (GotInstrumentation (match k with KStr s => s | KSym _ => EmptyString end), [])
    else if negb isReadonly && key_eqb k (KStr "hasOwnProperty") then
      (GotHasOwnProperty, [])
    else
      let res := Reflect_get h target k receiver in
      if match k with
         | KSym n => builtInSymbols n
         | KStr s => isNonTrackableKeys s
         end
      then (GotValue res, [])
      else
        let tracked := if negb isReadonly then [CallTrack target GET k] else [] in
        if shallow then (GotValue res, tracked)
        else if isRef h res then
          (if targetIsArray && isIntegerKey numeral_roundtrips k
           then GotValue res else GotRefValue res, tracked)
        else if isObject res then
          (if isReadonly then GotReadonly res else GotReactive res, tracked)
        else (GotValue res, tracked).

Definition get := createGetter false false.
Definition shallowGet := createGetter false true.
Definition readonlyGet := createGetter true false.
Definition shallowReadonlyGet := createGetter true true.

(** [deleteProperty] of the mutable handlers. *)
Definition deleteProperty (h : Heap) (target : nat) (k : key)
  : bool * Heap * list trap_event :=
  let had := hasOwn h target k in
  let oldValue := get_prop h target k in
  let '(result, h1) := Reflect_deleteProperty h target k in
  (result, h1,
   if result && had then [CallTrigger target DELETE k VUndef (Some oldValue)]
   else []).

(** [has] *)
Definition has (h : Heap) (target : nat) (k : key) : bool * list read_event :=
  (Reflect_has h target k,
   if match k with KSym n => negb (builtInSymbols n) | KStr _ => true end
   then [CallTrack target HAS k] else []).

(** [ownKeys] *)
Definition ownKeys (h : Heap) (target : nat) : list key * list read_event :=
  (Reflect_ownKeys h target,
   [CallTrack target ITERATE
              (if isArray h target then length_key else ITERATE_KEY)]).

(** The function [hasOwnProperty] that the get trap hands out, called on
    a proxy of the object [obj] ([obj = toRaw(this)]). *)
Definition hasOwnProperty (h : Heap) (obj : nat) (k : key) : bool * list read_event :=
  (hasOwn h obj k, [CallTrack obj HAS k]).
End ReadHandlers.

(** *** createArrayInstrumentations *)

(** The reads of [includes], [indexOf] and [lastIndexOf] on the reactive
    proxy of the array [arr] of length [len]: [this.length] goes through
    the get trap of the proxy, then the loop tracks [i + ''] for every
    index. *)
Definition search_method_reads (arr : nat) (len : nat) : list dep_ref :=
  (arr, length_key) :: map (fun i => (arr, KStr (string_of_index i))) (seq 0 len).

(** What these three methods return: the method of the raw array, here
    [search], is tried on the arguments as given and, when it answers -1
    or false, on the raw arguments. *)
Definition search_method (toRaw : value -> value) (search : list value -> value)
    (args : list value) : value :=
  let res := search args in
  if strict_equal res (VNum (num_of_Z (-1))) || strict_equal res (VBool false)
  then search (map toRaw args)
  else res.

(** The effects that the [trigger] call of a trap hands to
    [triggerEffect], for a target of kind [tk]. *)
Definition fired_calls (defs : eff -> EffectDef)
    (StringToNumber : string -> number) (ObjectToNumber : nat -> option number)
    (numeral_roundtrips : Z -> bool) (st : State) (tk : kind) (ev : trap_event)
  : outcome (list eff) :=
  match ev with
  | CallTrigger target type k newValue _ =>
      trigger_calls defs StringToNumber ObjectToNumber numeral_roundtrips
                    st target tk type (Some k) newValue
  | CallWarn _ => Ok []
  end.

(** Every effect has a scheduler. *)
Definition scheduled_defs (e : eff) : EffectDef :=
  mkEffectDef (fn (sample_defs e)) (computed (sample_defs e)) false true false.

(** The getters over the small heap: the flag keys have the names they
    have in [reactive], object 2 is the reactive proxy of object 0, and
    the thirteen well-known symbols of [builtInSymbols] are the symbols
    100 to 112. *)
Definition simple_is_proxy_of (h : SimpleHeap) (ro sh : bool) (receiver : value)
    (target : nat) : bool :=
  negb ro && negb sh && Object_is receiver (VObj 2) && Nat.eqb target 0.

Definition sample_isNonTrackableKeys (s : string) : bool :=
  existsb (String.eqb s) ["__proto__"; "__v_isRef"; "__isVue"]%string.

Definition sample_builtInSymbols (n : nat) : bool :=
  (100 <=? n)%nat && (n <=? 112)%nat.

Definition simple_Reflect_get (h : SimpleHeap) (target : nat) (k : key)
    (receiver : value) : value :=
  simple_get h target k.

Definition simple_getter (isReadonly shallow : bool) :=
  createGetter (KStr "__v_isReactive") (KStr "__v_isReadonly")
    (KStr "__v_isShallow") (KStr "__v_raw")
    simple_is_proxy_of sample_isNonTrackableKeys sample_builtInSymbols
    simple_isArray simple_isRef simple_Reflect_get
    sample_roundtrips isReadonly shallow.

(** The array 5 of length 3, with an effect subscribed to its length. *)
Definition array_heap : SimpleHeap :=
  fun a =>
    match a with
    | 5%nat => mkObj true
                 [(KStr "0", VNum (num_of_Z 7)); (KStr "1", VNum (num_of_Z 8));
                  (KStr "2", VNum (num_of_Z 9)); (KStr "length", VNum (num_of_Z 3))]
                 None false
    | 6%nat => mkObj true [] (Some 5%nat) false
    | _ => mkObj false [] None false
    end.

Definition array_state : State :=
  {| targetMap := fun t =>
       match t with
       | 5%nat => Some [(length_key, mkDep [0%nat] 0 0); (KStr "1", mkDep [1%nat] 0 0)]
       | _ => None
       end;
     effects := fun e =>
       match e with
       | 0%nat => mkEffectState true [(5%nat, length_key)] None false
       | 1%nat => mkEffectState true [(5%nat, KStr "1")] None false
       | _ => new_effect
       end;
     activeEffect := None;
     shouldTrack := true;
     trackStack := [];
     effectTrackDepth := 0;
     trackOpBit := 1 |}.

(** Effect 2 searches the array 5, of length 3, with [includes]. *)
Definition search_defs (e : eff) : EffectDef :=
  match e with
  | 2%nat => mkEffectDef (reads_body (search_method_reads 5 3)) false false false false
  | _ => mkEffectDef [] false false false false
  end.

(** [Reflect.deleteProperty] on a plain object removes the own property. *)
Definition simple_delete (h : SimpleHeap) (a : nat) (k : key) : bool * SimpleHeap :=
  (true,
   fun b => if Nat.eqb b a
            then mkObj (o_isArray (h a))
                       (filter (fun p => negb (key_eqb k (fst p))) (o_props (h a)))
                       (o_wraps (h a)) (o_readonly (h a))
            else h b).

(* ===================================================================== *)
(** ** The shared helpers                                                 *)
(* ===================================================================== *)

(** [arr.indexOf(el)]: the first index whose element is [=== el]. *)
Fixpoint indexOf (el : value) (arr : list value) : option nat :=
  match arr with
  | [] => None
  | x :: r =>
      if strict_equal x el then Some 0%nat
      else match indexOf el r with Some i => Some (S i) | None => None end
  end.

(** [remove = (arr, el) => { const i = arr.indexOf(el);
                             if (i > -1) arr.splice(i, 1) }] *)
Definition remove (arr : list value) (el : value) : list value :=
  match indexOf el arr with
  | Some i => firstn i arr ++ skipn (S i) arr
  | None => arr
  end.

Definition is_lower (c : ascii) : bool :=
  let n := nat_of_ascii c in (97 <=? n)%nat && (n <=? 122)%nat.

(** [isOn = key => /^on[^a-z]/.test(key)] *)
Definition isOn (s : string) : bool :=
  match s with
  | String o (String n (String c _)) =>
      Ascii.eqb o "o"%char && Ascii.eqb n "n"%char && negb (is_lower c)
  | _ => false
  end.

(** [isModelListener = key => key.startsWith('onUpdate:')] *)
Definition isModelListener (s : string) : bool := String.prefix "onUpdate:" s.

(** [toUpperCase] on an ASCII character. *)
Definition toUpperCase_ascii (c : ascii) : ascii :=
  if is_lower c then ascii_of_nat (nat_of_ascii c - 32) else c.

(** [capitalize = str => str.charAt(0).toUpperCase() + str.slice(1)], for
    a string that starts with an ASCII character or is empty. *)
Definition capitalize (s : string) : string :=
  match s with
  | EmptyString => EmptyString
  | String c r => String (toUpperCase_ascii c) r
  end.

(** [toHandlerKey = str => str ? `on${capitalize(str)}` : ``] *)
Definition toHandlerKey (s : string) : string :=
  match s with
  | EmptyString => EmptyString
  | _ => "on" ++ capitalize s
  end.

(** [cacheStringFunction(fn)]: the cache is an object without prototype,
    from strings to strings; one call of the function it returns is
    [const hit = cache[str]; return hit || (cache[str] = fn(str))]. *)
Definition string_cache := list (string * string).

Fixpoint cache_get (str : string) (c : string_cache) : option string :=
  match c with
  | [] => None
  | (k, v) :: r => if String.eqb str k then Some v else cache_get str r
  end.

Definition cached_call (fn : string -> string) (c : string_cache) (str : string)
  : string * string_cache :=
  match cache_get str c with
  | Some (String a r) => (String a r, c)
  | _ => (fn str, (str, fn str) :: c)
  end.

(** The calls of a cached function on the strings [strs], from the cache
    [c]: the results, and the cache at the end. *)
Fixpoint cached_calls (fn : string -> string) (c : string_cache) (strs : list string)
  : list string * string_cache :=
  match strs with
  | [] => ([], c)
  | s :: r =>
      let '(v, c1) := cached_call fn c s in
      let '(vs, c2) := cached_calls fn c1 r in
      (v :: vs, c2)
  end.

(** Every entry of the cache is a result of [fn]. *)
Definition cache_sound (fn : string -> string) (c : string_cache) : Prop :=
  forall s v, cache_get s c = Some v -> v = fn s.


(** Effect 0 reads [x] of the object 0 and runs effect 1, which stops
    effect 0; effects 2 and 3 read [x]. *)
Definition stuck_defs (e : eff) : EffectDef :=
  match e with
  | 0%nat => mkEffectDef [OpTrack 0 (KStr "x"); OpRun 1%nat] false false false false
  | 1%nat => mkEffectDef [OpStop 0%nat] false false false false
  | 2%nat => mkEffectDef (reads_body [(0%nat, KStr "x")]) false false false false
  | 3%nat => mkEffectDef (reads_body [(0%nat, KStr "x")]) false false false false
  | _ => mkEffectDef [] false false false false
  end.

(** The same effects, effect 3 now reading [y] and no longer [x]. *)
Definition stuck_later_defs (e : eff) : EffectDef :=
  match e with
  | 3%nat => mkEffectDef (reads_body [(0%nat, KStr "y")]) false false false false
  | _ => stuck_defs e
  end.

(** The state and the rest of what a call returned. *)
Definition result_state (r : result) : State :=
  match r with Some (s, _, _) => s | None => initial_state end.

Definition result_trace (r : result) : option (list event * bool) :=
  match r with Some (_, tr, th) => Some (tr, th) | None => None end.

(** The small heap with an array, object 7, that holds the ref 1 at its
    index 0 and the plain object 9 at the key [child]. *)
Definition ref_array_heap : SimpleHeap :=
  fun a =>
    match a with
    | 7%nat => mkObj true
                 [(KStr "0", VObj 1); (KStr "length", VNum (num_of_Z 1));
                  (KStr "child", VObj 9)]
                 None false
    | _ => simple_heap a
    end.

(* ===================================================================== *)
(** ** Sets of effects                                                    *)
(* ===================================================================== *)

Lemma set_has_In (e : eff) (l : list eff) : set_has e l = true <-> In e l.
Proof.
  unfold set_has. rewrite existsb_exists. split.
  - intros [x [Hx He]]. apply Nat.eqb_eq in He. now subst.
  - intros H. exists e. split; [assumption | apply Nat.eqb_refl].
Qed.

Lemma set_has_false (e : eff) (l : list eff) : set_has e l = false <-> ~ In e l.
Proof.
  rewrite <- set_has_In. destruct (set_has e l); split; congruence.
Qed.

Lemma In_set_add (e x : eff) (l : list eff) :
  In x (set_add e l) <-> x = e \/ In x l.
Proof.
  unfold set_add. destruct (set_has e l) eqn:H.
  - apply set_has_In in H. split; [tauto | intros [->|]; assumption].
  - rewrite in_app_iff. simpl. intuition congruence.
Qed.

Lemma NoDup_set_add (e : eff) (l : list eff) : NoDup l -> NoDup (set_add e l).
Proof.
  intros Hl. unfold set_add. destruct (set_has e l) eqn:H; [assumption|].
  apply set_has_false in H.
  apply NoDup_app; [assumption | repeat constructor; simpl; tauto |].
  intros x Hx [<-|[]]. contradiction.
Qed.

Lemma In_set_delete (e x : eff) (l : list eff) :
  In x (set_delete e l) <-> x <> e /\ In x l.
Proof.
  unfold set_delete. rewrite filter_In, negb_true_iff, Nat.eqb_neq.
  intuition congruence.
Qed.

Lemma NoDup_set_delete (e : eff) (l : list eff) : NoDup l -> NoDup (set_delete e l).
Proof. apply NoDup_filter. Qed.

Lemma set_of_list_fold (l acc : list eff) :
  NoDup acc ->
  NoDup (fold_left (fun a e => set_add e a) l acc) /\
  (forall x, In x (fold_left (fun a e => set_add e a) l acc) <-> In x acc \/ In x l).
Proof.
  revert acc. induction l as [|e l IH]; intros acc Hacc; simpl.
  - split; [assumption | tauto].
  - destruct (IH (set_add e acc) (NoDup_set_add e Hacc)) as [H1 H2].
    split; [assumption|].
    intros x. rewrite H2, In_set_add. intuition congruence.
Qed.

Lemma NoDup_set_of_list (l : list eff) : NoDup (set_of_list l).
Proof. apply (set_of_list_fold l (acc := [])). constructor. Qed.

Lemma In_set_of_list (x : eff) (l : list eff) : In x (set_of_list l) <-> In x l.
Proof.
  unfold set_of_list.
  destruct (set_of_list_fold l (acc := [])) as [_ H]; [constructor|].
  rewrite H. simpl. tauto.
Qed.




Lemma In_trigger_effects (x : eff) (ds : list (option Dep)) :
  In x (trigger_effects ds) <-> exists d, In (Some d) ds /\ In x (members d).
Proof.
  assert (G : In x (flat_map dep_members ds) <->
              exists d, In (Some d) ds /\ In x (members d)).
  { rewrite in_flat_map. split.
    - intros [[d|] [H1 H2]]; simpl in H2; [eauto | contradiction].
    - intros [d [H1 H2]]. exists (Some d). auto. }
  unfold trigger_effects.
  destruct ds as [|d [|d' ds']];
    try (simpl members; rewrite In_set_of_list; exact G).
  rewrite <- G. simpl. rewrite app_nil_r. tauto.
Qed.

(* ===================================================================== *)
(** ** trigger: which deps are selected, which effects are called         *)
(* ===================================================================== *)

Lemma sample_state_sets : deps_are_sets sample_state.
Proof.
  intros t m k d Ht Hk. destruct t as [|t]; simpl in Ht; [|discriminate].
  injection Ht as <-. simpl in Hk.
  destruct (key_eqb k (KStr "a")); [injection Hk as <-; simpl; repeat constructor; simpl; tauto|].
  destruct (key_eqb k (KStr "b")); [injection Hk as <-; simpl|discriminate].
  repeat constructor; simpl; intuition discriminate.
Qed.

Section TriggerClaims.
Variable defs : eff -> EffectDef.
Variable StringToNumber : string -> number.
Variable ObjectToNumber : nat -> option number.
Variable numeral_roundtrips : Z -> bool.

Local Abbreviation select :=
  (trigger_select StringToNumber ObjectToNumber numeral_roundtrips).
Local Abbreviation calls_of :=
  (trigger_calls defs StringToNumber ObjectToNumber numeral_roundtrips).


(** C3, as the code has it: on an array whose deps are all registered
    under string keys, a trigger on [length] (of a type other than CLEAR)
    selects, in registration order, the dep of [length] and every dep
    whose key is, as a number, at least the new length, and no other
    dep. *)
Theorem trigger_length_selects
    (depsMap : KeyToDepMap) (type : TriggerOpTypes) (newValue : value)
    (newLength : number) :
  type <> CLEAR ->
  ToNumber StringToNumber ObjectToNumber newValue = Some newLength ->
  (forall k, In k (map fst depsMap) -> exists s, k = KStr s) ->
  select depsMap ArrayObject type (Some length_key) newValue =
  Ok (filter
        (fun k => match k with
                  | KStr s => String.eqb s "length"
                              || number_ge (StringToNumber s) newLength
                  | KSym _ => false
                  end)
        (map fst depsMap)).
Proof.
  intros Hty Hnum Hstr. unfold trigger_select.
  assert (E : length_select StringToNumber newLength depsMap =
              Ok (filter
                    (fun k => match k with
                              | KStr s => String.eqb s "length"
                                          || number_ge (StringToNumber s) newLength
                              | KSym _ => false
                              end)
                    (map fst depsMap))).
  { clear Hty Hnum. induction depsMap as [|[k d] m IH]; [reflexivity|].
    destruct (Hstr k) as [s ->]; [now left|].
    simpl. rewrite IH by (intros k' Hk'; apply Hstr; now right).
    unfold length_key. simpl.
    destruct (String.eqb s "length"); simpl; [reflexivity|].
    destruct (number_ge (StringToNumber s) newLength); reflexivity. }
  destruct type; try congruence; simpl; rewrite Hnum; exact E.
Qed.

(** C9, with the key [length] set apart: on an array, a trigger of type
    ADD whose key is neither [length] nor an integer key selects the dep
    of that key alone. *)
Theorem trigger_add_array_other_key
    (depsMap : KeyToDepMap) (k : key) (newValue : value) :
  k <> length_key ->
  isIntegerKey numeral_roundtrips k = false ->
  select depsMap ArrayObject ADD (Some k) newValue = Ok [k].
Proof.
  intros Hlen Hint. unfold trigger_select.
  apply key_eqb_neq in Hlen. rewrite Hlen, Hint. reflexivity.
Qed.
End TriggerClaims.


Example trigger_sample_calls :
  trigger_calls sample_defs sample_StringToNumber sample_ObjectToNumber
    sample_roundtrips sample_state 0%nat PlainObject CLEAR None VUndef
  = Ok [1%nat; 0%nat; 2%nat].
Proof. reflexivity. Qed.

Lemma trigger_length_selects_witness :
  SET <> CLEAR /\
  ToNumber sample_StringToNumber sample_ObjectToNumber (VNum (num_of_Z 1))
    = Some (num_of_Z 1) /\
  (forall k, In k (map fst sample_array_depsMap) -> exists s, k = KStr s) /\
  trigger_select sample_StringToNumber sample_ObjectToNumber sample_roundtrips
    sample_array_depsMap ArrayObject SET (Some length_key) (VNum (num_of_Z 1))
  = Ok [KStr "length"; KStr "5"; KStr "1.5"].
Proof.
  assert (H : forall k, In k (map fst sample_array_depsMap) -> exists s, k = KStr s).
  { simpl. intros k [<-|[<-|[<-|[<-|[]]]]]; eauto. }
  split; [discriminate|]. split; [reflexivity|]. split; [exact H|].
  rewrite (@trigger_length_selects sample_StringToNumber sample_ObjectToNumber
             sample_roundtrips sample_array_depsMap SET (VNum (num_of_Z 1))
             (num_of_Z 1)); [reflexivity | discriminate | reflexivity | exact H].
Defined.

(** C3 as it is written fails: the property "1.5" is no element index,
    and setting [length] to 1 selects its dep. *)
Lemma trigger_length_selects_non_index :
  trigger_select sample_StringToNumber sample_ObjectToNumber sample_roundtrips
    sample_array_depsMap ArrayObject SET (Some length_key) (VNum (num_of_Z 1))
  = Ok [KStr "length"; KStr "5"; KStr "1.5"] /\
  isIntegerKey sample_roundtrips (KStr "1.5") = false.
Proof. split; reflexivity. Qed.

Lemma trigger_add_array_other_key_witness :
  KStr "name" <> length_key /\
  isIntegerKey sample_roundtrips (KStr "name") = false /\
  trigger_select sample_StringToNumber sample_ObjectToNumber sample_roundtrips
    sample_array_depsMap ArrayObject ADD (Some (KStr "name")) VUndef
  = Ok [KStr "name"].
Proof.
  split; [discriminate|]. split; [reflexivity|].
  apply trigger_add_array_other_key; [discriminate | reflexivity].
Defined.

(** C9 as it is written fails on the key [length], which is no integer
    key: a trigger of type ADD on it takes the length branch and selects
    the deps of the elements as well. *)
Lemma trigger_add_array_length_key :
  isIntegerKey sample_roundtrips length_key = false /\
  trigger_select sample_StringToNumber sample_ObjectToNumber sample_roundtrips
    sample_array_depsMap ArrayObject ADD (Some length_key) (VNum (num_of_Z 0))
  = Ok [KStr "length"; KStr "0"; KStr "5"; KStr "1.5"] /\
  [KStr "length"; KStr "0"; KStr "5"; KStr "1.5"] <> [length_key].
Proof. split; [reflexivity|]. split; [reflexivity|discriminate]. Qed.

(* ===================================================================== *)
(** ** The store of deps and effects                                      *)
(* ===================================================================== *)

Lemma dep_ref_eqb_spec (a b : dep_ref) : reflect (a = b) (dep_ref_eqb a b).
Proof.
  destruct a as [t k], b as [t' k']. unfold dep_ref_eqb. simpl.
  destruct (Nat.eqb_spec t t'), (key_eqb_spec k k'); simpl; constructor; congruence.
Qed.

Lemma dep_ref_eq_dec (a b : dep_ref) : {a = b} + {a <> b}.
Proof. destruct (dep_ref_eqb_spec a b); [left | right]; assumption. Qed.

Lemma map_get_map_set (k k' : key) (d : Dep) (m : KeyToDepMap) :
  map_get k' (map_set k d m) = if key_eqb k' k then Some d else map_get k' m.
Proof.
  induction m as [|[k0 d0] m IH]; simpl.
  - reflexivity.
  - destruct (key_eqb_spec k k0) as [->|Hk]; simpl.
    + destruct (key_eqb k' k0); reflexivity.
    + destruct (key_eqb_spec k' k0) as [->|Hk'].
      * destruct (key_eqb_spec k0 k); [congruence | reflexivity].
      * exact IH.
Qed.

Lemma dep_at_upd_dep (st : State) (r r' : dep_ref) (f : Dep -> Dep) :
  dep_at (upd_dep st r f) r' =
  if dep_ref_eqb r' r then option_map f (dep_at st r) else dep_at st r'.
Proof.
  destruct r as [t k], r' as [t' k']. unfold upd_dep, dep_at, dep_ref_eqb. simpl.
  destruct (Nat.eqb_spec t' t) as [->|Ht]; simpl; [|reflexivity].
  destruct (targetMap st t) as [m|]; [|destruct (key_eqb k' k); reflexivity].
  destruct (map_get k m) as [d|] eqn:Hd; simpl.
  - rewrite map_get_map_set. reflexivity.
  - destruct (key_eqb_spec k' k) as [->|]; [assumption | reflexivity].
Qed.

Lemma dep_at_upd_dep_same (st : State) (r : dep_ref) (f : Dep -> Dep) :
  dep_at (upd_dep st r f) r = option_map f (dep_at st r).
Proof.
  rewrite dep_at_upd_dep. destruct (dep_ref_eqb_spec r r); congruence.
Qed.

Lemma dep_at_upd_dep_other (st : State) (r r' : dep_ref) (f : Dep -> Dep) :
  r' <> r -> dep_at (upd_dep st r f) r' = dep_at st r'.
Proof.
  intros H. rewrite dep_at_upd_dep. destruct (dep_ref_eqb_spec r' r); congruence.
Qed.

Lemma dep_at_upd_effect (st : State) (e : eff) (f : EffectState -> EffectState)
    (r : dep_ref) :
  dep_at (upd_effect st e f) r = dep_at st r.
Proof. reflexivity. Qed.

Lemma effects_upd_effect_same (st : State) (e : eff) (f : EffectState -> EffectState) :
  effects (upd_effect st e f) e = f (effects st e).
Proof. simpl. now rewrite Nat.eqb_refl. Qed.

Lemma effects_upd_effect_other (st : State) (e e' : eff)
    (f : EffectState -> EffectState) :
  e' <> e -> effects (upd_effect st e f) e' = effects st e'.
Proof. intros H. simpl. apply Nat.eqb_neq in H. now rewrite H. Qed.

(** *** Marker bits *)

Lemma land_lor_same (a b : Z) : Z.land (Z.lor a b) b = b.
Proof.
  apply Z.bits_inj'. intros i Hi.
  rewrite Z.land_spec, Z.lor_spec. destruct (Z.testbit a i), (Z.testbit b i); reflexivity.
Qed.

Lemma land_clear_same (a b : Z) : Z.land (Z.land a (Z.lnot b)) b = 0.
Proof.
  apply Z.bits_inj'. intros i Hi.
  rewrite !Z.land_spec, Z.lnot_spec, Z.bits_0 by assumption.
  destruct (Z.testbit a i), (Z.testbit b i); reflexivity.
Qed.

Lemma shl1_pow2 (d : Z) : 0 <= d <= 30 -> shl1 d = 2 ^ d.
Proof.
  intros Hd. unfold shl1, int32.
  change 31 with (Z.ones 5) at 1. rewrite Z.land_ones by lia.
  rewrite (Z.mod_small d) by (change (2 ^ 5) with 32; lia).
  rewrite Z.shiftl_1_l.
  assert (0 < 2 ^ d) by (apply Z.pow_pos_nonneg; lia).
  assert (2 ^ d <= 2 ^ 30) by (apply Z.pow_le_mono_r; lia).
  rewrite Z.mod_small; lia.
Qed.

Lemma shl1_pos (d : Z) : 0 <= d <= 30 -> 0 < shl1 d.
Proof.
  intros Hd. rewrite shl1_pow2 by assumption. apply Z.pow_pos_nonneg; lia.
Qed.

(** *** Membership under the updates of the engine *)

Lemma set_has_set_add (x e : eff) (l : list eff) :
  set_has x (set_add e l) = Nat.eqb x e || set_has x l.
Proof.
  apply eq_true_iff_eq. rewrite orb_true_iff, !set_has_In, In_set_add, Nat.eqb_eq.
  tauto.
Qed.

Lemma set_has_set_delete (x e : eff) (l : list eff) :
  set_has x (set_delete e l) = negb (Nat.eqb x e) && set_has x l.
Proof.
  apply eq_true_iff_eq.
  rewrite andb_true_iff, negb_true_iff, !set_has_In, In_set_delete, Nat.eqb_neq.
  tauto.
Qed.

Lemma dep_has_upd_dep (st : State) (r r' : dep_ref) (f : Dep -> Dep) (x : eff) :
  (forall d, set_has x (members (f d)) = set_has x (members d)) ->
  dep_has (upd_dep st r f) r' x = dep_has st r' x.
Proof.
  intros Hf. unfold dep_has. rewrite dep_at_upd_dep.
  destruct (dep_ref_eqb_spec r' r) as [->|]; [|reflexivity].
  destruct (dep_at st r); simpl; [apply Hf | reflexivity].
Qed.

Lemma dep_has_upd_effect (st : State) (e : eff) (f : EffectState -> EffectState)
    (r : dep_ref) (x : eff) :
  dep_has (upd_effect st e f) r x = dep_has st r x.
Proof. reflexivity. Qed.

Lemma dep_at_ensure_dep (st : State) (t : nat) (k : key) (r : dep_ref) :
  dep_at (ensure_dep st t k) r =
  if dep_ref_eqb r (t, k) then
    Some (match dep_at st (t, k) with Some d => d | None => createDep [] end)
  else dep_at st r.
Proof.
  destruct r as [t' k']. unfold ensure_dep, dep_at, dep_ref_eqb. simpl.
  destruct (Nat.eqb_spec t' t) as [->|Ht]; simpl; [|reflexivity].
  destruct (targetMap st t) as [m|]; simpl.
  - destruct (map_get k m) as [d|] eqn:Hd.
    + destruct (key_eqb_spec k' k) as [->|]; [assumption | reflexivity].
    + rewrite map_get_map_set. destruct (key_eqb k' k); reflexivity.
  - destruct (key_eqb k' k); reflexivity.
Qed.

Lemma dep_has_ensure_dep (st : State) (t : nat) (k : key) (r : dep_ref) (x : eff) :
  dep_has (ensure_dep st t k) r x = dep_has st r x.
Proof.
  unfold dep_has. rewrite dep_at_ensure_dep.
  destruct (dep_ref_eqb_spec r (t, k)) as [->|]; [|reflexivity].
  destruct (dep_at st (t, k)); reflexivity.
Qed.

Lemma wasTracked_fresh (bit : Z) : wasTracked bit (createDep []) = false.
Proof. reflexivity. Qed.

Lemma newTracked_fresh (bit : Z) : newTracked bit (createDep []) = false.
Proof. reflexivity. Qed.

Lemma not_true_iff_false' (b : bool) (P : Prop) :
  (b = true <-> P) -> (b = false <-> ~ P).
Proof. destruct b; intuition congruence. Qed.

(* ===================================================================== *)
(** ** A run under a marker bit                                           *)
(* ===================================================================== *)

Lemma ensure_dep_bitmask_inv (e : eff) (bit : Z) (st0 : State)
    (old done : list dep_ref) (s : State) (t : nat) (k : key) :
  bitmask_inv e bit st0 old done s ->
  bitmask_inv e bit st0 old done (ensure_dep s t k) /\
  exists d, dep_at (ensure_dep s t k) (t, k) = Some d.
Proof.
  intros (A1 & A2 & A3 & A4 & A5 & A6 & A7 & A8 & A9 & A10).
  split.
  - do 7 (split; [assumption|]). split; [|split].
    + intros r Hr. rewrite dep_at_ensure_dep.
      destruct (dep_ref_eqb r (t, k)); [discriminate | now apply A8].
    + intros r d H. rewrite dep_at_ensure_dep in H.
      destruct (dep_ref_eqb_spec r (t, k)) as [->|]; [|now apply A9].
      destruct (dep_at s (t, k)) as [d0|] eqn:Hd0; injection H as <-;
        [now apply A9|].
      assert (Ho : ~ In (t, k) old) by (intros Hr; apply (A8 (t, k)); auto).
      assert (Hd : ~ In (t, k) done) by (intros Hr; apply (A8 (t, k)); auto).
      rewrite wasTracked_fresh, newTracked_fresh. simpl.
      intuition discriminate.
    + intros r e' He'. rewrite dep_has_ensure_dep. now apply A10.
  - rewrite dep_at_ensure_dep.
    destruct (dep_ref_eqb_spec (t, k) (t, k)); [eauto | congruence].
Qed.

Lemma wasTracked_set_n (bit z : Z) (d : Dep) :
  wasTracked bit (set_n z d) = wasTracked bit d.
Proof. reflexivity. Qed.

Lemma newTracked_set (bit : Z) (d : Dep) :
  0 < bit -> newTracked bit (set_n (Z.lor (n d) bit) d) = true.
Proof.
  intros Hb. unfold newTracked. simpl. rewrite land_lor_same. now apply Z.gtb_lt.
Qed.

Lemma trackEffects_bitmask_inv (e : eff) (bit : Z) (st0 : State)
    (old done : list dep_ref) (s : State) (r : dep_ref) (d : Dep) :
  0 < bit ->
  bitmask_inv e bit st0 old done s ->
  dep_at s r = Some d ->
  bitmask_inv e bit st0 old (done ++ [r]) (trackEffects s r).
Proof.
  intros Hbit (A1 & A2 & A3 & A4 & A5 & A6 & A7 & A8 & A9 & A10) Hd.
  destruct (A9 r d Hd) as (W & N & M).
  assert (Hin : forall r', In r' (done ++ [r]) <-> In r' done \/ r' = r).
  { intros r'. rewrite in_app_iff. simpl. intuition congruence. }
  unfold trackEffects. rewrite A1, Hd, A3, A4.
  destruct (newTracked bit d) eqn:Hn; simpl.
  - (* read before in this run *)
    assert (Hr : In r done) by now apply N.
    do 6 (split; [assumption|]). split; [|split; [|split]].
    + intros r'. rewrite A7, Hin. intuition (subst; auto).
    + intros r' Hr'. apply A8. rewrite Hin in Hr'. intuition (subst; auto).
    + intros r' d' Hd'. destruct (A9 r' d' Hd') as (W' & N' & M').
      rewrite Hin. intuition (subst; auto).
    + assumption.
  - assert (Hr : ~ In r done) by (rewrite <- N; congruence).
    destruct (wasTracked bit d) eqn:Hw; simpl.
    + (* a dep of the last run, read for the first time in this one *)
      assert (Ho : In r old) by now apply W.
      do 6 (split; [assumption|]). split; [|split; [|split]].
      * intros r'. rewrite A7, Hin. intuition (subst; auto).
      * intros r' Hr'. destruct (dep_ref_eq_dec r' r) as [->|Hne].
        -- rewrite dep_at_upd_dep_same, Hd. discriminate.
        -- rewrite dep_at_upd_dep_other by assumption.
           apply A8. rewrite Hin in Hr'. intuition (subst; auto).
      * intros r' d' Hd'. rewrite Hin.
        destruct (dep_ref_eq_dec r' r) as [->|Hne].
        -- rewrite dep_at_upd_dep_same, Hd in Hd'. simpl in Hd'.
           injection Hd' as <-.
           rewrite wasTracked_set_n, Hw, newTracked_set by assumption.
           change (members (set_n _ d)) with (members d).
           rewrite M. intuition auto.
        -- rewrite dep_at_upd_dep_other in Hd' by assumption.
           destruct (A9 r' d' Hd') as (W' & N' & M'). intuition (subst; auto).
      * intros r' e' He'. rewrite dep_has_upd_dep by reflexivity. now apply A10.
    + (* a new dep *)
      assert (Ho : ~ In r old) by (rewrite <- W; congruence).
      split; [assumption|]. split; [assumption|]. split; [assumption|].
      split; [assumption|]. split; [|split; [|split; [|split; [|split]]]].
      * rewrite effects_upd_effect_same. assumption.
      * rewrite effects_upd_effect_same. simpl.
        apply NoDup_app; [assumption | repeat constructor; simpl; tauto |].
        intros x Hx [<-|[]]. apply A7 in Hx. tauto.
      * intros r'. rewrite effects_upd_effect_same. simpl.
        rewrite in_app_iff, A7, Hin. simpl. intuition (subst; auto).
      * intros r' Hr'. rewrite dep_at_upd_effect.
        destruct (dep_ref_eq_dec r' r) as [->|Hne].
        -- rewrite !dep_at_upd_dep_same, Hd. discriminate.
        -- rewrite !dep_at_upd_dep_other by assumption.
           apply A8. rewrite Hin in Hr'. intuition (subst; auto).
      * intros r' d' Hd'. rewrite dep_at_upd_effect in Hd'. rewrite Hin.
        destruct (dep_ref_eq_dec r' r) as [->|Hne].
        -- rewrite !dep_at_upd_dep_same, Hd in Hd'. simpl in Hd'.
           injection Hd' as <-.
           change (wasTracked bit (set_members _ (set_n _ d)))
             with (wasTracked bit d).
           change (newTracked bit (set_members _ (set_n (Z.lor (n d) bit) d)))
             with (newTracked bit (set_n (Z.lor (n d) bit) d)).
           rewrite Hw, newTracked_set by assumption. simpl.
           rewrite set_has_set_add, Nat.eqb_refl. simpl. intuition auto.
        -- rewrite !dep_at_upd_dep_other in Hd' by assumption.
           destruct (A9 r' d' Hd') as (W' & N' & M'). intuition (subst; auto).
      * intros r' e' He'. rewrite dep_has_upd_effect.
        rewrite dep_has_upd_dep.
        -- rewrite dep_has_upd_dep by reflexivity. now apply A10.
        -- intros d0. simpl. rewrite set_has_set_add.
           apply Nat.eqb_neq in He'. now rewrite He'.
Qed.

Lemma track_keeps (s : State) (t : nat) (k : key) (x : eff) :
  parent (effects (track s t k) x) = parent (effects s x) /\
  deferStop (effects (track s t k) x) = deferStop (effects s x) /\
  active (effects (track s t k) x) = active (effects s x).
Proof.
  unfold track.
  destruct (shouldTrack s && _); [|repeat split].
  unfold trackEffects.
  destruct (activeEffect (ensure_dep s t k)) as [a|]; [|repeat split].
  destruct (dep_at (ensure_dep s t k) (t, k)) as [d|]; [|repeat split].
  destruct (effectTrackDepth (ensure_dep s t k) <=? maxMarkerBits).
  - destruct (negb (newTracked _ d)); [|repeat split].
    destruct (negb (wasTracked _ d)); [|repeat split].
    simpl. destruct (Nat.eqb x a) eqn:E; [|repeat split].
    apply Nat.eqb_eq in E. subst. repeat split.
  - destruct (negb (set_has a (members d))); [|repeat split].
    simpl. destruct (Nat.eqb x a) eqn:E; [|repeat split].
    apply Nat.eqb_eq in E. subst. repeat split.
Qed.

Lemma track_depth (s : State) (t : nat) (k : key) :
  effectTrackDepth (track s t k) = effectTrackDepth s.
Proof.
  unfold track.
  destruct (shouldTrack s && _); [|reflexivity].
  unfold trackEffects.
  destruct (activeEffect (ensure_dep s t k)) as [a|]; [|reflexivity].
  destruct (dep_at (ensure_dep s t k) (t, k)) as [d|]; [|reflexivity].
  destruct (effectTrackDepth (ensure_dep s t k) <=? maxMarkerBits).
  - destruct (negb (newTracked _ d)); [|reflexivity].
    destruct (negb (wasTracked _ d)); reflexivity.
  - destruct (negb (set_has a (members d))); reflexivity.
Qed.

Lemma track_bitmask_inv (e : eff) (bit : Z) (st0 : State)
    (old done : list dep_ref) (s : State) (t : nat) (k : key) :
  0 < bit ->
  bitmask_inv e bit st0 old done s ->
  bitmask_inv e bit st0 old (done ++ [(t, k)]) (track s t k).
Proof.
  intros Hbit Hinv.
  assert (Ha : activeEffect s = Some e) by apply Hinv.
  assert (Hs : shouldTrack s = true) by apply Hinv.
  unfold track. rewrite Ha, Hs. simpl.
  destruct (ensure_dep_bitmask_inv t k Hinv) as [Hinv1 [d Hd]].
  eapply trackEffects_bitmask_inv; eassumption.
Qed.

Lemma stop_self (defs : eff -> EffectDef) (s : State) (e : eff) :
  activeEffect s = Some e ->
  stop defs s e = (upd_effect s e (set_deferStop true), []).
Proof.
  intros Ha. unfold stop. rewrite Ha. simpl. now rewrite Nat.eqb_refl.
Qed.

Lemma stop_self_bitmask_inv (e : eff) (bit : Z) (st0 : State)
    (old done : list dep_ref) (s : State) :
  bitmask_inv e bit st0 old done s ->
  bitmask_inv e bit st0 old done (upd_effect s e (set_deferStop true)).
Proof.
  intros (A1 & A2 & A3 & A4 & A5 & A6 & A7 & A8 & A9 & A10).
  unfold bitmask_inv. rewrite effects_upd_effect_same.
  repeat (split; [assumption|]). assumption.
Qed.

Section Bodies.
Variable defs : eff -> EffectDef.
Variable StringToNumber : string -> number.
Variable ObjectToNumber : nat -> option number.
Variable numeral_roundtrips : Z -> bool.
Variable run' : State -> eff -> result.

Local Abbreviation exec :=
  (exec_ops defs StringToNumber ObjectToNumber numeral_roundtrips run').

Lemma exec_body_bitmask (e : eff) (bit : Z) (st0 : State) (old : list dep_ref)
    (ops : list op) :
  0 < bit ->
  Forall (reads_or_stops e) ops ->
  forall (done : list dep_ref) (s : State),
    bitmask_inv e bit st0 old done s ->
    exists s',
      exec s ops = Some (s', [], false) /\
      bitmask_inv e bit st0 old (done ++ body_reads ops) s' /\
      parent (effects s' e) = parent (effects s e) /\
      deferStop (effects s' e) = deferStop (effects s e) || existsb is_stop ops /\
      effectTrackDepth s' = effectTrackDepth s.
Proof.
  intros Hbit Hops. induction Hops as [|o ops Ho Hops IH]; intros done s Hinv.
  - exists s. simpl. rewrite app_nil_r, orb_false_r.
    split; [reflexivity|]. split; [assumption|]. repeat split; reflexivity.
  - destruct o as [t k|e'| |]; simpl in Ho; try contradiction.
    + destruct (IH (done ++ [(t, k)]) (track s t k)) as (s' & E & I & P & D & T);
        [now apply track_bitmask_inv|].
      exists s'. simpl. rewrite E.
      destruct (track_keeps s t k e) as (P1 & D1 & _).
      rewrite <- app_assoc in I. simpl in I. rewrite track_depth in T.
      split; [reflexivity|]. split; [assumption|]. repeat split; congruence.
    + subst e'.
      assert (Ha : activeEffect s = Some e) by apply Hinv.
      destruct (IH done (upd_effect s e (set_deferStop true)))
        as (s' & E & I & P & D & T); [now apply stop_self_bitmask_inv|].
      exists s'. simpl. rewrite (stop_self defs s Ha), E.
      rewrite effects_upd_effect_same in P, D. simpl in P, D.
      split; [reflexivity|]. split; [assumption|]. split; [assumption|].
      split; [|exact T].
      rewrite D. simpl. now rewrite orb_true_r.
Qed.
End Bodies.

(** *** The loops over [effect.deps] *)

Lemma fold_upd_dep_spec (g : Z -> Dep -> Dep) (l : list dep_ref) :
  forall s, NoDup l ->
    let s' := fold_left (fun s r => upd_dep s r (g (trackOpBit s))) l s in
    (forall r, dep_at s' r =
               if in_dec dep_ref_eq_dec r l
               then option_map (g (trackOpBit s)) (dep_at s r)
               else dep_at s r) /\
    effects s' = effects s /\
    activeEffect s' = activeEffect s /\
    shouldTrack s' = shouldTrack s /\
    effectTrackDepth s' = effectTrackDepth s /\
    trackOpBit s' = trackOpBit s.
Proof.
  induction l as [|a l IH]; intros s Hnd; simpl.
  - repeat split.
  - inversion Hnd as [|? ? Ha Hl]; subst.
    destruct (IH (upd_dep s a (g (trackOpBit s))) Hl)
      as (H1 & H2 & H3 & H4 & H5 & H6).
    split; [|repeat split; assumption].
    intros r. rewrite H1. simpl trackOpBit.
    destruct (dep_ref_eq_dec a r) as [->|Hne].
    + destruct (in_dec dep_ref_eq_dec r l); [contradiction|].
      apply dep_at_upd_dep_same.
    + rewrite dep_at_upd_dep_other by congruence.
      destruct (in_dec dep_ref_eq_dec r l); reflexivity.
Qed.

Lemma finalize_loop_spec (e : eff) (l : list dep_ref) :
  forall kept s,
    NoDup l ->
    (forall r, In r l -> dep_at s r <> None) ->
    let bit := trackOpBit s in
    let s' := fst (finalize_loop e l kept s) in
    (forall r, dep_at s' r =
               if in_dec dep_ref_eq_dec r l
               then option_map (finalized e bit) (dep_at s r)
               else dep_at s r) /\
    snd (finalize_loop e l kept s) = kept ++ filter (kept_dep s bit) l /\
    effects s' = effects s /\
    activeEffect s' = activeEffect s /\
    shouldTrack s' = shouldTrack s /\
    effectTrackDepth s' = effectTrackDepth s /\
    trackOpBit s' = trackOpBit s.
Proof.
  induction l as [|a l IH]; intros kept s Hnd Hex; simpl.
  - rewrite app_nil_r. repeat split.
  - inversion Hnd as [|? ? Ha Hl]; subst.
    destruct (dep_at s a) as [d|] eqn:Hd; [|exfalso; apply (Hex a); [now left | assumption]].
    set (bit := trackOpBit s).
    set (s1 := if wasTracked bit d && negb (newTracked bit d)
               then upd_dep s a (fun d0 => set_members (set_delete e (members d0)) d0)
               else s).
    set (s3 := upd_dep (upd_dep s1 a (fun d0 => set_w (Z.land (w d0) (Z.lnot bit)) d0))
                       a (fun d0 => set_n (Z.land (n d0) (Z.lnot bit)) d0)).
    assert (Hs3a : dep_at s3 a = Some (finalized e bit d)).
    { unfold s3. rewrite !dep_at_upd_dep_same. unfold s1, finalized, stale.
      destruct (wasTracked bit d && negb (newTracked bit d));
        [rewrite dep_at_upd_dep_same|]; rewrite Hd; reflexivity. }
    assert (Hs3o : forall r, r <> a -> dep_at s3 r = dep_at s r).
    { intros r Hr. unfold s3. rewrite !dep_at_upd_dep_other by assumption.
      unfold s1. destruct (wasTracked bit d && negb (newTracked bit d));
        [now apply dep_at_upd_dep_other | reflexivity]. }
    assert (Hfr : effects s3 = effects s /\ activeEffect s3 = activeEffect s /\
                  shouldTrack s3 = shouldTrack s /\
                  effectTrackDepth s3 = effectTrackDepth s /\
                  trackOpBit s3 = trackOpBit s).
    { unfold s3, s1. destruct (wasTracked bit d && negb (newTracked bit d));
        repeat split. }
    destruct Hfr as (F1 & F2 & F3 & F4 & F5).
    destruct (IH (if wasTracked bit d && negb (newTracked bit d)
                  then kept else kept ++ [a]) s3 Hl)
      as (H1 & H2 & H3 & H4 & H5 & H6 & H7).
    { intros r Hr. rewrite Hs3o; [apply Hex; now right|]. congruence. }
    rewrite F5 in H1, H2. fold bit in H1, H2.
    split; [|split; [|repeat (split; [etransitivity; eassumption|]);
                       etransitivity; eassumption]].
    + intros r. rewrite H1.
      destruct (dep_ref_eq_dec a r) as [->|Hne].
      * destruct (in_dec dep_ref_eq_dec r l); [contradiction|].
        rewrite Hs3a, Hd. reflexivity.
      * rewrite Hs3o by congruence.
        destruct (in_dec dep_ref_eq_dec r l); reflexivity.
    + rewrite H2.
      assert (Hf : filter (kept_dep s3 bit) l = filter (kept_dep s bit) l).
      { apply filter_ext_in. intros r Hr. unfold kept_dep.
        rewrite Hs3o; [reflexivity | congruence]. }
      rewrite Hf. unfold kept_dep at 2. rewrite Hd. unfold stale.
      destruct (wasTracked bit d && negb (newTracked bit d)); simpl;
        [reflexivity | now rewrite <- app_assoc].
Qed.

Lemma land_bit_nonneg (a bit : Z) : 0 < bit -> 0 <= Z.land a bit.
Proof. intros H. apply Z.land_nonneg. right. lia. Qed.

Lemma tracked_false_clear (a bit : Z) :
  0 < bit -> (Z.land a bit >? 0) = false -> Z.land a bit = 0.
Proof.
  intros Hb H. pose proof (land_bit_nonneg a Hb).
  destruct (Z.gtb_spec (Z.land a bit) 0); [discriminate | lia].
Qed.

Lemma mirrored_dep_exists (st : State) (e : eff) (r : dep_ref) :
  mirrored st e -> In r (deps (effects st e)) -> dep_at st r <> None.
Proof.
  intros Hm Hr Hn. apply Hm in Hr. unfold dep_has in Hr. rewrite Hn in Hr.
  discriminate.
Qed.

Lemma run_enter_bitmask (st : State) (e : eff) :
  0 <= effectTrackDepth st < maxMarkerBits ->
  active (effects st e) = true ->
  effect_wf st e ->
  markers_clear (shl1 (effectTrackDepth st + 1)) st ->
  bitmask_inv e (shl1 (effectTrackDepth st + 1)) st (deps (effects st e)) []
              (run_enter st e) /\
  parent (effects (run_enter st e) e) = activeEffect st /\
  deferStop (effects (run_enter st e) e) = deferStop (effects st e) /\
  effectTrackDepth (run_enter st e) = effectTrackDepth st + 1.
Proof.
  intros Hdepth Hact [Hnd Hmir] Hclear. unfold maxMarkerBits in Hdepth.
  set (bit := shl1 (effectTrackDepth st + 1)) in *.
  assert (Hbit : 0 < bit) by (apply shl1_pos; lia).
  unfold run_enter. cbn [effectTrackDepth upd_effect set_effects].
  assert (Hle : (effectTrackDepth st + 1 <=? maxMarkerBits) = true)
    by (apply Z.leb_le; unfold maxMarkerBits; lia).
  rewrite Hle. unfold initDepMarkers.
  cbn [effects upd_effect set_effects]. rewrite Nat.eqb_refl.
  cbn [deps set_parent].
  match goal with
  | |- context [fold_left _ _ ?s2] => set (st2 := s2)
  end.
  destruct (@fold_upd_dep_spec (fun b d => set_w (Z.lor (w d) b) d)
              (deps (effects st e)) st2 Hnd) as (H1 & H2 & H3 & H4 & H5 & H6).
  cbv beta in H1, H2, H3, H4, H5, H6.
  set (s' := fold_left _ _ st2) in *.
  assert (He : effects s' e = set_parent (activeEffect st) (effects st e)).
  { rewrite H2. simpl. now rewrite Nat.eqb_refl. }
  split; [|rewrite He; split; [reflexivity|]; split; [reflexivity | exact H5]].
  unfold bitmask_inv. rewrite He, H3, H4, H5, H6.
  split; [reflexivity|]. split; [reflexivity|]. split; [exact Hle|].
  split; [reflexivity|]. split; [exact Hact|]. split; [exact Hnd|].
  split; [simpl; tauto|]. split; [|split].
  - intros r [Hr|[]]. rewrite H1.
    destruct (in_dec dep_ref_eq_dec r (deps (effects st e))); [|contradiction].
    pose proof (mirrored_dep_exists r Hmir Hr) as Hex.
    change (dep_at st2 r) with (dep_at st r).
    destruct (dep_at st r); [discriminate | congruence].
  - intros r d Hd. rewrite H1 in Hd. change (dep_at st2 r) with (dep_at st r) in Hd.
    change (trackOpBit st2) with bit in Hd.
    pose proof (Hmir r) as Hm. unfold dep_has in Hm.
    destruct (in_dec dep_ref_eq_dec r (deps (effects st e))) as [Hin|Hin].
    + destruct (dep_at st r) as [d0|] eqn:Hd0; [|discriminate].
      simpl in Hd. injection Hd as <-.
      destruct (Hclear r d0 Hd0) as [_ Cn].
      unfold wasTracked, newTracked. simpl. rewrite land_lor_same, Cn.
      split; [split; [auto | intros _; now apply Z.gtb_lt]|].
      split; [split; [discriminate | intros []]|].
      rewrite Hm. tauto.
    + destruct (Hclear r d Hd) as [Cw Cn].
      unfold wasTracked, newTracked. rewrite Cw, Cn. rewrite Hd in Hm.
      split; [split; [discriminate | contradiction]|].
      split; [split; [discriminate | intros []]|].
      rewrite Hm. simpl. tauto.
  - intros r e' He'. unfold dep_has. rewrite H1.
    change (dep_at st2 r) with (dep_at st r).
    destruct (in_dec dep_ref_eq_dec r (deps (effects st e))); [|reflexivity].
    destruct (dep_at st r); reflexivity.
Qed.

Lemma finalize_bitmask (e : eff) (bit : Z) (st0 : State)
    (old done : list dep_ref) (s : State) :
  0 < bit ->
  bitmask_inv e bit st0 old done s ->
  let s' := finalizeDepMarkers s e in
  (forall r, dep_has s' r e = true <-> In r done) /\
  effect_wf s' e /\
  markers_clear bit s' /\
  (forall r e', e' <> e -> dep_has s' r e' = dep_has st0 r e') /\
  parent (effects s' e) = parent (effects s e) /\
  deferStop (effects s' e) = deferStop (effects s e) /\
  active (effects s' e) = true /\
  activeEffect s' = activeEffect s /\
  effectTrackDepth s' = effectTrackDepth s.
Proof.
  intros Hbit (A1 & A2 & A3 & A4 & A5 & A6 & A7 & A8 & A9 & A10).
  unfold finalizeDepMarkers.
  destruct (@finalize_loop_spec e (deps (effects s e)) [] s A6)
    as (H1 & H2 & H3 & H4 & H5 & H6 & H7).
  { intros r Hr. apply A8. now apply A7. }
  rewrite A4 in H1, H2.
  destruct (finalize_loop e (deps (effects s e)) [] s) as [s1 kept].
  simpl in H1, H2, H3, H4, H5, H6, H7. cbv zeta.
  assert (He : effects (upd_effect s1 e (set_deps kept)) e
               = set_deps kept (effects s e)).
  { rewrite effects_upd_effect_same. now rewrite H3. }
  assert (Hkept : forall r, In r kept <-> In r done).
  { intros r. rewrite H2. simpl. rewrite filter_In, A7. unfold kept_dep, stale.
    split.
    - intros [Hin Hk]. destruct (dep_at s r) as [d|] eqn:Hd.
      + destruct (A9 r d Hd) as (W & N & _).
        destruct (newTracked bit d); [now apply N|].
        destruct (wasTracked bit d); [discriminate|].
        destruct Hin as [Hin|Hin]; [apply W in Hin; discriminate | assumption].
      + exfalso. now apply (A8 r).
    - intros Hr. split; [now right|].
      destruct (dep_at s r) as [d|] eqn:Hd; [|reflexivity].
      destruct (A9 r d Hd) as (_ & N & _). apply N in Hr. rewrite Hr.
      now rewrite andb_false_r. }
  assert (Hhas : forall r, dep_has s1 r e = true <-> In r done).
  { intros r. unfold dep_has. rewrite H1.
    destruct (dep_at s r) as [d|] eqn:Hd.
    - destruct (A9 r d Hd) as (W & N & M).
      destruct (in_dec dep_ref_eq_dec r (deps (effects s e))) as [Hin|Hin]; simpl.
      + unfold stale. destruct (wasTracked bit d), (newTracked bit d); simpl;
          try rewrite set_has_set_delete, Nat.eqb_refl; simpl;
          intuition discriminate.
      + rewrite A7 in Hin. rewrite M. tauto.
    - destruct (in_dec dep_ref_eq_dec r (deps (effects s e))); simpl;
        (split; [discriminate|]); intros Hr; exfalso; apply (A8 r); auto. }
  split; [exact Hhas|]. split; [|split; [|split]].
  - split.
    + rewrite He. simpl. rewrite H2. simpl. now apply NoDup_filter.
    + intros r. change (dep_has (upd_effect s1 e (set_deps kept)) r e)
        with (dep_has s1 r e).
      rewrite Hhas, He. simpl. symmetry. apply Hkept.
  - intros r d Hd. change (dep_at s1 r = Some d) in Hd. rewrite H1 in Hd.
    destruct (in_dec dep_ref_eq_dec r (deps (effects s e))) as [Hin|Hin].
    + destruct (dep_at s r) as [d0|]; [|discriminate]. simpl in Hd.
      injection Hd as <-. simpl. now rewrite !land_clear_same.
    + destruct (A9 r d Hd) as (W & N & _). rewrite A7 in Hin.
      split; apply tracked_false_clear; try assumption.
      * destruct (wasTracked bit d) eqn:E; [|assumption]. exfalso. tauto.
      * destruct (newTracked bit d) eqn:E; [|assumption]. exfalso. tauto.
  - intros r e' He'. change (dep_has s1 r e' = dep_has st0 r e').
    rewrite <- A10 by assumption. unfold dep_has. rewrite H1.
    destruct (in_dec dep_ref_eq_dec r (deps (effects s e))); [|reflexivity].
    destruct (dep_at s r) as [d|]; [|reflexivity]. simpl.
    destruct (stale bit d); [|reflexivity].
    rewrite set_has_set_delete. apply Nat.eqb_neq in He'. now rewrite He'.
  - rewrite He. simpl. repeat split; assumption.
Qed.

(* ===================================================================== *)
(** ** cleanupEffect and stop                                             *)
(* ===================================================================== *)

Lemma cleanupEffect_spec (st : State) (e : eff) :
  effect_wf st e ->
  let s' := cleanupEffect st e in
  (forall r, dep_has s' r e = false) /\
  effects s' e = set_deps [] (effects st e) /\
  (forall x, x <> e -> effects s' x = effects st x) /\
  (forall r e', e' <> e -> dep_has s' r e' = dep_has st r e') /\
  (forall r d', dep_at s' r = Some d' ->
     exists d, dep_at st r = Some d /\ w d' = w d /\ n d' = n d) /\
  activeEffect s' = activeEffect st /\
  shouldTrack s' = shouldTrack st /\
  effectTrackDepth s' = effectTrackDepth st /\
  trackOpBit s' = trackOpBit st.
Proof.
  intros [Hnd Hmir]. unfold cleanupEffect.
  destruct (@fold_upd_dep_spec
              (fun _ d => set_members (set_delete e (members d)) d)
              (deps (effects st e)) st Hnd) as (H1 & H2 & H3 & H4 & H5 & H6).
  cbv beta in H1, H2, H3, H4, H5, H6. cbv zeta.
  set (s1 := fold_left _ _ st) in *.
  split; [|split; [|split; [|split; [|split]]]].
  - intros r. change (dep_has s1 r e = false). unfold dep_has. rewrite H1.
    destruct (in_dec dep_ref_eq_dec r (deps (effects st e))) as [Hin|Hin].
    + destruct (dep_at st r); simpl; [|reflexivity].
      now rewrite set_has_set_delete, Nat.eqb_refl.
    + apply not_true_iff_false. intros Hh. apply Hin, Hmir. exact Hh.
  - rewrite effects_upd_effect_same. now rewrite H2.
  - intros x Hx. rewrite effects_upd_effect_other by assumption. now rewrite H2.
  - intros r e' He'. change (dep_has s1 r e' = dep_has st r e').
    unfold dep_has. rewrite H1.
    destruct (in_dec dep_ref_eq_dec r (deps (effects st e))); [|reflexivity].
    destruct (dep_at st r); simpl; [|reflexivity].
    rewrite set_has_set_delete. apply Nat.eqb_neq in He'. now rewrite He'.
  - intros r d' Hd'. change (dep_at s1 r = Some d') in Hd'. rewrite H1 in Hd'.
    destruct (in_dec dep_ref_eq_dec r (deps (effects st e))).
    + destruct (dep_at st r) as [d|]; [|discriminate]. simpl in Hd'.
      injection Hd' as <-. exists d. repeat split.
    + exists d'. repeat split. assumption.
  - repeat split; assumption.
Qed.

Lemma stop_outside (defs : eff -> EffectDef) (st : State) (e : eff) :
  activeEffect st <> Some e ->
  active (effects st e) = true ->
  effect_wf st e ->
  exists s',
    stop defs st e = (s', if onStop (defs e) then [EvOnStop e] else []) /\
    (forall r, dep_has s' r e = false) /\
    deps (effects s' e) = [] /\
    active (effects s' e) = false /\
    parent (effects s' e) = parent (effects st e) /\
    (forall r e', e' <> e -> dep_has s' r e' = dep_has st r e') /\
    activeEffect s' = activeEffect st /\
    shouldTrack s' = shouldTrack st /\
    effectTrackDepth s' = effectTrackDepth st /\
    trackOpBit s' = trackOpBit st.
Proof.
  intros Hne Hact Hwf. unfold stop.
  assert (E : opt_eff_eqb (activeEffect st) e = false).
  { unfold opt_eff_eqb. destruct (activeEffect st) as [a|]; [|reflexivity].
    apply Nat.eqb_neq. congruence. }
  rewrite E, Hact.
  destruct (cleanupEffect_spec Hwf) as (C1 & C2 & C3 & C4 & C5 & C6 & C7 & C8 & C9).
  eexists. split; [reflexivity|].
  rewrite effects_upd_effect_same, C2. simpl.
  repeat split; assumption.
Qed.

Lemma chain_has_not_active (fuel : nat) (st : State) (e : eff) :
  chain_has fuel st (activeEffect st) e = Some false ->
  activeEffect st <> Some e.
Proof.
  intros H Ha. rewrite Ha in H. destruct fuel; simpl in H;
    rewrite Nat.eqb_refl in H; discriminate.
Qed.

(* ===================================================================== *)
(** ** ReactiveEffect.run on a computation of reads                       *)
(* ===================================================================== *)

Section RunSpecs.
Variable defs : eff -> EffectDef.
Variable StringToNumber : string -> number.
Variable ObjectToNumber : nat -> option number.
Variable numeral_roundtrips : Z -> bool.

Local Abbreviation run_ :=
  (run defs StringToNumber ObjectToNumber numeral_roundtrips).

Lemma run_bitmask_spec (f : nat) (st : State) (e : eff) :
  Forall (reads_or_stops e) (fn (defs e)) ->
  active (effects st e) = true ->
  deferStop (effects st e) = false ->
  chain_has f st (activeEffect st) e = Some false ->
  0 <= effectTrackDepth st < maxMarkerBits ->
  effect_wf st e ->
  markers_clear (shl1 (effectTrackDepth st + 1)) st ->
  exists st' evs,
    run_ (S f) st e = Some (st', EvFn e :: evs, false) /\
    (forall r e', e' <> e -> dep_has st' r e' = dep_has st r e') /\
    activeEffect st' = activeEffect st /\
    shouldTrack st' = shouldTrack st /\
    effectTrackDepth st' = effectTrackDepth st /\
    parent (effects st' e) = None /\
    if existsb is_stop (fn (defs e)) then
      evs = (if onStop (defs e) then [EvOnStop e] else []) /\
      (forall r, dep_has st' r e = false) /\
      deps (effects st' e) = [] /\
      active (effects st' e) = false
    else
      evs = [] /\
      (forall r, dep_has st' r e = true <-> In r (body_reads (fn (defs e)))) /\
      active (effects st' e) = true /\
      effect_wf st' e /\
      markers_clear (shl1 (effectTrackDepth st + 1)) st'.
Proof.
  intros Hbody Hact Hdefer Hchain Hdepth Hwf Hclear.
  set (bit := shl1 (effectTrackDepth st + 1)) in *.
  assert (Hbit : 0 < bit) by (apply shl1_pos; unfold maxMarkerBits in Hdepth; lia).
  destruct (run_enter_bitmask Hdepth Hact Hwf Hclear) as (Hinv & Hpar & Hdef & Hd1).
  fold bit in Hinv.
  destruct (@exec_body_bitmask defs StringToNumber ObjectToNumber
              numeral_roundtrips (run_ f) e bit st (deps (effects st e))
              (fn (defs e)) Hbit Hbody [] (run_enter st e) Hinv)
    as (s1 & Hexec & Hinv1 & Hpar1 & Hdef1 & Hdep1).
  simpl app in Hinv1.
  rewrite Hpar in Hpar1. rewrite Hdef, Hdefer in Hdef1. simpl in Hdef1.
  rewrite Hd1 in Hdep1.
  destruct (finalize_bitmask Hbit Hinv1)
    as (F1 & F2 & F3 & F4 & F5 & F6 & F7 & F8 & F9).
  simpl run. rewrite Hact, Hchain. simpl negb. cbv iota. rewrite Hexec.
  unfold run_exit.
  assert (Hle : (effectTrackDepth s1 <=? maxMarkerBits) = true) by apply Hinv1.
  rewrite Hle.
  set (sF := finalizeDepMarkers s1 e) in *.
  match goal with
  | |- context [upd_effect ?s2 e (set_parent None)] =>
      set (s3 := upd_effect s2 e (set_parent None))
  end.
  assert (He3 : effects s3 e = set_parent None (effects sF e)).
  { unfold s3. now rewrite effects_upd_effect_same. }
  assert (Hwf3 : effect_wf s3 e).
  { destruct F2 as [N M]. split.
    - rewrite He3. exact N.
    - intros r. change (dep_has s3 r e) with (dep_has sF r e).
      rewrite He3. apply M. }
  assert (Ha3 : activeEffect s3 = activeEffect st).
  { unfold s3. simpl. congruence. }
  assert (Hfr3 : forall r e', e' <> e -> dep_has s3 r e' = dep_has st r e').
  { intros r e' He'. change (dep_has s3 r e') with (dep_has sF r e').
    now apply F4. }
  assert (Hdp3 : effectTrackDepth s3 = effectTrackDepth st).
  { unfold s3. simpl. rewrite F9, Hdep1. lia. }
  rewrite He3. cbn [deferStop set_parent]. rewrite F6, Hdef1.
  destruct (existsb is_stop (fn (defs e))) eqn:Hstop.
  - destruct (@stop_outside defs s3 e) as (s4 & E4 & S1 & S2 & S3 & S4 & S5 & S6 & S7 & S8 & S9).
    { rewrite Ha3. eapply chain_has_not_active; eassumption. }
    { rewrite He3. exact F7. }
    { exact Hwf3. }
    rewrite E4. exists s4. eexists. split; [reflexivity|].
    split; [intros r e' He'; rewrite S5 by assumption; now apply Hfr3|].
    split; [congruence|]. split; [rewrite S7; reflexivity|].
    split; [congruence|]. split; [rewrite S4, He3; reflexivity|].
    rewrite app_nil_l. repeat split; assumption.
  - exists s3. eexists. split; [reflexivity|].
    split; [exact Hfr3|]. split; [exact Ha3|]. split; [reflexivity|].
    split; [exact Hdp3|]. split; [rewrite He3; reflexivity|].
    split; [reflexivity|]. split; [exact F1|].
    split; [rewrite He3; exact F7|]. split; [exact Hwf3|]. exact F3.
Qed.
End RunSpecs.

(* ===================================================================== *)
(** ** A run past the marker bits: full cleanup                           *)
(* ===================================================================== *)

Lemma track_fullcleanup_inv (e : eff) (st0 : State) (done : list dep_ref)
    (s : State) (t : nat) (k : key) :
  fullcleanup_inv e st0 done s ->
  fullcleanup_inv e st0 (done ++ [(t, k)]) (track s t k).
Proof.
  intros (A1 & A2 & A3 & A4 & A5 & A6 & A7 & A8).
  assert (Hin : forall r', In r' (done ++ [(t, k)]) <-> In r' done \/ r' = (t, k)).
  { intros r'. rewrite in_app_iff. simpl. intuition congruence. }
  unfold track. rewrite A1, A2. simpl.
  set (s1 := ensure_dep s t k).
  assert (Hd : exists d, dep_at s1 (t, k) = Some d).
  { unfold s1. rewrite dep_at_ensure_dep.
    destruct (dep_ref_eqb_spec (t, k) (t, k)); [eauto | congruence]. }
  destruct Hd as [d Hd].
  assert (Hh1 : forall r x, dep_has s1 r x = dep_has s r x)
    by (intros; apply dep_has_ensure_dep).
  unfold trackEffects. change (activeEffect s1) with (activeEffect s).
  change (effectTrackDepth s1) with (effectTrackDepth s).
  rewrite A1, Hd, A3.
  assert (Hm : set_has e (members d) = dep_has s (t, k) e).
  { rewrite <- Hh1. unfold dep_has. now rewrite Hd. }
  destruct (set_has e (members d)) eqn:Hhas; simpl.
  - assert (Hr : In (t, k) done) by (apply A7; congruence).
    do 4 (split; [assumption|]). split; [assumption|]. split; [|split].
    + intros r. rewrite Hin. change (effects s1) with (effects s).
      rewrite A6. intuition (subst; auto).
    + intros r. rewrite Hh1, A7, Hin. intuition (subst; auto).
    + intros r e' He'. rewrite Hh1. now apply A8.
  - assert (Hr : ~ In (t, k) done) by (rewrite <- A7; congruence).
    split; [assumption|]. split; [assumption|]. split; [assumption|].
    rewrite effects_upd_effect_same. change (effects s1 e) with (effects s e).
    split; [assumption|]. split; [|split; [|split]].
    + simpl. apply NoDup_app; [assumption | repeat constructor; simpl; tauto |].
      intros x Hx [<-|[]]. apply A6 in Hx. contradiction.
    + intros r. simpl. rewrite in_app_iff, A6, Hin. simpl. intuition (subst; auto).
    + intros r. rewrite dep_has_upd_effect, Hin. unfold dep_has.
      destruct (dep_ref_eq_dec r (t, k)) as [->|Hne].
      * rewrite dep_at_upd_dep_same, Hd. simpl.
        rewrite set_has_set_add, Nat.eqb_refl. simpl. tauto.
      * rewrite dep_at_upd_dep_other by assumption.
        fold (dep_has s1 r e). rewrite Hh1, A7. intuition congruence.
    + intros r e' He'. rewrite dep_has_upd_effect, dep_has_upd_dep.
      * rewrite Hh1. now apply A8.
      * intros d0. simpl. rewrite set_has_set_add.
        apply Nat.eqb_neq in He'. now rewrite He'.
Qed.

Lemma stop_self_fullcleanup_inv (e : eff) (st0 : State) (done : list dep_ref)
    (s : State) :
  fullcleanup_inv e st0 done s ->
  fullcleanup_inv e st0 done (upd_effect s e (set_deferStop true)).
Proof.
  intros (A1 & A2 & A3 & A4 & A5 & A6 & A7 & A8).
  unfold fullcleanup_inv. rewrite effects_upd_effect_same.
  repeat (split; [assumption|]). assumption.
Qed.

Lemma run_enter_fullcleanup (st : State) (e : eff) :
  maxMarkerBits <= effectTrackDepth st ->
  active (effects st e) = true ->
  effect_wf st e ->
  fullcleanup_inv e st [] (run_enter st e) /\
  parent (effects (run_enter st e) e) = activeEffect st /\
  deferStop (effects (run_enter st e) e) = deferStop (effects st e) /\
  effectTrackDepth (run_enter st e) = effectTrackDepth st + 1.
Proof.
  intros Hdepth Hact [Hnd Hmir]. unfold run_enter.
  cbn [effectTrackDepth upd_effect set_effects].
  assert (Hgt : (effectTrackDepth st + 1 <=? maxMarkerBits) = false)
    by (apply Z.leb_gt; lia).
  rewrite Hgt.
  match goal with
  | |- context [cleanupEffect ?s2 e] => set (st2 := s2)
  end.
  assert (He2 : effects st2 e = set_parent (activeEffect st) (effects st e)).
  { unfold st2. simpl. now rewrite Nat.eqb_refl. }
  assert (Hwf2 : effect_wf st2 e).
  { split; [rewrite He2; exact Hnd|].
    intros r. change (dep_has st2 r e) with (dep_has st r e). rewrite He2. apply Hmir. }
  destruct (cleanupEffect_spec Hwf2) as (C1 & C2 & C3 & C4 & C5 & C6 & C7 & C8 & C9).
  rewrite C2, He2. simpl.
  split; [|repeat split; assumption].
  unfold fullcleanup_inv. rewrite C2, He2, C6, C7, C8. simpl.
  split; [reflexivity|]. split; [reflexivity|]. split; [exact Hgt|].
  split; [exact Hact|]. split; [constructor|]. split; [tauto|]. split.
  - intros r. rewrite C1. split; [discriminate | intros []].
  - intros r e' He'. rewrite C4 by assumption. reflexivity.
Qed.

Section DeepRunSpecs.
Variable defs : eff -> EffectDef.
Variable StringToNumber : string -> number.
Variable ObjectToNumber : nat -> option number.
Variable numeral_roundtrips : Z -> bool.

Local Abbreviation run_ :=
  (run defs StringToNumber ObjectToNumber numeral_roundtrips).

Lemma exec_body_fullcleanup (run' : State -> eff -> result) (e : eff)
    (st0 : State) (ops : list op) :
  Forall (reads_or_stops e) ops ->
  forall (done : list dep_ref) (s : State),
    fullcleanup_inv e st0 done s ->
    exists s',
      exec_ops defs StringToNumber ObjectToNumber numeral_roundtrips run' s ops
      = Some (s', [], false) /\
      fullcleanup_inv e st0 (done ++ body_reads ops) s' /\
      parent (effects s' e) = parent (effects s e) /\
      deferStop (effects s' e) = deferStop (effects s e) || existsb is_stop ops /\
      effectTrackDepth s' = effectTrackDepth s.
Proof.
  intros Hops. induction Hops as [|o ops Ho Hops IH]; intros done s Hinv.
  - exists s. simpl. rewrite app_nil_r, orb_false_r.
    split; [reflexivity|]. split; [assumption|]. repeat split; reflexivity.
  - destruct o as [t k|e'| |]; simpl in Ho; try contradiction.
    + destruct (IH (done ++ [(t, k)]) (track s t k)) as (s' & E & I & P & D & T);
        [now apply track_fullcleanup_inv|].
      exists s'. simpl. rewrite E.
      destruct (track_keeps s t k e) as (P1 & D1 & _).
      rewrite <- app_assoc in I. simpl in I. rewrite track_depth in T.
      split; [reflexivity|]. split; [assumption|]. repeat split; congruence.
    + subst e'.
      assert (Ha : activeEffect s = Some e) by apply Hinv.
      destruct (IH done (upd_effect s e (set_deferStop true)))
        as (s' & E & I & P & D & T); [now apply stop_self_fullcleanup_inv|].
      exists s'. simpl. rewrite (stop_self defs s Ha), E.
      rewrite effects_upd_effect_same in P, D. simpl in P, D.
      split; [reflexivity|]. split; [assumption|]. split; [assumption|].
      split; [|exact T].
      rewrite D. simpl. now rewrite orb_true_r.
Qed.

Lemma run_fullcleanup_spec (f : nat) (st : State) (e : eff) :
  Forall (reads_or_stops e) (fn (defs e)) ->
  active (effects st e) = true ->
  deferStop (effects st e) = false ->
  chain_has f st (activeEffect st) e = Some false ->
  maxMarkerBits <= effectTrackDepth st ->
  effect_wf st e ->
  exists st' evs,
    run_ (S f) st e = Some (st', EvFn e :: evs, false) /\
    (forall r e', e' <> e -> dep_has st' r e' = dep_has st r e') /\
    activeEffect st' = activeEffect st /\
    shouldTrack st' = shouldTrack st /\
    effectTrackDepth st' = effectTrackDepth st /\
    parent (effects st' e) = None /\
    if existsb is_stop (fn (defs e)) then
      evs = (if onStop (defs e) then [EvOnStop e] else []) /\
      (forall r, dep_has st' r e = false) /\
      deps (effects st' e) = [] /\
      active (effects st' e) = false
    else
      evs = [] /\
      (forall r, dep_has st' r e = true <-> In r (body_reads (fn (defs e)))) /\
      active (effects st' e) = true /\
      effect_wf st' e.
Proof.
  intros Hbody Hact Hdefer Hchain Hdepth Hwf.
  destruct (run_enter_fullcleanup Hdepth Hact Hwf) as (Hinv & Hpar & Hdef & Hd1).
  destruct (@exec_body_fullcleanup (run_ f) e st (fn (defs e)) Hbody []
              (run_enter st e) Hinv)
    as (s1 & Hexec & Hinv1 & Hpar1 & Hdef1 & Hdep1).
  simpl app in Hinv1.
  rewrite Hpar in Hpar1. rewrite Hdef, Hdefer in Hdef1. simpl in Hdef1.
  rewrite Hd1 in Hdep1.
  destruct Hinv1 as (A1 & A2 & A3 & A4 & A5 & A6 & A7 & A8).
  simpl run. rewrite Hact, Hchain. simpl negb. cbv iota. rewrite Hexec.
  unfold run_exit. rewrite A3.
  match goal with
  | |- context [upd_effect ?s2 e (set_parent None)] =>
      set (s3 := upd_effect s2 e (set_parent None))
  end.
  assert (He3 : effects s3 e = set_parent None (effects s1 e)).
  { unfold s3. now rewrite effects_upd_effect_same. }
  assert (Hwf3 : effect_wf s3 e).
  { split.
    - rewrite He3. exact A5.
    - intros r. change (dep_has s3 r e) with (dep_has s1 r e).
      rewrite He3. simpl. rewrite A7. symmetry. apply A6. }
  assert (Ha3 : activeEffect s3 = activeEffect st).
  { unfold s3. simpl. congruence. }
  assert (Hfr3 : forall r e', e' <> e -> dep_has s3 r e' = dep_has st r e').
  { intros r e' He'. change (dep_has s3 r e') with (dep_has s1 r e').
    now apply A8. }
  assert (Hdp3 : effectTrackDepth s3 = effectTrackDepth st).
  { unfold s3. simpl. rewrite Hdep1. lia. }
  rewrite He3. cbn [deferStop set_parent]. rewrite Hdef1.
  destruct (existsb is_stop (fn (defs e))) eqn:Hstop.
  - destruct (@stop_outside defs s3 e)
      as (s4 & E4 & S1 & S2 & S3 & S4 & S5 & S6 & S7 & S8 & S9).
    { rewrite Ha3. eapply chain_has_not_active; eassumption. }
    { rewrite He3. exact A4. }
    { exact Hwf3. }
    rewrite E4. exists s4. eexists. split; [reflexivity|].
    split; [intros r e' He'; rewrite S5 by assumption; now apply Hfr3|].
    split; [congruence|]. split; [rewrite S7; reflexivity|].
    split; [congruence|]. split; [rewrite S4, He3; reflexivity|].
    rewrite app_nil_l. repeat split; assumption.
  - exists s3. eexists. split; [reflexivity|].
    split; [exact Hfr3|]. split; [exact Ha3|]. split; [reflexivity|].
    split; [exact Hdp3|]. split; [rewrite He3; reflexivity|].
    split; [reflexivity|]. split; [exact A7|].
    split; [rewrite He3; exact A4|]. exact Hwf3.
Qed.
End DeepRunSpecs.

(* ===================================================================== *)
(** ** The claims on runs and stops                                       *)
(* ===================================================================== *)

Lemma reads_body_facts (e : eff) (reads : list dep_ref) :
  Forall (reads_or_stops e) (reads_body reads) /\
  existsb is_stop (reads_body reads) = false /\
  body_reads (reads_body reads) = reads.
Proof.
  induction reads as [|[t k] l (IH1 & IH2 & IH3)]; simpl.
  - repeat split. constructor.
  - repeat split; [constructor; [exact I | exact IH1] | exact IH2 | now rewrite IH3].
Qed.


Lemma on_chain_fuel (st : State) (p : option eff) (e : eff) :
  on_chain st p e ->
  exists n, forall f, (n <= f)%nat -> chain_has f st p e = Some true.
Proof.
  induction 1 as [e|q e H [n IH]].
  - exists 0%nat. intros [|f] _; simpl; now rewrite Nat.eqb_refl.
  - exists (S n). intros [|f] Hf; [lia|]. simpl.
    destruct (Nat.eqb q e); [reflexivity | apply IH; lia].
Qed.

Lemma In_triggerEffects_order (defs : eff -> EffectDef) (x : eff) (l : list eff) :
  In x (triggerEffects_order defs l) <-> In x l.
Proof.
  unfold triggerEffects_order. rewrite in_app_iff, !filter_In.
  destruct (computed (defs x)); simpl; intuition discriminate.
Qed.

Section RunClaims.
Variable defs : eff -> EffectDef.
Variable StringToNumber : string -> number.
Variable ObjectToNumber : nat -> option number.
Variable numeral_roundtrips : Z -> bool.

Local Abbreviation run_ :=
  (run defs StringToNumber ObjectToNumber numeral_roundtrips).

(** What a run subscribes to when the marker bit of its depth is clear on
    every dep and [deps] of the effect mirrors the deps (which fails once
    a running effect has been stopped by a nested one): at a nesting
    depth within the marker bits, when a run of the effect [e] whose
    computation reads the slots [reads] completes, [e] is in the dep of a
    slot exactly if the run read that slot; so a slot read by the run
    before and not by this one has lost [e], and a later write to it does
    not call [e].  The run leaves the bookkeeping of [e] and the marker
    bit as it found them. *)
Theorem run_tracks_exactly_reads
    (f : nat) (st : State) (e : eff) (reads : list dep_ref) :
  fn (defs e) = reads_body reads ->
  active (effects st e) = true ->
  deferStop (effects st e) = false ->
  chain_has f st (activeEffect st) e = Some false ->
  0 <= effectTrackDepth st < maxMarkerBits ->
  effect_wf st e ->
  markers_clear (shl1 (effectTrackDepth st + 1)) st ->
  exists st',
    run_ (S f) st e = Some (st', [EvFn e], false) /\
    (forall r, dep_has st' r e = true <-> In r reads) /\
    (forall t k tk newValue calls,
       ~ In (t, k) reads ->
       kind_isMap tk = false ->
       kind_isArray tk = false \/ k <> length_key ->
       trigger_calls defs StringToNumber ObjectToNumber numeral_roundtrips
         st' t tk SET (Some k) newValue = Ok calls ->
       ~ In e calls) /\
    effect_wf st' e /\
    markers_clear (shl1 (effectTrackDepth st + 1)) st' /\
    effectTrackDepth st' = effectTrackDepth st.
Proof.
  intros Hfn Hact Hdefer Hchain Hdepth Hwf Hclear.
  destruct (reads_body_facts e reads) as (B1 & B2 & B3).
  rewrite <- Hfn in B1, B2, B3.
  destruct (@run_bitmask_spec defs StringToNumber ObjectToNumber
              numeral_roundtrips f st e B1 Hact Hdefer Hchain Hdepth Hwf Hclear)
    as (st' & evs & Hrun & _ & _ & _ & Hd & _ & Hcase).
  rewrite B2, B3 in Hcase. destruct Hcase as (-> & Hiff & _ & Hwf' & Hclear').
  exists st'. split; [exact Hrun|]. split; [exact Hiff|].
  split; [|split; [exact Hwf' | split; [exact Hclear' | exact Hd]]].
  intros t k tk newValue calls Hnot Hmap Harr Hcalls Hin.
  apply Hnot, Hiff. unfold dep_has, dep_at. simpl.
  unfold trigger_calls in Hcalls.
  destruct (targetMap st' t) as [depsMap|]; [|injection Hcalls as <-; contradiction].
  unfold trigger_select in Hcalls. rewrite Hmap in Hcalls.
  assert (E : (key_eqb k length_key && kind_isArray tk) = false).
  { destruct Harr as [->|Hk]; [apply andb_false_r|].
    apply key_eqb_neq in Hk. now rewrite Hk. }
  rewrite E in Hcalls. simpl in Hcalls. injection Hcalls as <-.
  apply In_triggerEffects_order in Hin. simpl in Hin.
  destruct (map_get k depsMap) as [d|]; [|contradiction].
  now apply set_has_In.
Qed.

End RunClaims.

Section StopClaims.
Variable defs : eff -> EffectDef.
Variable StringToNumber : string -> number.
Variable ObjectToNumber : nat -> option number.
Variable numeral_roundtrips : Z -> bool.

Local Abbreviation run_ :=
  (run defs StringToNumber ObjectToNumber numeral_roundtrips).


(** C8, for an active effect: if [e] is active and is met on the chain
    of parents of the running effect when [run] is called on it, the
    call returns at once: the computation is not started and the state
    is the one before the call. *)
Theorem run_nested_in_itself_is_skipped (st : State) (e : eff) :
  active (effects st e) = true ->
  on_chain st (activeEffect st) e ->
  exists n, forall f, (n <= f)%nat -> run_ (S f) st e = Some (st, [], false).
Proof.
  intros Hact Hchain. destruct (on_chain_fuel Hchain) as [n Hn].
  exists n. intros f Hf. simpl. rewrite Hact, (Hn f Hf). reflexivity.
Qed.
End StopClaims.

(** *** The claims at the sample states *)

Lemma sample_state_wf0 : effect_wf sample_state 0%nat.
Proof.
  split.
  - simpl. repeat constructor; simpl; intuition discriminate.
  - intros [t k]. unfold dep_has, dep_at. simpl.
    destruct t as [|t]; simpl.
    + destruct (key_eqb_spec k (KStr "a")) as [->|Ha]; simpl; [tauto|].
      destruct (key_eqb_spec k (KStr "b")) as [->|Hb]; simpl; [tauto|].
      split; [discriminate|]. intros [H|[H|[]]]; congruence.
    + split; [discriminate|]. intros [H|[H|[]]]; discriminate.
Qed.

Lemma sample_state_clear (bit : Z) (d : Z) :
  markers_clear bit (at_depth d sample_state).
Proof.
  intros [t k] dep. unfold dep_at. simpl.
  destruct t as [|t]; simpl; [|discriminate].
  destruct (key_eqb k (KStr "a")); [intros H; injection H as <-; split; reflexivity|].
  destruct (key_eqb k (KStr "b")); [intros H; injection H as <-; split; reflexivity|].
  discriminate.
Qed.

Lemma run_tracks_exactly_reads_witness :
  fn (rerun_defs 0%nat) = reads_body [(0%nat, KStr "b")] /\
  active (effects sample_state 0%nat) = true /\
  deferStop (effects sample_state 0%nat) = false /\
  chain_has 0 sample_state (activeEffect sample_state) 0%nat = Some false /\
  0 <= effectTrackDepth sample_state < maxMarkerBits /\
  effect_wf sample_state 0%nat /\
  markers_clear (shl1 (effectTrackDepth sample_state + 1)) sample_state /\
  exists st',
    run rerun_defs sample_StringToNumber sample_ObjectToNumber sample_roundtrips
        1 sample_state 0%nat = Some (st', [EvFn 0%nat], false) /\
    dep_has st' (0%nat, KStr "a") 0%nat = false /\
    dep_has st' (0%nat, KStr "b") 0%nat = true.
Proof.
  assert (H1 : 0 <= effectTrackDepth sample_state < maxMarkerBits)
    by (simpl; unfold maxMarkerBits; lia).
  assert (H2 : markers_clear (shl1 (effectTrackDepth sample_state + 1)) sample_state)
    by exact (sample_state_clear _ 0).
  do 4 (split; [reflexivity|]). split; [exact H1|].
  split; [exact sample_state_wf0|]. split; [exact H2|].
  destruct (@run_tracks_exactly_reads rerun_defs sample_StringToNumber
              sample_ObjectToNumber sample_roundtrips 0 sample_state 0%nat
              [(0%nat, KStr "b")] eq_refl eq_refl eq_refl eq_refl H1
              sample_state_wf0 H2) as (st' & Hrun & Hiff & _).
  exists st'. split; [exact Hrun|]. split.
  - apply not_true_iff_false. intros H. apply Hiff in H.
    destruct H as [H|[]]; discriminate.
  - apply Hiff. now left.
Defined.



Lemma run_nested_in_itself_is_skipped_witness :
  active (effects (nested_state true) 0%nat) = true /\
  on_chain (nested_state true) (activeEffect (nested_state true)) 0%nat /\
  exists n, forall f, (n <= f)%nat ->
    run reentrant_defs sample_StringToNumber sample_ObjectToNumber
        sample_roundtrips (S f) (nested_state true) 0%nat
    = Some (nested_state true, [], false).
Proof.
  assert (H : on_chain (nested_state true) (activeEffect (nested_state true)) 0%nat).
  { simpl. apply on_chain_up. simpl. apply on_chain_here. }
  split; [reflexivity|]. split; [exact H|].
  exact (@run_nested_in_itself_is_skipped reentrant_defs sample_StringToNumber
           sample_ObjectToNumber sample_roundtrips (nested_state true) 0%nat
           eq_refl H).
Defined.

(** C8 as it is written fails for a stopped effect: effect 0 is inactive
    and is the parent of the running effect 1; [run] on it starts its
    computation, whose read subscribes effect 1. *)
Lemma run_nested_in_itself_when_stopped :
  on_chain (nested_state false) (activeEffect (nested_state false)) 0%nat /\
  dep_has (nested_state false) (0%nat, KStr "a") 1%nat = false /\
  exists st',
    run reentrant_defs sample_StringToNumber sample_ObjectToNumber
        sample_roundtrips 3 (nested_state false) 0%nat
    = Some (st', [EvFn 0%nat], false) /\
    dep_has st' (0%nat, KStr "a") 1%nat = true.
Proof.
  split; [simpl; apply on_chain_up; simpl; apply on_chain_here|].
  split; [reflexivity|].
  eexists. split; reflexivity.
Qed.

(** Such a state is reached from the initial one: effect 0 runs effect 1,
    which stops effect 0 and runs it again, and the computation of effect 0
    starts a second time inside its own run. *)
Example reentrant_run_from_initial_state :
  exists st',
    run reentrant_defs sample_StringToNumber sample_ObjectToNumber
        sample_roundtrips 6 initial_state 0%nat
    = Some (st', [EvFn 0%nat; EvFn 1%nat; EvFn 0%nat], false).
Proof. eexists. vm_compute. reflexivity. Qed.

(* ===================================================================== *)
(** ** The set and delete traps                                           *)
(* ===================================================================== *)

Lemma number_eqb_eq (a b : number) : number_eqb a b = true <-> a = b.
Proof.
  destruct a as [s|s| |s m e], b as [t|t| |t m' e']; simpl;
    try (split; [discriminate | congruence]); try tauto.
  - rewrite Bool.eqb_true_iff. split; congruence.
  - rewrite Bool.eqb_true_iff. split; congruence.
  - rewrite !andb_true_iff, Bool.eqb_true_iff, Pos.eqb_eq, Z.eqb_eq.
    split; [intros [[-> ->] ->]; reflexivity | intros H; injection H; auto].
Qed.

Lemma Object_is_eq (a b : value) : Object_is a b = true <-> a = b.
Proof.
  destruct a, b; simpl; try (split; [discriminate | congruence]); try tauto.
  - rewrite Bool.eqb_true_iff. split; congruence.
  - rewrite number_eqb_eq. split; congruence.
  - rewrite String.eqb_eq. split; congruence.
  - rewrite Nat.eqb_eq. split; congruence.
  - rewrite Nat.eqb_eq. split; congruence.
Qed.

Lemma hasChanged_neq (a b : value) : hasChanged a b = true <-> a <> b.
Proof.
  unfold hasChanged. rewrite negb_true_iff, <- Object_is_eq.
  destruct (Object_is a b); split; congruence.
Qed.

Section HandlerClaims.
Variable Heap : Type.
Variable isReadonly : Heap -> value -> bool.
Variable isShallow : Heap -> value -> bool.
Variable isRef : Heap -> value -> bool.
Variable toRaw : Heap -> value -> value.
Variable ref_assign : Heap -> value -> value -> Heap.
Variable get_prop : Heap -> nat -> key -> value.
Variable hasOwn : Heap -> nat -> key -> bool.
Variable isArray : Heap -> nat -> bool.
Variable array_length : Heap -> nat -> Z.
Variable Reflect_set : Heap -> nat -> key -> value -> value -> bool * Heap.
Variable symbol_description : nat -> string.
Variable __DEV__ : bool.
Variable numeral_roundtrips : Z -> bool.

Local Abbreviation setter :=
  (createSetter isReadonly isShallow isRef toRaw ref_assign get_prop hasOwn
                isArray array_length Reflect_set numeral_roundtrips).
Local Abbreviation had_key :=
  (hadKey hasOwn isArray array_length numeral_roundtrips).


(** C10: when the value held at the key is a read-only ref and the new
    value is not a ref, the set trap (shallow or not) returns false,
    leaves every object as it was and calls no [trigger]. *)
Theorem set_trap_refuses_readonly_ref
    (shallow : bool) (h : Heap) (target : nat) (k : key) (v receiver : value) :
  isReadonly h (get_prop h target k) = true ->
  isRef h (get_prop h target k) = true ->
  isRef h v = false ->
  setter shallow h target k v receiver = (false, h, []).
Proof.
  intros H1 H2 H3. unfold createSetter. rewrite H1, H2, H3. reflexivity.
Qed.

(** C7: the set trap and the delete trap of the read-only handlers
    return true, leave every object as it was, call no [trigger] and do
    not throw; what they do is warn, in a development build. *)
Theorem readonly_traps_warn_and_succeed
    (h : Heap) (target : nat) (k : key) (v receiver : value) :
  fst (fst (readonly_set symbol_description __DEV__ h target k v receiver)) = true /\
  snd (fst (readonly_set symbol_description __DEV__ h target k v receiver)) = h /\
  fst (fst (readonly_deleteProperty symbol_description __DEV__ h target k)) = true /\
  snd (fst (readonly_deleteProperty symbol_description __DEV__ h target k)) = h /\
  (forall ev,
     In ev (snd (readonly_set symbol_description __DEV__ h target k v receiver)
            ++ snd (readonly_deleteProperty symbol_description __DEV__ h target k)) ->
     exists msg, ev = CallWarn msg) /\
  (__DEV__ = true ->
   snd (readonly_set symbol_description __DEV__ h target k v receiver)
   = [CallWarn ("Set operation on key " ++ dquote
                ++ String_of_key symbol_description k ++ dquote
                ++ " failed: target is readonly.")] /\
   snd (readonly_deleteProperty symbol_description __DEV__ h target k)
   = [CallWarn ("Delete operation on key " ++ dquote
                ++ String_of_key symbol_description k ++ dquote
                ++ " failed: target is readonly.")]).
Proof.
  simpl. repeat split; try reflexivity.
  - intros ev Hev. destruct __DEV__; simpl in Hev;
      [destruct Hev as [<-|[<-|[]]]; eauto | contradiction].
  - rewrite H. reflexivity.
  - rewrite H. reflexivity.
Qed.
End HandlerClaims.


Example set_trap_nan_over_nan :
  simple_set false simple_heap 0%nat (KStr "total") (VNum NaN) (VObj 2)
  = (true, simple_store simple_heap 0%nat (KStr "total") (VNum NaN), []).
Proof. reflexivity. Qed.

Example set_trap_new_key :
  simple_set false simple_heap 0%nat (KStr "fresh") (VNum NaN) (VObj 2)
  = (true, simple_store simple_heap 0%nat (KStr "fresh") (VNum NaN),
     [CallTrigger 0%nat ADD (KStr "fresh") (VNum NaN) None]).
Proof. reflexivity. Qed.


Lemma set_trap_refuses_readonly_ref_witness :
  simple_isReadonly simple_heap (simple_get simple_heap 0%nat (KStr "locked")) = true /\
  simple_isRef simple_heap (simple_get simple_heap 0%nat (KStr "locked")) = true /\
  simple_isRef simple_heap (VNum (num_of_Z 7)) = false /\
  simple_set false simple_heap 0%nat (KStr "locked") (VNum (num_of_Z 7)) (VObj 2)
  = (false, simple_heap, []).
Proof.
  split; [reflexivity|]. split; [reflexivity|]. split; [reflexivity|].
  exact (@set_trap_refuses_readonly_ref SimpleHeap simple_isReadonly
           simple_isShallow simple_isRef simple_toRaw simple_ref_assign simple_get
           simple_hasOwn simple_isArray simple_length simple_Reflect_set
           sample_roundtrips false simple_heap 0%nat (KStr "locked")
           (VNum (num_of_Z 7)) (VObj 2) eq_refl eq_refl eq_refl).
Defined.

Example readonly_set_sample :
  readonly_set (fun _ => "tag"%string) true simple_heap 0%nat (KStr "count")
    (VNum (num_of_Z 2)) (VObj 2)
  = (true, simple_heap,
     [CallWarn ("Set operation on key " ++ dquote ++ "count" ++ dquote
                ++ " failed: target is readonly.")]).
Proof. reflexivity. Qed.

(* ===================================================================== *)
(** ** Further properties: the tracking flag and its stack                *)
(* ===================================================================== *)

Lemma resetTracking_pauseTracking (st : State) :
  resetTracking (pauseTracking st) = st.
Proof.
  destruct st. unfold resetTracking, pauseTracking. simpl.
  rewrite rev_app_distr. simpl. now rewrite rev_involutive.
Qed.

Lemma resetTracking_enableTracking (st : State) :
  resetTracking (enableTracking st) = st.
Proof.
  destruct st. unfold resetTracking, enableTracking. simpl.
  rewrite rev_app_distr. simpl. now rewrite rev_involutive.
Qed.

(** X1: Pauses nest: after any sequence of [pauseTracking] and
    [enableTracking] calls, as many [resetTracking] calls give back the
    state before the first of them, flag and stack included. *)
Theorem resetTracking_unwinds_nested (calls : list bool) (st : State) :
  Nat.iter (List.length calls) resetTracking
    (fold_left (fun s (enable : bool) =>
                  if enable then enableTracking s else pauseTracking s)
               calls st)
  = st.
Proof.
  revert st. induction calls as [|b l IH] using rev_ind; intros st; [reflexivity|].
  rewrite fold_left_app, List.length_app, Nat.add_comm. simpl List.length.
  simpl Nat.add. rewrite Nat.iter_succ_r. simpl fold_left.
  destruct b; [rewrite resetTracking_enableTracking
              | rewrite resetTracking_pauseTracking]; apply IH.
Qed.

(** With an empty stack, [resetTracking] turns tracking on. *)
Lemma resetTracking_empty_stack (st : State) :
  trackStack st = [] ->
  shouldTrack (resetTracking st) = true /\ trackStack (resetTracking st) = [].
Proof. intros H. unfold resetTracking. rewrite H. split; reflexivity. Qed.


Section PausedCalls.
Variable defs : eff -> EffectDef.
Variable StringToNumber : string -> number.
Variable ObjectToNumber : nat -> option number.
Variable numeral_roundtrips : Z -> bool.
Variable run' : State -> eff -> result.

End PausedCalls.

(* ===================================================================== *)
(** ** Further properties: what a run restores                            *)
(* ===================================================================== *)

Lemma same_frame_refl (st : State) : same_frame st st.
Proof. repeat split. Qed.

Lemma same_frame_trans (a b c : State) :
  same_frame a b -> same_frame b c -> same_frame a c.
Proof.
  intros (A1 & A2 & A3 & A4 & A5) (B1 & B2 & B3 & B4 & B5).
  repeat split; try congruence.
Qed.

Lemma same_frame_upd_dep (st : State) (r : dep_ref) (f : Dep -> Dep) :
  same_frame st (upd_dep st r f).
Proof. repeat split. Qed.

Lemma same_frame_fold_upd_dep (F : State -> dep_ref -> Dep -> Dep)
    (l : list dep_ref) (st : State) :
  same_frame st (fold_left (fun s r => upd_dep s r (F s r)) l st) /\
  effects (fold_left (fun s r => upd_dep s r (F s r)) l st) = effects st.
Proof.
  revert st. induction l as [|a l IH]; intros st; simpl.
  - split; [apply same_frame_refl | reflexivity].
  - destruct (IH (upd_dep st a (F st a))) as [H1 H2]. split.
    + eapply same_frame_trans; [apply same_frame_upd_dep | exact H1].
    + rewrite H2. reflexivity.
Qed.

Lemma same_frame_upd_effect (st : State) (e : eff) (f : EffectState -> EffectState) :
  (forall s, parent (f s) = parent s) ->
  same_frame st (upd_effect st e f).
Proof.
  intros Hf. repeat split. intros x. simpl.
  destruct (Nat.eqb_spec x e) as [->|]; [apply Hf | reflexivity].
Qed.

Lemma same_frame_cleanupEffect (st : State) (e : eff) :
  same_frame st (cleanupEffect st e).
Proof.
  unfold cleanupEffect.
  eapply same_frame_trans;
    [apply (same_frame_fold_upd_dep
              (fun _ _ d => set_members (set_delete e (members d)) d))
    | apply same_frame_upd_effect; reflexivity].
Qed.

Lemma same_frame_initDepMarkers (st : State) (e : eff) :
  same_frame st (initDepMarkers st e).
Proof.
  unfold initDepMarkers.
  apply (same_frame_fold_upd_dep
           (fun s _ d => set_w (Z.lor (w d) (trackOpBit s)) d)).
Qed.

Lemma finalize_loop_frame (e : eff) (l : list dep_ref) :
  forall kept st,
    same_frame st (fst (finalize_loop e l kept st)) /\
    effects (fst (finalize_loop e l kept st)) = effects st.
Proof.
  induction l as [|a l IH]; intros kept st; simpl.
  - split; [apply same_frame_refl | reflexivity].
  - destruct (dep_at st a) as [d|]; [|apply IH].
    match goal with
    | |- context [finalize_loop e l ?k ?s] => destruct (IH k s) as [H1 H2]
    end.
    split.
    + eapply same_frame_trans; [|exact H1].
      destruct (wasTracked (trackOpBit st) d && negb (newTracked (trackOpBit st) d));
        repeat split.
    + rewrite H2.
      destruct (wasTracked (trackOpBit st) d && negb (newTracked (trackOpBit st) d));
        reflexivity.
Qed.

Lemma same_frame_finalizeDepMarkers (st : State) (e : eff) :
  same_frame st (finalizeDepMarkers st e).
Proof.
  unfold finalizeDepMarkers.
  destruct (finalize_loop_frame e (deps (effects st e)) [] st) as [H _].
  destruct (finalize_loop e (deps (effects st e)) [] st) as [s1 kept].
  simpl in H. eapply same_frame_trans; [exact H|].
  apply same_frame_upd_effect. reflexivity.
Qed.

Lemma same_frame_track (st : State) (t : nat) (k : key) :
  same_frame st (track st t k).
Proof.
  unfold track.
  destruct (shouldTrack st && _); [|apply same_frame_refl].
  unfold trackEffects.
  destruct (activeEffect (ensure_dep st t k)) as [a|]; [|repeat split].
  destruct (dep_at (ensure_dep st t k) (t, k)) as [d|]; [|repeat split].
  destruct (effectTrackDepth (ensure_dep st t k) <=? maxMarkerBits).
  - destruct (negb (newTracked _ d)); [|repeat split].
    destruct (negb (wasTracked _ d)); [|repeat split].
    repeat split. intros x. simpl. destruct (Nat.eqb x a) eqn:E; [|reflexivity].
    apply Nat.eqb_eq in E. now subst.
  - destruct (negb (set_has a (members d))); [|repeat split].
    repeat split. intros x. simpl. destruct (Nat.eqb x a) eqn:E; [|reflexivity].
    apply Nat.eqb_eq in E. now subst.
Qed.

Lemma same_frame_stop (defs : eff -> EffectDef) (st : State) (e : eff) :
  same_frame st (fst (stop defs st e)).
Proof.
  unfold stop. destruct (opt_eff_eqb (activeEffect st) e); simpl.
  - apply same_frame_upd_effect. reflexivity.
  - destruct (active (effects st e)); simpl; [|apply same_frame_refl].
    eapply same_frame_trans; [apply same_frame_cleanupEffect|].
    apply same_frame_upd_effect. reflexivity.
Qed.

(** *** Chains of running effects *)

Lemma on_chain_same_parents (s s' : State) (p : option eff) (y : eff) :
  (forall x, on_chain s p x -> parent (effects s' x) = parent (effects s x)) ->
  (on_chain s p y <-> on_chain s' p y).
Proof.
  intros H. split.
  - intros Hc. induction Hc as [e|q e Hc IH].
    + constructor.
    + apply on_chain_up. rewrite (H q) by constructor.
      apply IH. intros x Hx. apply H. now apply on_chain_up.
  - intros Hc. revert H. induction Hc as [e|q e Hc IH]; intros H.
    + constructor.
    + apply on_chain_up. rewrite <- (H q) by constructor. apply IH.
      rewrite (H q) by constructor. intros x Hx. apply H.
      apply on_chain_up. exact Hx.
Qed.

Lemma balanced_refl (st : State) : balanced st st.
Proof. repeat split. Qed.

Lemma same_frame_balanced (st st' : State) : same_frame st st' -> balanced st st'.
Proof. intros (A1 & A2 & A3 & A4 & A5). repeat split; auto. Qed.

Lemma balanced_trans (a b c : State) :
  balanced a b -> balanced b c -> balanced a c.
Proof.
  intros (A1 & A2 & A3 & A4 & A5) (B1 & B2 & B3 & B4 & B5).
  repeat split; try congruence.
  intros x Hx. rewrite B5; [now apply A5|].
  rewrite A1. apply (proj1 (@on_chain_same_parents a b (activeEffect a) x A5)). exact Hx.
Qed.

Lemma chain_has_false_not_on_chain (f : nat) (st : State) (p : option eff) (e : eff) :
  chain_has f st p e = Some false -> ~ on_chain st p e.
Proof.
  revert p. induction f as [|f IH]; intros p H Hc.
  - destruct Hc as [e|q e Hc]; simpl in H.
    + rewrite Nat.eqb_refl in H. discriminate.
    + destruct (Nat.eqb q e); discriminate.
  - destruct Hc as [e|q e Hc]; simpl in H.
    + rewrite Nat.eqb_refl in H. discriminate.
    + destruct (Nat.eqb q e); [discriminate|]. exact (IH _ H Hc).
Qed.

Lemma run_enter_frame (st : State) (e : eff) :
  activeEffect (run_enter st e) = Some e /\
  effectTrackDepth (run_enter st e) = effectTrackDepth st + 1 /\
  trackStack (run_enter st e) = trackStack st /\
  parent (effects (run_enter st e) e) = activeEffect st /\
  forall x, x <> e -> parent (effects (run_enter st e) x) = parent (effects st x).
Proof.
  unfold run_enter.
  match goal with
  | |- context [initDepMarkers ?s2 e] => set (st2 := s2)
  end.
  assert (H : same_frame st2 (if effectTrackDepth st2 <=? maxMarkerBits
                              then initDepMarkers st2 e else cleanupEffect st2 e)).
  { destruct (effectTrackDepth st2 <=? maxMarkerBits);
      [apply same_frame_initDepMarkers | apply same_frame_cleanupEffect]. }
  destruct H as (H1 & H2 & H3 & H4 & H5).
  rewrite H1, H2, H4, !H5. unfold st2. simpl. rewrite Nat.eqb_refl.
  repeat split. intros x Hx. rewrite H5. simpl.
  apply Nat.eqb_neq in Hx. now rewrite Hx.
Qed.

Lemma run_exit_frame (defs : eff -> EffectDef) (st : State) (e : eff) (last : bool) :
  activeEffect (fst (run_exit defs st e last)) = parent (effects st e) /\
  effectTrackDepth (fst (run_exit defs st e last)) = effectTrackDepth st - 1 /\
  shouldTrack (fst (run_exit defs st e last)) = last /\
  trackStack (fst (run_exit defs st e last)) = trackStack st /\
  forall x, x <> e ->
    parent (effects (fst (run_exit defs st e last)) x) = parent (effects st x).
Proof.
  unfold run_exit.
  set (sF := if effectTrackDepth st <=? maxMarkerBits
             then finalizeDepMarkers st e else st).
  assert (HF : same_frame st sF).
  { unfold sF. destruct (effectTrackDepth st <=? maxMarkerBits);
      [apply same_frame_finalizeDepMarkers | apply same_frame_refl]. }
  destruct HF as (F1 & F2 & F3 & F4 & F5).
  match goal with
  | |- context [upd_effect ?s2 e (set_parent None)] =>
      set (s3 := upd_effect s2 e (set_parent None))
  end.
  assert (H3 : activeEffect s3 = parent (effects st e) /\
               effectTrackDepth s3 = effectTrackDepth st - 1 /\
               shouldTrack s3 = last /\
               trackStack s3 = trackStack st /\
               forall x, x <> e -> parent (effects s3 x) = parent (effects st x)).
  { unfold s3. simpl. rewrite F2, F4, F5. repeat split.
    intros x Hx. apply Nat.eqb_neq in Hx. rewrite Hx. apply F5. }
  destruct H3 as (G1 & G2 & G3 & G4 & G5).
  destruct (deferStop (effects s3 e)); simpl; [|repeat split; assumption].
  destruct (same_frame_stop defs s3 e) as (S1 & S2 & S3 & S4 & S5).
  rewrite S1, S2, S3, S4. repeat split; try assumption.
  intros x Hx. rewrite S5. now apply G5.
Qed.

Section Balance.
Variable defs : eff -> EffectDef.
Variable StringToNumber : string -> number.
Variable ObjectToNumber : nat -> option number.
Variable numeral_roundtrips : Z -> bool.

Local Abbreviation run_ :=
  (run defs StringToNumber ObjectToNumber numeral_roundtrips).

Section BalancedBody.
Variable run' : State -> eff -> result.
Hypothesis run'_balanced :
  forall st e st' tr th, run' st e = Some (st', tr, th) -> balanced st st'.

Lemma triggerEffect_balanced (st : State) (e : eff) st' tr th :
  triggerEffect defs run' st e = Some (st', tr, th) -> balanced st st'.
Proof.
  unfold triggerEffect.
  destruct (negb (opt_eff_eqb (activeEffect st) e) || allowRecurse (defs e)).
  - destruct (scheduler (defs e)).
    + intros H. injection H as <- _ _. apply balanced_refl.
    + apply run'_balanced.
  - intros H. injection H as <- _ _. apply balanced_refl.
Qed.

Lemma triggerEffects_loop_balanced (l : list eff) :
  forall st st' tr th,
    triggerEffects_loop defs run' st l = Some (st', tr, th) -> balanced st st'.
Proof.
  induction l as [|e l IH]; intros st st' tr th H; simpl in H.
  - injection H as <- _ _. apply balanced_refl.
  - destruct (triggerEffect defs run' st e) as [[[s1 tr1] [|]]|] eqn:E;
      try discriminate.
    + injection H as <- _ _. eapply triggerEffect_balanced; eassumption.
    + destruct (triggerEffects_loop defs run' s1 l) as [[[s2 tr2] th2]|] eqn:E2;
        [|discriminate].
      injection H as <- _ _.
      eapply balanced_trans;
        [eapply triggerEffect_balanced; eassumption | eapply IH; eassumption].
Qed.

Lemma exec_op_balanced (st : State) (o : op) st' tr th :
  exec_op defs StringToNumber ObjectToNumber numeral_roundtrips run' st o
    = Some (st', tr, th) ->
  balanced st st'.
Proof.
  destruct o as [t k|e|e|t tk ty k nv]; simpl.
  - intros H. injection H as <- _ _. apply same_frame_balanced, same_frame_track.
  - pose proof (same_frame_stop defs st e) as Hs.
    destruct (stop defs st e) as [s1 tr1]. intros H. injection H as <- _ _.
    now apply same_frame_balanced.
  - apply run'_balanced.
  - unfold trigger.
    destruct (trigger_calls defs StringToNumber ObjectToNumber numeral_roundtrips
                st t tk ty k nv) as [calls|].
    + apply triggerEffects_loop_balanced.
    + intros H. injection H as <- _ _. apply balanced_refl.
Qed.

Lemma exec_ops_balanced (l : list op) :
  forall st st' tr th,
    exec_ops defs StringToNumber ObjectToNumber numeral_roundtrips run' st l
      = Some (st', tr, th) ->
    balanced st st'.
Proof.
  induction l as [|o l IH]; intros st st' tr th H; simpl in H.
  - injection H as <- _ _. apply balanced_refl.
  - destruct (exec_op defs StringToNumber ObjectToNumber numeral_roundtrips
                run' st o) as [[[s1 tr1] [|]]|] eqn:E; try discriminate.
    + injection H as <- _ _. eapply exec_op_balanced; eassumption.
    + destruct (exec_ops defs StringToNumber ObjectToNumber numeral_roundtrips
                  run' s1 l) as [[[s2 tr2] th2]|] eqn:E2; [|discriminate].
      injection H as <- _ _.
      eapply balanced_trans;
        [eapply exec_op_balanced; eassumption | eapply IH; eassumption].
Qed.
End BalancedBody.

(** X3: Whatever the computation does (reads, stops, nested runs, triggers)
    and whether it returns or throws, a call of [run] that comes back
    leaves the running effect, the depth counter, the tracking flag and
    its stack as they were, and so the [parent] link of every effect that
    was running. *)
Theorem run_restores_context (f : nat) :
  forall st e st' tr th,
    run_ f st e = Some (st', tr, th) ->
    activeEffect st' = activeEffect st /\
    effectTrackDepth st' = effectTrackDepth st /\
    shouldTrack st' = shouldTrack st /\
    trackStack st' = trackStack st /\
    forall x, on_chain st (activeEffect st) x ->
              parent (effects st' x) = parent (effects st x).
Proof.
  change (forall st e st' tr th, run_ f st e = Some (st', tr, th) -> balanced st st').
  induction f as [|f IH]; intros st e st' tr th H; [discriminate|].
  simpl in H. destruct (negb (active (effects st e))).
  - destruct (exec_ops defs StringToNumber ObjectToNumber numeral_roundtrips
                (run_ f) st (fn (defs e))) as [[[s1 tr1] th1]|] eqn:E; [|discriminate].
    injection H as <- _ _. eapply exec_ops_balanced; eassumption.
  - destruct (chain_has f st (activeEffect st) e) as [[|]|] eqn:Hc; try discriminate.
    + injection H as <- _ _. apply balanced_refl.
    + destruct (exec_ops defs StringToNumber ObjectToNumber numeral_roundtrips
                  (run_ f) (run_enter st e) (fn (defs e)))
        as [[[s1 tr1] th1]|] eqn:E; [|discriminate].
      pose proof (run_exit_frame defs s1 e (shouldTrack st)) as Hx.
      destruct (run_exit defs s1 e (shouldTrack st)) as [s2 tr2].
      injection H as <- _ _. simpl in Hx.
      destruct Hx as (X1 & X2 & X3 & X4 & X5).
      destruct (run_enter_frame st e) as (N1 & N2 & N3 & N4 & N5).
      pose proof (@exec_ops_balanced (run_ f) IH _ _ _ _ _ E) as (B1 & B2 & B3 & B4 & B5).
      assert (Hnot : ~ on_chain st (activeEffect st) e)
        by (eapply chain_has_false_not_on_chain; eassumption).
      assert (Hne : forall x, on_chain st (activeEffect st) x -> x <> e)
        by (intros x Hx ->; contradiction).
      assert (Hch : forall x, on_chain st (activeEffect st) x ->
                              on_chain (run_enter st e) (activeEffect st) x).
      { intros x Hx.
        apply (@on_chain_same_parents st (run_enter st e) (activeEffect st) x);
          [|exact Hx].
        intros y Hy. apply N5. now apply Hne. }
      rewrite N1 in B5.
      assert (Hpe : parent (effects s1 e) = activeEffect st).
      { rewrite B5 by constructor. exact N4. }
      repeat split.
      * rewrite X1. exact Hpe.
      * rewrite X2, B2, N2. lia.
      * exact X3.
      * rewrite X4, B4. exact N3.
      * intros x Hx. rewrite X5 by (now apply Hne).
        rewrite B5.
        -- apply N5. now apply Hne.
        -- apply on_chain_up. rewrite N4. now apply Hch.
Qed.
End Balance.

Lemma throwing_run_result :
  exists st',
    run throwing_defs sample_StringToNumber sample_ObjectToNumber sample_roundtrips
        5 sample_state 4%nat = Some (st', [EvFn 4%nat; EvFn 3%nat], true).
Proof. eexists. vm_compute. reflexivity. Qed.

Lemma run_restores_context_witness :
  exists st',
    run throwing_defs sample_StringToNumber sample_ObjectToNumber sample_roundtrips
        5 sample_state 4%nat = Some (st', [EvFn 4%nat; EvFn 3%nat], true) /\
    activeEffect st' = activeEffect sample_state /\
    effectTrackDepth st' = effectTrackDepth sample_state /\
    shouldTrack st' = shouldTrack sample_state.
Proof.
  destruct throwing_run_result as [st' E]. exists st'. split; [exact E|].
  destruct (@run_restores_context throwing_defs sample_StringToNumber
              sample_ObjectToNumber sample_roundtrips 5 sample_state 4%nat
              st' _ _ E) as (H1 & H2 & H3 & _).
  repeat split; assumption.
Defined.

(* ===================================================================== *)
(** ** Further properties: who is called by a trigger                     *)
(* ===================================================================== *)

Lemma map_get_In (k : key) (m : KeyToDepMap) (d : Dep) :
  map_get k m = Some d -> In k (map fst m).
Proof.
  induction m as [|[k' d'] m IH]; simpl; [discriminate|].
  destruct (key_eqb_spec k k') as [->|]; [now left | intros H; right; now apply IH].
Qed.

Section CalledEffects.
Variable defs : eff -> EffectDef.
Variable StringToNumber : string -> number.
Variable ObjectToNumber : nat -> option number.
Variable numeral_roundtrips : Z -> bool.

Local Abbreviation select :=
  (trigger_select StringToNumber ObjectToNumber numeral_roundtrips).
Local Abbreviation calls_of :=
  (trigger_calls defs StringToNumber ObjectToNumber numeral_roundtrips).
Local Abbreviation run_ :=
  (run defs StringToNumber ObjectToNumber numeral_roundtrips).

Lemma In_trigger_calls (st : State) (t : nat) (tk : kind) (type : TriggerOpTypes)
    (k : option key) (nv : value) (calls : list eff) (e : eff) :
  calls_of st t tk type k nv = Ok calls ->
  (In e calls <->
   exists depsMap ks k',
     targetMap st t = Some depsMap /\
     select depsMap tk type k nv = Ok ks /\
     In k' ks /\ dep_has st (t, k') e = true).
Proof.
  unfold trigger_calls, dep_has, dep_at. simpl.
  destruct (targetMap st t) as [depsMap|].
  - destruct (trigger_select StringToNumber ObjectToNumber numeral_roundtrips
                depsMap tk type k nv) as [ks|] eqn:Hs; [|discriminate].
    intros H. injection H as <-.
    rewrite In_triggerEffects_order, In_trigger_effects. split.
    + intros (d & Hd & He). apply in_map_iff in Hd. destruct Hd as (k' & Hk' & Hin).
      exists depsMap, ks, k'. rewrite Hk'.
      split; [reflexivity|]. split; [exact Hs|]. split; [assumption|].
      now apply set_has_In.
    + intros (m & ks' & k' & Hm & Hks & Hin & Hh).
      injection Hm as <-. rewrite Hs in Hks. injection Hks as <-.
      destruct (map_get k' depsMap) as [d|] eqn:Hd; [|discriminate].
      exists d. split; [apply in_map_iff; eauto | now apply set_has_In].
  - intros H. injection H as <-. split; [intros []|].
    intros (m & _ & _ & Hm & _). discriminate.
Qed.



(** X5: [run] called by hand on a stopped effect while no effect is running
    starts the computation, and its reads subscribe nothing: the state is
    the one before the call. *)
Theorem stopped_effect_run_tracks_nothing
    (f : nat) (st : State) (e : eff) (reads : list dep_ref) :
  fn (defs e) = reads_body reads ->
  active (effects st e) = false ->
  activeEffect st = None ->
  run_ (S f) st e = Some (st, [EvFn e], false).
Proof.
  intros Hfn Hact Ha. simpl. rewrite Hact, Hfn. simpl negb. cbv iota.
  assert (E : exec_ops defs StringToNumber ObjectToNumber numeral_roundtrips
                (run_ f) st (reads_body reads) = Some (st, [], false)).
  { clear Hfn. induction reads as [|[t k] l IH]; [reflexivity|].
    unfold reads_body. cbn [map exec_ops exec_op fst snd].
    assert (T : track st t k = st).
    { unfold track. rewrite Ha. now rewrite andb_false_r. }
    rewrite T. fold (reads_body l). rewrite IH. reflexivity. }
  rewrite E. reflexivity.
Qed.

(** X6: A write reaches every subscriber of the slot written: whenever the
    effect [e] is in the dep of the key [k] of a target, a trigger on [k]
    hands [e] to [triggerEffect], for CLEAR and for every other type
    outside the length branch of arrays. *)
Theorem subscriber_is_called
    (st : State) (t : nat) (tk : kind) (type : TriggerOpTypes) (k : key)
    (nv : value) (e : eff) :
  dep_has st (t, k) e = true ->
  type = CLEAR \/ (key_eqb k length_key && kind_isArray tk) = false ->
  exists calls, calls_of st t tk type (Some k) nv = Ok calls /\ In e calls.
Proof.
  intros Hh Hcase.
  assert (Hm : exists depsMap d, targetMap st t = Some depsMap /\
                                 map_get k depsMap = Some d).
  { unfold dep_has, dep_at in Hh. simpl in Hh.
    destruct (targetMap st t) as [m|]; [|discriminate].
    destruct (map_get k m) as [d|] eqn:Hd; [eauto | discriminate]. }
  destruct Hm as (depsMap & d & Hm & Hd).
  assert (Hsel : exists ks, select depsMap tk type (Some k) nv = Ok ks /\ In k ks).
  { unfold trigger_select. destruct type.
    - destruct Hcase as [|E]; [discriminate|]. rewrite E. eexists. split; [reflexivity|].
      now left.
    - destruct Hcase as [|E]; [discriminate|]. rewrite E. eexists. split; [reflexivity|].
      now left.
    - destruct Hcase as [|E]; [discriminate|]. rewrite E. eexists. split; [reflexivity|].
      now left.
    - eexists. split; [reflexivity|]. eapply map_get_In; eassumption. }
  destruct Hsel as (ks & Hks & Hin).
  destruct (calls_of st t tk type (Some k) nv) as [calls|] eqn:Hc.
  - exists calls. split; [reflexivity|].
    apply (In_trigger_calls _ _ _ _ _ _ _ Hc). exists depsMap, ks, k. auto.
  - unfold trigger_calls in Hc. rewrite Hm, Hks in Hc. discriminate.
Qed.
End CalledEffects.

Section Enumeration.
Variable defs : eff -> EffectDef.
Variable StringToNumber : string -> number.
Variable ObjectToNumber : nat -> option number.
Variable numeral_roundtrips : Z -> bool.

Local Abbreviation calls_of :=
  (trigger_calls defs StringToNumber ObjectToNumber numeral_roundtrips).

(** X7: An effect that enumerated the keys of a target (the [ownKeys] trap
    subscribed it under [ITERATE_KEY], or under [length] for an array) is
    called when a key is added: any key of an object, map or set, an
    integer key of an array.  It is called when a key of a target that is
    not an array is deleted.  Setting a key of a plain object or deleting
    one of an array calls it only if it is subscribed to that very key. *)
Theorem key_enumeration_invalidated
    (st : State) (t : nat) (tk : kind) (e : eff) :
  dep_has st (t, ownKeys_key tk) e = true ->
  (forall k nv,
     (kind_isArray tk = true -> isIntegerKey numeral_roundtrips k = true) ->
     exists calls, calls_of st t tk ADD (Some k) nv = Ok calls /\ In e calls) /\
  (forall k nv,
     kind_isArray tk = false ->
     exists calls, calls_of st t tk DELETE (Some k) nv = Ok calls /\ In e calls) /\
  (forall type k nv calls,
     (type = SET /\ kind_isMap tk = false /\ k <> length_key) \/
     (type = DELETE /\ kind_isArray tk = true /\ k <> length_key) ->
     dep_has st (t, k) e = false ->
     calls_of st t tk type (Some k) nv = Ok calls ->
     ~ In e calls).
Proof.
  intros Hh.
  assert (Hm : exists depsMap, targetMap st t = Some depsMap).
  { unfold dep_has, dep_at in Hh. simpl in Hh.
    destruct (targetMap st t) as [m|]; [eauto | discriminate]. }
  destruct Hm as (depsMap & Hm).
  assert (Hgo : forall type k nv ks,
            trigger_select StringToNumber ObjectToNumber numeral_roundtrips
              depsMap tk type (Some k) nv = Ok ks ->
            In (ownKeys_key tk) ks ->
            exists calls, calls_of st t tk type (Some k) nv = Ok calls /\ In e calls).
  { intros type k nv ks Hks Hin.
    destruct (calls_of st t tk type (Some k) nv) as [calls|] eqn:Hc.
    - exists calls. split; [reflexivity|].
      apply (In_trigger_calls _ _ _ _ _ _ _ _ _ _ _ Hc).
      exists depsMap, ks, (ownKeys_key tk). auto.
    - unfold trigger_calls in Hc. rewrite Hm, Hks in Hc. discriminate. }
  split; [|split].
  - intros k nv Hint. unfold ownKeys_key in *.
    destruct (kind_isArray tk) eqn:Harr.
    + specialize (Hint eq_refl).
      assert (Hk : key_eqb k length_key = false).
      { apply key_eqb_neq. intros ->. discriminate. }
      eapply Hgo.
      * unfold trigger_select. rewrite Hk, Harr, Hint. simpl. reflexivity.
      * simpl. auto.
    + eapply Hgo.
      * unfold trigger_select. rewrite Harr, andb_false_r. simpl. reflexivity.
      * simpl. auto.
  - intros k nv Harr. unfold ownKeys_key in *. rewrite Harr in *.
    eapply Hgo.
    + unfold trigger_select. rewrite Harr, andb_false_r. simpl. reflexivity.
    + simpl. auto.
  - intros type k nv calls Hcase Hno Hc Hin.
    apply (In_trigger_calls _ _ _ _ _ _ _ _ _ _ _ Hc) in Hin.
    destruct Hin as (m & ks & k' & Hm' & Hks & Hin & Hh').
    assert (Hk : key_eqb k length_key = false).
    { apply key_eqb_neq. destruct Hcase as [(_ & _ & H)|(_ & _ & H)]; exact H. }
    unfold trigger_select in Hks. rewrite Hk in Hks. simpl in Hks.
    destruct Hcase as [(-> & Hmap & _)|(-> & Harr & _)].
    + rewrite Hmap in Hks. injection Hks as <-.
      destruct Hin as [<-|[]]. congruence.
    + rewrite Harr in Hks. simpl in Hks. injection Hks as <-.
      destruct Hin as [<-|[]]. congruence.
Qed.
End Enumeration.


Lemma stopped_effect_run_tracks_nothing_witness :
  fn (rerun_defs 0%nat) = reads_body [(0%nat, KStr "b")] /\
  active (effects stopped_state 0%nat) = false /\
  activeEffect stopped_state = None /\
  run rerun_defs sample_StringToNumber sample_ObjectToNumber sample_roundtrips
      1 stopped_state 0%nat = Some (stopped_state, [EvFn 0%nat], false).
Proof.
  split; [reflexivity|]. split; [reflexivity|]. split; [reflexivity|].
  exact (@stopped_effect_run_tracks_nothing rerun_defs sample_StringToNumber
           sample_ObjectToNumber sample_roundtrips 0 stopped_state 0%nat
           [(0%nat, KStr "b")] eq_refl eq_refl eq_refl).
Defined.

Lemma subscriber_is_called_witness :
  dep_has sample_state (0%nat, KStr "b") 1%nat = true /\
  (SET = CLEAR \/ (key_eqb (KStr "b") length_key && kind_isArray PlainObject) = false) /\
  exists calls,
    trigger_calls sample_defs sample_StringToNumber sample_ObjectToNumber
      sample_roundtrips sample_state 0%nat PlainObject SET (Some (KStr "b")) VUndef
    = Ok calls /\ In 1%nat calls.
Proof.
  split; [reflexivity|]. split; [right; reflexivity|].
  exact (@subscriber_is_called sample_defs sample_StringToNumber
           sample_ObjectToNumber sample_roundtrips sample_state 0%nat PlainObject
           SET (KStr "b") VUndef 1%nat eq_refl (or_intror eq_refl)).
Defined.

Lemma key_enumeration_invalidated_witness :
  dep_has enumerated_state (2%nat, ownKeys_key ArrayObject) 1%nat = true /\
  exists calls,
    trigger_calls sample_defs sample_StringToNumber sample_ObjectToNumber
      sample_roundtrips enumerated_state 2%nat ArrayObject ADD (Some (KStr "3")) VUndef
    = Ok calls /\ In 1%nat calls.
Proof.
  split; [reflexivity|].
  destruct (@key_enumeration_invalidated sample_defs sample_StringToNumber
              sample_ObjectToNumber sample_roundtrips enumerated_state 2%nat
              ArrayObject 1%nat eq_refl) as (Hadd & _ & _).
  apply Hadd. intros _. reflexivity.
Defined.

(* ===================================================================== *)
(** ** Further properties: integer keys                                   *)
(* ===================================================================== *)

Lemma all_digits_string_of_uint (d : Decimal.uint) :
  all_digits (DecimalString.NilEmpty.string_of_uint d) = true.
Proof. induction d; simpl; auto. Qed.

Lemma digits_value_string_of_uint (d : Decimal.uint) :
  forall a : nat,
    digits_value (Z.of_nat a) (DecimalString.NilEmpty.string_of_uint d)
    = Z.of_nat (Nat.of_uint_acc d a).
Proof.
  induction d; intros a; cbn [DecimalString.NilEmpty.string_of_uint digits_value
                               Nat.of_uint_acc]; try reflexivity;
    rewrite <- IHd; f_equal; unfold Nat.tail_mul;
    rewrite Nat.tail_addmul_spec;
    repeat rewrite Nat2Z.inj_succ; rewrite Nat2Z.inj_add, Nat2Z.inj_mul;
    cbn; lia.
Qed.

Lemma digits_value_string_of_index (i : nat) :
  digits_value 0 (string_of_index i) = Z.of_nat i.
Proof.
  unfold string_of_index. change 0 with (Z.of_nat 0).
  rewrite (digits_value_string_of_uint (Nat.to_uint i) 0).
  change (Nat.of_uint_acc (Nat.to_uint i) 0) with (Nat.of_uint (Nat.to_uint i)).
  now rewrite DecimalNat.Unsigned.of_to.
Qed.

Lemma unorm_fixed_canonical (d : Decimal.uint) :
  Decimal.unorm d = d ->
  canonical_numeral (DecimalString.NilEmpty.string_of_uint d) = true.
Proof.
  intros Hn. pose proof (all_digits_string_of_uint d) as Hd.
  destruct d as [|d|d|d|d|d|d|d|d|d|d];
    try (simpl in *; rewrite Hd; reflexivity).
  - exfalso. apply (DecimalFacts.unorm_nonnil Decimal.Nil). exact Hn.
  - (* a leading zero: the numeral is "0" *)
    assert (d = Decimal.Nil).
    { unfold Decimal.unorm in Hn. rewrite DecimalFacts.nzhead_D0 in Hn.
      destruct (Decimal.nzhead d) as [|u|u|u|u|u|u|u|u|u|u] eqn:E;
        try discriminate.
      - now injection Hn as <-.
      - exfalso. exact (DecimalFacts.nzhead_nonzero d u E). }
    subst. reflexivity.
Qed.

Lemma canonical_string_of_index (i : nat) :
  canonical_numeral (string_of_index i) = true.
Proof.
  apply unorm_fixed_canonical.
  rewrite <- (DecimalNat.Unsigned.of_to i) at 2.
  symmetry. rewrite <- DecimalNat.Unsigned.to_of.
  now rewrite DecimalNat.Unsigned.of_to.
Qed.

Lemma digit_string_parses (s : string) :
  all_digits s = true ->
  exists d, DecimalString.NilEmpty.uint_of_string s = Some d.
Proof.
  induction s as [|c s IH]; simpl; [eauto|].
  intros H. apply andb_true_iff in H. destruct H as [Hc Hs].
  destruct (IH Hs) as [d ->].
  destruct c as [[|] [|] [|] [|] [|] [|] [|] [|]]; simpl in *;
    try discriminate; eauto.
Qed.

Lemma string_of_uint_empty (d : Decimal.uint) :
  DecimalString.NilEmpty.string_of_uint d = EmptyString -> d = Decimal.Nil.
Proof. destruct d; simpl; intros H; [reflexivity | discriminate ..]. Qed.

Lemma canonical_numeral_is_index (s : string) :
  canonical_numeral s = true ->
  string_of_index (Z.to_nat (digits_value 0 s)) = s.
Proof.
  intros Hc.
  assert (Hd : all_digits s = true).
  { destruct s; [discriminate|]. unfold canonical_numeral in Hc.
    now apply andb_true_iff in Hc. }
  destruct (digit_string_parses s Hd) as [d Hp].
  apply DecimalString.NilEmpty.sus in Hp. subst s.
  change 0 with (Z.of_nat 0).
  rewrite (digits_value_string_of_uint d 0), Nat2Z.id.
  change (Nat.of_uint_acc d 0) with (Nat.of_uint d).
  unfold string_of_index. rewrite DecimalNat.Unsigned.to_of.
  f_equal.
  destruct d as [|d|d|d|d|d|d|d|d|d|d]; try reflexivity; [discriminate|].
  simpl in Hc. apply andb_true_iff in Hc. destruct Hc as [_ Hc]. simpl in Hc.
  apply String.eqb_eq, string_of_uint_empty in Hc. subst. reflexivity.
Qed.

(* ===================================================================== *)
(** ** Further properties: the integer keys, as [parseInt] reads them     *)
(* ===================================================================== *)

(** *** Numerals *)

Lemma unorm_N_to_uint (n : N) : Decimal.unorm (N.to_uint n) = N.to_uint n.
Proof.
  rewrite <- (DecimalN.Unsigned.of_to n) at 2.
  now rewrite DecimalN.Unsigned.to_of.
Qed.

Lemma canonical_numeral_numeral (z : Z) : canonical_numeral (numeral z) = true.
Proof. apply unorm_fixed_canonical, unorm_N_to_uint. Qed.

Lemma digits_value_of_uint_acc (d : Decimal.uint) :
  forall acc : positive,
    digits_value (Zpos acc) (DecimalString.NilEmpty.string_of_uint d)
    = Zpos (Pos.of_uint_acc d acc).
Proof.
  induction d; intros acc;
    cbn [DecimalString.NilEmpty.string_of_uint digits_value Pos.of_uint_acc];
    try reflexivity; rewrite <- IHd; f_equal;
    match goal with
    | |- context [Z.of_nat (nat_of_ascii ?c)] =>
        let v := eval vm_compute in (Z.of_nat (nat_of_ascii c)) in
        change (Z.of_nat (nat_of_ascii c)) with v
    end; lia.
Qed.

Lemma digits_value_of_uint (d : Decimal.uint) :
  digits_value 0 (DecimalString.NilEmpty.string_of_uint d) = Z.of_N (Pos.of_uint d).
Proof.
  induction d;
    cbn [DecimalString.NilEmpty.string_of_uint digits_value Pos.of_uint];
    try reflexivity; try exact IHd;
    match goal with
    | |- digits_value ?a _ = _ =>
        let v := eval vm_compute in a in
        change a with v
    end; rewrite digits_value_of_uint_acc; reflexivity.
Qed.

Lemma digits_value_numeral (z : Z) : 0 <= z -> digits_value 0 (numeral z) = z.
Proof.
  intros Hz. unfold numeral. rewrite digits_value_of_uint.
  change (Pos.of_uint (N.to_uint (Z.to_N z))) with (N.of_uint (N.to_uint (Z.to_N z))).
  rewrite DecimalN.Unsigned.of_to. now apply Z2N.id.
Qed.

Lemma numeral_of_nat (i : nat) : numeral (Z.of_nat i) = string_of_index i.
Proof.
  rewrite <- (@canonical_numeral_is_index _ (canonical_numeral_numeral (Z.of_nat i))).
  rewrite digits_value_numeral by lia. now rewrite Nat2Z.id.
Qed.

Lemma numeral_canonical (s : string) :
  canonical_numeral s = true ->
  0 <= digits_value 0 s /\ numeral (digits_value 0 s) = s.
Proof.
  intros Hc. pose proof (@canonical_numeral_is_index _ Hc) as E.
  assert (Hv : digits_value 0 s = Z.of_nat (Z.to_nat (digits_value 0 s))).
  { rewrite <- E at 1. apply digits_value_string_of_index. }
  split; [lia|]. rewrite Hv, numeral_of_nat. exact E.
Qed.

(** *** parseInt *)

Lemma is_digit_cases (c : ascii) :
  is_digit c = true ->
  In c ["0"; "1"; "2"; "3"; "4"; "5"; "6"; "7"; "8"; "9"]%char.
Proof.
  destruct c as [[|] [|] [|] [|] [|] [|] [|] [|]]; intros H;
    try discriminate H; simpl; tauto.
Qed.

Lemma digit_prefix_all_digits (s : string) :
  all_digits s = true -> digit_prefix s = s.
Proof.
  induction s as [|c s IH]; simpl; [reflexivity|].
  intros H. apply andb_true_iff in H. destruct H as [Hc Hs].
  now rewrite Hc, IH.
Qed.

Lemma canonical_numeral_head (s : string) :
  canonical_numeral s = true ->
  exists c r, s = String c r /\ is_digit c = true /\ all_digits s = true.
Proof.
  destruct s as [|c r]; [discriminate|]. intros H.
  unfold canonical_numeral in H. apply andb_true_iff in H. destruct H as [H _].
  exists c, r. split; [reflexivity|]. split; [|exact H].
  simpl in H. now apply andb_true_iff in H.
Qed.

(** On a canonical numeral [parseInt] reads the whole string. *)
Lemma parseInt_canonical (s : string) :
  canonical_numeral s = true -> parseInt s = num_of_Z (digits_value 0 s).
Proof.
  intros Hc. destruct (@canonical_numeral_head _ Hc) as (c & r & -> & Hd & Ha).
  unfold parseInt.
  assert (E : skip_white (String c r) = String c r /\
              Ascii.eqb c "-" = false /\ Ascii.eqb c "+" = false).
  { apply is_digit_cases in Hd. simpl in Hd.
    repeat (destruct Hd as [<-|Hd]; [repeat split; reflexivity|]).
    destruct Hd. }
  destruct E as (E1 & E2 & E3). rewrite E1, E2, E3.
  rewrite (@digit_prefix_all_digits _ Ha).
  destruct (digits_value 0 (String c r) =? 0) eqn:E0.
  - apply Z.eqb_eq in E0. now rewrite E0.
  - reflexivity.
Qed.

Lemma digits_value_nonneg (s : string) :
  all_digits s = true -> forall a, 0 <= a -> 0 <= digits_value a s.
Proof.
  induction s as [|c s IH]; cbn [digits_value all_digits]; intros H a Ha;
    [exact Ha|].
  apply andb_true_iff in H. destruct H as [Hc Hs]. apply IH; [exact Hs|].
  unfold is_digit in Hc. cbv zeta in Hc.
  apply andb_true_iff in Hc. destruct Hc as [Hc _].
  apply Nat.leb_le in Hc. lia.
Qed.

Lemma all_digits_digit_prefix (s : string) : all_digits (digit_prefix s) = true.
Proof.
  induction s as [|c s IH]; simpl; [reflexivity|].
  destruct (is_digit c) eqn:E; simpl; [now rewrite E|reflexivity].
Qed.

(** What [parseInt] returns: NaN, a zero, or the double nearest to a
    positive integer or to its opposite. *)
Lemma parseInt_cases (s : string) :
  parseInt s = NaN \/
  (exists sg, parseInt s = S754_zero sg) \/
  (exists p, parseInt s = num_of_Z (Zpos p)) \/
  (exists p, parseInt s = num_of_Z (Zneg p)).
Proof.
  unfold parseInt.
  destruct (match skip_white s with
            | String c r =>
                if Ascii.eqb c "-" then (true, r)
                else if Ascii.eqb c "+" then (false, r) else (false, skip_white s)
            | EmptyString => (false, skip_white s)
            end) as [negative rest].
  pose proof (all_digits_digit_prefix rest) as Hd.
  destruct (digit_prefix rest) as [|c r] eqn:E; [now left|].
  pose proof (@digits_value_nonneg _ Hd 0 (Z.le_refl 0)) as Hv.
  destruct (digits_value 0 (String c r) =? 0) eqn:E0; [right; left; eauto|].
  apply Z.eqb_neq in E0. right. right.
  destruct (digits_value 0 (String c r)) as [|p|p]; [congruence| |lia].
  destruct negative; [right | left]; exists p; reflexivity.
Qed.

(** *** The double nearest to an integer *)

Lemma shr_exponent (mrs : shr_record) (e n : Z) : e <= snd (shr mrs e n).
Proof. unfold shr. destruct n; simpl; lia. Qed.

Lemma binary_round_aux_cases (sx : bool) (mx ex : Z) (lx : location) :
  binary_round_aux 53 1024 sx mx ex lx = S754_zero sx \/
  binary_round_aux 53 1024 sx mx ex lx = S754_infinity sx \/
  binary_round_aux 53 1024 sx mx ex lx = S754_nan \/
  exists m e, binary_round_aux 53 1024 sx mx ex lx = S754_finite sx m e
              /\ ex <= e.
Proof.
  unfold binary_round_aux, shr_fexp.
  match goal with
  | |- context [shr ?a ex ?n] =>
      pose proof (shr_exponent a ex n) as H1; destruct (shr a ex n) as [mrs1 e1]
  end.
  match goal with
  | |- context [shr ?a e1 ?n] =>
      pose proof (shr_exponent a e1 n) as H2; destruct (shr a e1 n) as [mrs2 e2]
  end.
  simpl in H1, H2.
  destruct (shr_m mrs2) as [|m|m]; [now left | | now right; right; left].
  destruct (e2 <=? 1024 - 53); [|now right; left].
  right. right. right. exists m, e2. split; [reflexivity | lia].
Qed.

Lemma binary_round_aux_exact (sx : bool) (m : positive) (e : Z) :
  fexp 53 1024 (Zpos (digits2_pos m) + e) = e ->
  e <= 971 ->
  binary_round_aux 53 1024 sx (Zpos m) e loc_Exact = S754_finite sx m e.
Proof.
  intros Hf He. unfold binary_round_aux, shr_fexp.
  cbn [Zdigits2 shr_record_of_loc]. rewrite Hf, Z.sub_diag.
  cbn [shr shr_m loc_of_shr_record round_nearest_even Zdigits2 shr_record_of_loc].
  rewrite Hf, Z.sub_diag. cbn [shr shr_m].
  change (1024 - 53) with 971. apply Z.leb_le in He. now rewrite He.
Qed.

Lemma iter_xO_pow2 (p d : positive) :
  Zpos (Pos.iter xO p d) = Zpos p * 2 ^ Zpos d.
Proof.
  induction d as [|d IH] using Pos.peano_ind; [simpl; lia|].
  rewrite Pos.iter_succ, Pos2Z.inj_xO, IH, Pos2Z.inj_succ, Z.pow_succ_r by lia.
  lia.
Qed.

Lemma digits2_pos_iter_xO (p d : positive) :
  Zpos (digits2_pos (Pos.iter xO p d)) = Zpos (digits2_pos p) + Zpos d.
Proof.
  induction d as [|d IH] using Pos.peano_ind; [simpl; lia|].
  rewrite Pos.iter_succ. cbn [digits2_pos]. lia.
Qed.

Lemma Q_of_double_integer (m : positive) (e : Z) :
  0 <= e -> Q_of_double m e == inject_Z (Zpos m * 2 ^ e).
Proof.
  intros He. unfold Q_of_double.
  rewrite inject_Z_mult, (Zpower_Qpower 2 e He). reflexivity.
Qed.

Lemma Q_of_double_shifted (p d : positive) :
  Q_of_double (Pos.iter xO p d) (Zneg d) == inject_Z (Zpos p).
Proof.
  unfold Q_of_double. rewrite iter_xO_pow2, inject_Z_mult.
  rewrite (Zpower_Qpower 2 (Zpos d)) by lia.
  change (Zneg d) with (- Zpos d). rewrite Qpower_opp.
  change (inject_Z 2) with 2%Q.
  assert (H : ~ 2 ^ Zpos d == 0) by (apply Qpower_not_0; discriminate).
  revert H. generalize (2 ^ Zpos d)%Q. intros t H. field. exact H.
Qed.

(** The double nearest to a positive integer, when it is finite, is an
    integer. *)
Lemma num_of_Z_pos (p : positive) :
  num_of_Z (Zpos p) = S754_zero false \/
  num_of_Z (Zpos p) = S754_infinity false \/
  num_of_Z (Zpos p) = S754_nan \/
  exists m e X, num_of_Z (Zpos p) = S754_finite false m e /\ 0 < X
                /\ Q_of_double m e == inject_Z X.
Proof.
  unfold num_of_Z, binary_normalize, binary_round, shl_align.
  destruct (fexp 53 1024 (Zpos (digits2_pos p) + 0) - 0) as [|d|d] eqn:E.
  - destruct (binary_round_aux_cases false (Zpos p) 0 loc_Exact)
      as [H|[H|[H|(m & e & H & He)]]]; rewrite H; auto.
    right. right. right. exists m, e, (Zpos m * 2 ^ e).
    split; [reflexivity|]. split; [|now apply Q_of_double_integer].
    apply Z.mul_pos_pos; [lia | now apply Z.pow_pos_nonneg].
  - destruct (binary_round_aux_cases false (Zpos p) 0 loc_Exact)
      as [H|[H|[H|(m & e & H & He)]]]; rewrite H; auto.
    right. right. right. exists m, e, (Zpos m * 2 ^ e).
    split; [reflexivity|]. split; [|now apply Q_of_double_integer].
    apply Z.mul_pos_pos; [lia | now apply Z.pow_pos_nonneg].
  - assert (Ef : fexp 53 1024 (Zpos (digits2_pos p) + 0) = Zneg d) by lia.
    rewrite Ef, binary_round_aux_exact.
    + right. right. right. exists (Pos.iter xO p d), (Zneg d), (Zpos p).
      split; [reflexivity|]. split; [lia | apply Q_of_double_shifted].
    + rewrite digits2_pos_iter_xO.
      replace (Zpos (digits2_pos p) + Zpos d + Zneg d)
        with (Zpos (digits2_pos p) + 0) by lia.
      exact Ef.
    + lia.
Qed.

Lemma num_of_Z_neg (p : positive) :
  num_of_Z (Zneg p) = S754_zero true \/
  num_of_Z (Zneg p) = S754_infinity true \/
  num_of_Z (Zneg p) = S754_nan \/
  exists m e, num_of_Z (Zneg p) = S754_finite true m e.
Proof.
  unfold num_of_Z, binary_normalize, binary_round.
  destruct (shl_align p 0 (fexp 53 1024 (Zpos (digits2_pos p) + 0))) as [mz ez].
  destruct (binary_round_aux_cases true (Zpos mz) ez loc_Exact)
    as [H|[H|[H|(m & e & H & He)]]]; rewrite H; eauto 6.
Qed.

(** *** The shortest decimal of an integer *)

Lemma Qpow2_pos (z : Z) : (0 < Qpower 2 z)%Q.
Proof. apply Qpower_0_lt. reflexivity. Qed.

(** A double is among the reals that round to it. *)
Lemma rounds_to_itself (m : positive) (e : Z) (v : Q) :
  v == Q_of_double m e -> rounds_to m e v = true.
Proof.
  intros Hv. unfold rounds_to.
  pose proof (Qpow2_pos (e - 1)) as H1. pose proof (Qpow2_pos (e - 2)) as H2.
  set (x := Q_of_double m e) in *.
  set (below := if Pos.eqb m (2 ^ 52) && (-1074 <? e)
                then Qpower 2 (e - 2) else Qpower 2 (e - 1)).
  assert (Hb : (0 < below)%Q)
    by (unfold below; destruct (Pos.eqb m (2 ^ 52) && (-1074 <? e)); assumption).
  destruct (Z.even (Zpos m)).
  - apply andb_true_iff. split; apply Qle_bool_iff; lra.
  - apply andb_true_iff. split; apply negb_true_iff.
    + destruct (Qle_bool v (x - below)) eqn:E; [|reflexivity].
      apply Qle_bool_iff in E. lra.
    + destruct (Qle_bool (x + Qpower 2 (e - 1)) v) eqn:E; [|reflexivity].
      apply Qle_bool_iff in E. lra.
Qed.

Lemma count_digits_spec (fuel : nat) :
  forall X, 1 <= X < 10 ^ Z.of_nat fuel ->
            1 <= count_digits fuel X /\
            10 ^ (count_digits fuel X - 1) <= X < 10 ^ count_digits fuel X.
Proof.
  induction fuel as [|f IH]; intros X HX; [simpl in HX; lia|].
  cbn [count_digits]. destruct (X <? 10) eqn:E.
  - apply Z.ltb_lt in E. simpl. lia.
  - apply Z.ltb_ge in E.
    rewrite Nat2Z.inj_succ, Z.pow_succ_r in HX by lia.
    pose proof (Z.div_mod X 10 ltac:(lia)) as Hd.
    pose proof (Z.mod_pos_bound X 10 ltac:(lia)) as Hm.
    destruct (IH (X / 10) ltac:(lia)) as (Hc & Hlo & Hhi).
    set (c := count_digits f (X / 10)) in *.
    replace (1 + c - 1) with (Z.succ (c - 1)) by lia.
    replace (1 + c) with (Z.succ c) by lia.
    rewrite !Z.pow_succ_r by lia.
    replace (10 ^ c) with (10 * 10 ^ (c - 1)) in *
      by (rewrite <- Z.pow_succ_r by lia; f_equal; lia).
    lia.
Qed.

Lemma decimal_position_integer (x : Q) (X : Z) :
  0 < X -> x == inject_Z X ->
  1 <= decimal_position x /\
  10 ^ (decimal_position x - 1) <= X < 10 ^ decimal_position x.
Proof.
  intros HX Hx. unfold decimal_position.
  assert (E1 : Qle_bool 1 x = true).
  { apply Qle_bool_iff. rewrite Hx. change 1%Q with (inject_Z 1).
    rewrite <- Zle_Qle. lia. }
  assert (E2 : Qfloor x = X) by (rewrite Hx; apply Qfloor_Z).
  rewrite E1, E2. apply count_digits_spec. split; [lia|].
  rewrite Nat2Z.inj_succ, Z2Nat.id by (apply Z.log2_nonneg).
  destruct (Z.log2_spec X HX) as [_ H].
  eapply Z.lt_le_trans; [exact H|].
  apply Z.pow_le_mono_l. lia.
Qed.

Lemma decimal_of_length_some (m : positive) (e nx k s n : Z) :
  decimal_of_length m e nx k = Some (s, n) ->
  10 ^ (k - 1) <= s < 10 ^ k /\ nx <= n.
Proof.
  unfold decimal_of_length, decimals_around.
  set (x := Q_of_double m e).
  set (c1 := (Qfloor (x / Qpower 10 (nx - k)), nx)).
  set (c2 := if Qfloor (x / Qpower 10 (nx - k)) + 1 =? 10 ^ k
             then (10 ^ (k - 1), nx + 1)
             else (Qfloor (x / Qpower 10 (nx - k)) + 1, nx)).
  assert (G : forall c, is_digits_of m e k c = true ->
                        10 ^ (k - 1) <= fst c < 10 ^ k).
  { intros c H. unfold is_digits_of in H.
    apply andb_true_iff in H. destruct H as [H _].
    apply andb_true_iff in H. destruct H as [H1 H2].
    apply Z.leb_le in H1. apply Z.ltb_lt in H2. lia. }
  assert (N1 : nx <= snd c1) by (simpl; lia).
  assert (N2 : nx <= snd c2)
    by (unfold c2; destruct (_ =? _); simpl; lia).
  assert (K : forall c, is_digits_of m e k c = true -> nx <= snd c ->
                        Some c = Some (s, n) ->
                        10 ^ (k - 1) <= s < 10 ^ k /\ nx <= n).
  { intros c Hc Hn E. injection E as E. subst c. simpl in *.
    split; [now apply (G (s, n)) | exact Hn]. }
  destruct (is_digits_of m e k c1) eqn:V1, (is_digits_of m e k c2) eqn:V2;
    try discriminate; try (now apply K).
  destruct (Qcompare _ _); try (now apply K).
  destruct (Z.even (fst c1)); now apply K.
Qed.

Lemma decimal_of_length_integer (m : positive) (e X : Z) :
  0 < X -> Q_of_double m e == inject_Z X ->
  decimal_of_length m e (decimal_position (Q_of_double m e))
                    (decimal_position (Q_of_double m e)) <> None.
Proof.
  intros HX Hx.
  destruct (decimal_position_integer HX Hx) as (Hn & Hlo & Hhi).
  set (nx := decimal_position (Q_of_double m e)) in *.
  unfold decimal_of_length, decimals_around.
  rewrite Z.sub_diag.
  assert (Ef : Qfloor (Q_of_double m e / Qpower 10 0) = X).
  { rewrite <- (Qfloor_Z X). apply Qfloor_comp.
    rewrite Hx. simpl Qpower. field. }
  rewrite Ef.
  assert (V : is_digits_of m e nx (X, nx) = true).
  { unfold is_digits_of. cbn [fst snd].
    apply andb_true_iff. split.
    - apply andb_true_iff. split; [apply Z.leb_le | apply Z.ltb_lt]; lia.
    - apply rounds_to_itself. unfold decimal_value. cbn [fst snd].
      rewrite Z.sub_diag, Hx. simpl Qpower. field. }
  cbv beta iota. rewrite V.
  repeat match goal with
         | |- context [match ?b with _ => _ end] => destruct b
         end; discriminate.
Qed.

Lemma decimal_of_length_rounds (m : positive) (e nx k s n : Z) :
  decimal_of_length m e nx k = Some (s, n) ->
  rounds_to m e (decimal_value k (s, n)) = true.
Proof.
  unfold decimal_of_length.
  destruct (decimals_around (Q_of_double m e) nx k) as [c1 c2].
  assert (K : forall c, is_digits_of m e k c = true -> Some c = Some (s, n) ->
                        rounds_to m e (decimal_value k (s, n)) = true).
  { intros c Hc E. injection E as ->. unfold is_digits_of in Hc.
    now apply andb_true_iff in Hc. }
  destruct (is_digits_of m e k c1) eqn:V1, (is_digits_of m e k c2) eqn:V2;
    try discriminate; try (now apply K).
  destruct (Qcompare _ _); try (now apply K).
  destruct (Z.even (fst c1)); now apply K.
Qed.

Lemma shortest_decimal_finds (m : positive) (e nx : Z) (fuel : nat) :
  forall k j,
    k <= j < k + Z.of_nat fuel ->
    decimal_of_length m e nx j <> None ->
    exists s k' n,
      shortest_decimal fuel m e nx k = Some (s, k', n) /\
      k <= k' <= j /\
      decimal_of_length m e nx k' = Some (s, n).
Proof.
  induction fuel as [|f IH]; intros k j Hj Hv; [simpl in Hj; lia|].
  cbn [shortest_decimal].
  destruct (decimal_of_length m e nx k) as [[s n]|] eqn:E.
  - exists s, k, n. split; [reflexivity|]. split; [lia | exact E].
  - assert (k <> j) by (intros ->; contradiction).
    destruct (IH (k + 1) j ltac:(lia) Hv) as (s & k' & n & H1 & H2 & H3).
    exists s, k', n. split; [exact H1|]. split; [lia | exact H3].
Qed.

(** The decimal that prints a double that is an integer has no more
    digits than the integer. *)
Lemma integer_shortest_decimal (m : positive) (e X : Z) :
  0 < X -> Q_of_double m e == inject_Z X ->
  exists s k n,
    shortest_decimal
      (Z.to_nat (Z.max (decimal_position (Q_of_double m e)) 17)) m e
      (decimal_position (Q_of_double m e)) 1 = Some (s, k, n) /\
    1 <= k <= n /\ 10 ^ (k - 1) <= s < 10 ^ k /\
    rounds_to m e (decimal_value k (s, n)) = true.
Proof.
  intros HX Hx.
  destruct (decimal_position_integer HX Hx) as (Hn & _).
  pose proof (decimal_of_length_integer HX Hx) as Hv.
  set (nx := decimal_position (Q_of_double m e)) in *.
  destruct (@shortest_decimal_finds m e nx (Z.to_nat (Z.max nx 17)) 1 nx
              ltac:(lia) Hv) as (s & k & n & H1 & H2 & H3).
  exists s, k, n. split; [exact H1|].
  destruct (decimal_of_length_some _ _ _ _ H3) as [Hs Hnn].
  split; [lia|]. split; [exact Hs|].
  eapply decimal_of_length_rounds. exact H3.
Qed.

(** *** What an integer prints as *)

Lemma all_digits_app (s t : string) :
  all_digits s = true -> all_digits t = true -> all_digits (s ++ t) = true.
Proof.
  induction s as [|c s IH]; simpl; [auto|].
  intros H Ht. apply andb_true_iff in H. destruct H as [Hc Hs].
  now rewrite Hc, IH.
Qed.

Lemma all_digits_zeros (n : nat) : all_digits (zeros n) = true.
Proof. induction n; simpl; auto. Qed.

Lemma numeral_head (s : Z) :
  1 <= s ->
  exists c r, numeral s = String c r /\ is_digit c = true
              /\ Ascii.eqb c "0" = false /\ all_digits r = true.
Proof.
  intros Hs. pose proof (canonical_numeral_numeral s) as Hc.
  pose proof (digits_value_numeral (z := s) ltac:(lia)) as Hv.
  destruct (numeral s) as [|c r]; [discriminate|].
  exists c, r. split; [reflexivity|].
  unfold canonical_numeral in Hc. apply andb_true_iff in Hc.
  destruct Hc as [Ha Hz]. cbn [all_digits] in Ha.
  apply andb_true_iff in Ha. destruct Ha as [Hd Hr].
  split; [exact Hd|]. split; [|exact Hr].
  destruct (Ascii.eqb c "0") eqn:E; [|reflexivity].
  apply Ascii.eqb_eq in E. subst c. simpl in Hz.
  apply String.eqb_eq in Hz. subst r. simpl in Hv. lia.
Qed.

Lemma numeral_one_digit (s : Z) :
  1 <= s < 10 -> exists c, numeral s = String c EmptyString.
Proof.
  intros H.
  assert (E : s = 1 \/ s = 2 \/ s = 3 \/ s = 4 \/ s = 5 \/ s = 6 \/ s = 7 \/
              s = 8 \/ s = 9) by lia.
  repeat (destruct E as [->|E]; [eexists; reflexivity|]).
  subst. eexists; reflexivity.
Qed.

(** The decimal [s * 10^(n-k)] with no more digits than its integer part
    prints as a numeral, or with an exponent: a non-zero digit followed
    by a point or by the letter e. *)
Lemma format_decimal_integer (s k n : Z) :
  1 <= k <= n -> 10 ^ (k - 1) <= s < 10 ^ k ->
  canonical_numeral (format_decimal s k n) = true \/
  exists c p r,
    format_decimal s k n = String c (String p r) /\ is_digit c = true /\
    Ascii.eqb c "0" = false /\ (p = "."%char \/ p = "e"%char).
Proof.
  intros Hk Hs.
  assert (H1 : 1 <= s).
  { assert (0 < 10 ^ (k - 1)) by (apply Z.pow_pos_nonneg; lia). lia. }
  destruct (numeral_head H1) as (c & r & En & Hd & Hz & Hr).
  unfold format_decimal.
  assert (E1 : (k <=? n) = true) by (apply Z.leb_le; lia). rewrite E1.
  destruct (n <=? 21) eqn:E2; cbn [andb].
  - left. rewrite En. cbn [append canonical_numeral all_digits].
    rewrite Hd, Hz, (@all_digits_app _ _ Hr (all_digits_zeros _)). reflexivity.
  - right. apply Z.leb_gt in E2.
    assert (E3 : ((0 <? n) && false) = false) by apply andb_false_r.
    rewrite E3.
    assert (E4 : (n <=? 0) = false) by (apply Z.leb_gt; lia).
    rewrite E4, andb_false_r.
    assert (E5 : (n - 1 <? 0) = false) by (apply Z.ltb_ge; lia).
    rewrite E5.
    destruct (k =? 1) eqn:E6.
    + apply Z.eqb_eq in E6. subst k.
      destruct (@numeral_one_digit s ltac:(simpl in Hs; lia)) as [c' En'].
      rewrite En' in En. injection En as -> <-.
      rewrite En'. cbn [append].
      exists c, "e"%char. eexists. split; [reflexivity|]. auto.
    + rewrite En. cbn [substring append].
      exists c, "."%char. eexists.
      split; [destruct r; reflexivity|]. auto.
Qed.

(** What [Number::toString] makes of the double nearest to a positive
    integer. *)
Lemma Number_toString_integer (p : positive) :
  let t := Number_toString (num_of_Z (Zpos p)) in
  t = "0"%string \/ t = "Infinity"%string \/ t = "NaN"%string \/
  t = EmptyString \/
  canonical_numeral t = true \/
  exists c q r,
    t = String c (String q r) /\ is_digit c = true /\
    Ascii.eqb c "0" = false /\ (q = "."%char \/ q = "e"%char).
Proof.
  intros t. subst t.
  destruct (num_of_Z_pos p) as [H|[H|[H|(m & e & X & H & HX & Hx)]]];
    rewrite H; cbn [Number_toString]; auto.
  destruct (integer_shortest_decimal HX Hx) as (s & k & n & E & Hk & Hs & _).
  rewrite E. cbn [append].
  right. right. right. right. now apply format_decimal_integer.
Qed.

Lemma Number_toString_negative (p : positive) :
  let t := Number_toString (num_of_Z (Zneg p)) in
  t = "0"%string \/ t = "NaN"%string \/ exists r, t = String "-" r.
Proof.
  intros t. subst t.
  destruct (num_of_Z_neg p) as [H|[H|[H|(m & e & H)]]];
    rewrite H; cbn [Number_toString]; auto.
  - right. right. eexists. reflexivity.
  - right. right. eexists. reflexivity.
Qed.

(** *** The integers below 2^53 *)

Lemma digits2_pos_bounds (p : positive) :
  2 ^ (Zpos (digits2_pos p) - 1) <= Zpos p < 2 ^ Zpos (digits2_pos p).
Proof.
  induction p as [p IH|p IH|]; cbn [digits2_pos]; [| |simpl; lia];
    rewrite Pos2Z.inj_succ;
    replace (Z.succ (Zpos (digits2_pos p)) - 1)
      with (Z.succ (Zpos (digits2_pos p) - 1)) by lia;
    rewrite !Z.pow_succ_r by lia; lia.
Qed.

(** Below 2^53 the double nearest to an integer is the integer. *)
Lemma num_of_Z_small (p : positive) :
  Zpos p < 2 ^ 53 ->
  exists m e, num_of_Z (Zpos p) = S754_finite false m e /\ e <= 0
              /\ Q_of_double m e == inject_Z (Zpos p).
Proof.
  intros Hp.
  assert (Hd : Zpos (digits2_pos p) <= 53).
  { destruct (digits2_pos_bounds p) as [Hlo _].
    destruct (Z_le_gt_dec (Zpos (digits2_pos p)) 53) as [H|H]; [exact H|].
    assert (2 ^ 53 <= 2 ^ (Zpos (digits2_pos p) - 1))
      by (apply Z.pow_le_mono_r; lia).
    lia. }
  assert (Ef : fexp 53 1024 (Zpos (digits2_pos p) + 0)
               = Zpos (digits2_pos p) - 53)
    by (unfold fexp, emin; lia).
  unfold num_of_Z, binary_normalize, binary_round, shl_align.
  rewrite Ef.
  destruct (Zpos (digits2_pos p) - 53 - 0) as [|d|d] eqn:E; [|lia|].
  - rewrite binary_round_aux_exact; [| rewrite Ef; lia | lia].
    exists p, 0. split; [reflexivity|]. split; [lia|].
    rewrite Q_of_double_integer by lia. now rewrite Z.pow_0_r, Z.mul_1_r.
  - replace (Zpos (digits2_pos p) - 53) with (Zneg d) in * by lia.
    rewrite binary_round_aux_exact.
    + exists (Pos.iter xO p d), (Zneg d).
      split; [reflexivity|]. split; [lia | apply Q_of_double_shifted].
    + rewrite digits2_pos_iter_xO.
      replace (Zpos (digits2_pos p) + Zpos d + Zneg d)
        with (Zpos (digits2_pos p) + 0) by lia.
      exact Ef.
    + lia.
Qed.

(** A real that rounds to a double is within half a unit of its last
    place. *)
Lemma rounds_to_near (m : positive) (e : Z) (v : Q) :
  rounds_to m e v = true ->
  (Q_of_double m e - Qpower 2 (e - 1) <= v <= Q_of_double m e + Qpower 2 (e - 1))%Q.
Proof.
  unfold rounds_to. set (x := Q_of_double m e).
  set (below := if Pos.eqb m (2 ^ 52) && (-1074 <? e)
                then Qpower 2 (e - 2) else Qpower 2 (e - 1)).
  assert (Hb : (below <= Qpower 2 (e - 1))%Q).
  { unfold below. destruct (Pos.eqb m (2 ^ 52) && (-1074 <? e)).
    - apply Qpower_le_compat_l; [lia | discriminate].
    - apply Qle_refl. }
  destruct (Z.even (Zpos m)); intros H; apply andb_true_iff in H;
    destruct H as [H1 H2].
  - apply Qle_bool_iff in H1, H2. lra.
  - apply negb_true_iff in H1, H2.
    assert (G1 : ~ (v <= x - below)%Q)
      by (intros G; apply Qle_bool_iff in G; congruence).
    assert (G2 : ~ (x + Qpower 2 (e - 1) <= v)%Q)
      by (intros G; apply Qle_bool_iff in G; congruence).
    lra.
Qed.

Lemma Qpow2_half (e : Z) : e <= 0 -> (Qpower 2 (e - 1) <= 1 # 2)%Q.
Proof.
  intros He. change (1 # 2)%Q with (Qpower 2 (-1)).
  apply Qpower_le_compat_l; [lia | discriminate].
Qed.

Lemma digits_value_app (s t : string) :
  forall a, digits_value a (s ++ t) = digits_value (digits_value a s) t.
Proof. induction s as [|c s IH]; intros a; cbn [append digits_value]; auto. Qed.

Lemma digits_value_zeros (j : nat) :
  forall a, digits_value a (zeros j) = a * 10 ^ Z.of_nat j.
Proof.
  induction j as [|j IH]; intros a; cbn [zeros digits_value].
  - simpl. lia.
  - rewrite IH, Nat2Z.inj_succ, Z.pow_succ_r by lia.
    change (Z.of_nat (nat_of_ascii "0")) with 48. lia.
Qed.

Lemma canonical_numeral_zeros (s : Z) (j : nat) :
  1 <= s -> canonical_numeral (numeral s ++ zeros j) = true.
Proof.
  intros Hs. destruct (numeral_head Hs) as (c & r & En & Hd & Hz & Hr).
  rewrite En. cbn [append canonical_numeral all_digits].
  rewrite Hd, Hz, (@all_digits_app _ _ Hr (all_digits_zeros _)). reflexivity.
Qed.

(** Zeros after a numeral multiply it by ten. *)
Lemma numeral_zeros (s : Z) (j : nat) :
  1 <= s -> (numeral s ++ zeros j)%string = numeral (s * 10 ^ Z.of_nat j).
Proof.
  intros Hs.
  destruct (@numeral_canonical _ (canonical_numeral_zeros j Hs)) as [_ E].
  rewrite digits_value_app, digits_value_zeros, digits_value_numeral in E by lia.
  now symmetry.
Qed.

(** Every integer below 2^53 prints back as its numeral. *)
Lemma prints_back_small (z : Z) : 0 <= z < 2 ^ 53 -> prints_back z = true.
Proof.
  intros Hz. unfold prints_back. apply String.eqb_eq.
  destruct z as [|p|p]; [reflexivity| |lia].
  destruct (@num_of_Z_small p ltac:(lia)) as (m & e & En & He & Hx).
  rewrite En. cbn [Number_toString append].
  destruct (@integer_shortest_decimal m e (Zpos p) ltac:(lia) Hx)
    as (s & k & n & Es & Hk & Hs & Hr).
  rewrite Es.
  assert (H1 : 1 <= s).
  { assert (0 < 10 ^ (k - 1)) by (apply Z.pow_pos_nonneg; lia). lia. }
  (* the decimal is an integer within one half of [p] *)
  assert (Ev : decimal_value k (s, n) == inject_Z (s * 10 ^ (n - k))).
  { unfold decimal_value. cbn [fst snd].
    rewrite inject_Z_mult, (Zpower_Qpower 10 (n - k)) by lia. reflexivity. }
  apply rounds_to_near in Hr. rewrite Ev, Hx in Hr.
  pose proof (Qpow2_half He) as Hh.
  assert (Eq : s * 10 ^ (n - k) = Zpos p).
  { assert (L : (inject_Z (s * 10 ^ (n - k)) < inject_Z (Zpos p + 1))%Q)
      by (rewrite inject_Z_plus; change (inject_Z 1) with 1%Q; lra).
    assert (U : (inject_Z (Zpos p - 1) < inject_Z (s * 10 ^ (n - k)))%Q).
    { change (Zpos p - 1) with (Zpos p + (-1)).
      rewrite inject_Z_plus. change (inject_Z (-1)) with (-1)%Q. lra. }
    rewrite <- Zlt_Qlt in L, U. lia. }
  (* so it has at most 16 digits *)
  assert (Hn : n <= 21).
  { destruct (Z_le_gt_dec n 21) as [H|H]; [exact H|exfalso].
    assert (10 ^ 21 <= 10 ^ (n - k) * 10 ^ (k - 1)).
    { rewrite <- Z.pow_add_r by lia. apply Z.pow_le_mono_r; lia. }
    assert (0 <= 10 ^ (n - k)) by (apply Z.pow_nonneg; lia).
    assert (10 ^ (n - k) * 10 ^ (k - 1) <= 10 ^ (n - k) * s)
      by (apply Z.mul_le_mono_nonneg_l; lia).
    change (2 ^ 53) with 9007199254740992 in Hz.
    change (10 ^ 21) with 1000000000000000000000 in *. lia. }
  unfold format_decimal.
  assert (E1 : (k <=? n) = true) by (apply Z.leb_le; lia).
  assert (E2 : (n <=? 21) = true) by (apply Z.leb_le; lia).
  rewrite E1, E2. cbn [andb].
  rewrite (numeral_zeros _ H1), Z2Nat.id by lia. now rewrite Eq.
Qed.

(** *** The integer keys *)

Lemma isIntegerKey_canonical (s : string) :
  canonical_numeral s = true ->
  (Number_toString (parseInt s) = s <->
   prints_back (digits_value 0 s) = true).
Proof.
  intros Hc. destruct (@numeral_canonical _ Hc) as [_ En].
  unfold prints_back. rewrite (@parseInt_canonical _ Hc), En.
  symmetry. apply String.eqb_eq.
Qed.

Lemma isIntegerKey_parseInt_sound (s : string) :
  isIntegerKey_parseInt (KStr s) = true ->
  isIntegerKey prints_back (KStr s) = true.
Proof.
  cbn [isIntegerKey_parseInt isIntegerKey]. intros H.
  apply andb_true_iff in H. destruct H as [H H3].
  apply andb_true_iff in H. destruct H as [H1 H2].
  apply negb_true_iff in H1, H2. apply String.eqb_neq in H1.
  apply String.eqb_eq in H3.
  assert (G : canonical_numeral s = true ->
              canonical_numeral s && prints_back (digits_value 0 s) = true).
  { intros Hc. rewrite Hc. now apply (@isIntegerKey_canonical _ Hc). }
  assert (G0 : s = "0"%string ->
               canonical_numeral s && prints_back (digits_value 0 s) = true)
    by (intros ->; vm_compute; reflexivity).
  destruct (parseInt_cases s) as [E|[[sg E]|[[p E]|[p E]]]].
  - rewrite E in H3. simpl in H3. congruence.
  - rewrite E in H3. simpl in H3. now apply G0.
  - pose proof (Number_toString_integer p) as Hp. cbv zeta in Hp.
    rewrite <- E, H3 in Hp.
    destruct Hp as [Hp|[Hp|[Hp|[Hp|[Hp|(c & q & r & Hp & Hd & Hz & Hq)]]]]].
    + now apply G0.
    + subst s. vm_compute in H3. discriminate H3.
    + contradiction.
    + subst s. vm_compute in H3. discriminate H3.
    + now apply G.
    + exfalso. subst s. apply is_digit_cases in Hd. simpl in Hd.
      destruct Hq as [-> | ->];
        repeat (destruct Hd as [<-|Hd];
                [first [discriminate Hz | vm_compute in H3; discriminate H3]|]);
        destruct Hd.
  - pose proof (Number_toString_negative p) as Hp. cbv zeta in Hp.
    rewrite <- E, H3 in Hp. destruct Hp as [Hp|[Hp|[r Hp]]].
    + now apply G0.
    + contradiction.
    + subst s. discriminate H2.
Qed.

Lemma isIntegerKey_parseInt_complete (s : string) :
  isIntegerKey prints_back (KStr s) = true ->
  isIntegerKey_parseInt (KStr s) = true.
Proof.
  cbn [isIntegerKey_parseInt isIntegerKey]. intros H.
  apply andb_true_iff in H. destruct H as [Hc Hp].
  apply (@isIntegerKey_canonical _ Hc) in Hp.
  destruct (@canonical_numeral_head _ Hc) as (c & r & E & Hd & _).
  apply andb_true_iff. split; [apply andb_true_iff; split|].
  - apply negb_true_iff, String.eqb_neq. intros ->. discriminate Hc.
  - apply negb_true_iff. subst s. apply is_digit_cases in Hd. simpl in Hd.
    repeat (destruct Hd as [<-|Hd]; [reflexivity|]). destruct Hd.
  - now apply String.eqb_eq.
Qed.

Lemma isIntegerKey_iff_index_numeral (numeral_roundtrips : Z -> bool) (k : key) :
  isIntegerKey numeral_roundtrips k = true <->
  exists i : nat, k = KStr (string_of_index i)
                  /\ numeral_roundtrips (Z.of_nat i) = true.
Proof.
  split.
  - destruct k as [s|n]; simpl; [|discriminate].
    intros H. apply andb_true_iff in H. destruct H as [Hc Hr].
    exists (Z.to_nat (digits_value 0 s)).
    pose proof (@canonical_numeral_is_index _ Hc) as E.
    split; [now rewrite E|].
    rewrite <- (digits_value_string_of_index (Z.to_nat (digits_value 0 s))).
    now rewrite E.
  - intros (i & -> & Hr). simpl.
    now rewrite canonical_string_of_index, digits_value_string_of_index, Hr.
Qed.

(** X8: [isIntegerKey] as it is written, with [parseInt] and the printing
    of the number it returns, accepts exactly the decimal numerals of the
    natural numbers [i] whose nearest double prints back as that numeral
    (all of them below 2^53): a key with a blank, a sign, a leading zero,
    a fraction or an exponent, the keys [NaN] and [Infinity], the empty
    key and the symbols are not integer keys.  This is the definition of
    integer keys that the engine and the traps are stated with, when its
    parameter is taken to be that round trip. *)
Theorem integer_keys_are_index_numerals (k : key) :
  isIntegerKey_parseInt k = isIntegerKey prints_back k /\
  (isIntegerKey_parseInt k = true <->
   exists i : nat,
     k = KStr (string_of_index i) /\
     Number_toString (num_of_Z (Z.of_nat i)) = string_of_index i).
Proof.
  assert (E : isIntegerKey_parseInt k = isIntegerKey prints_back k).
  { destruct k as [s|n]; [|reflexivity].
    pose proof (@isIntegerKey_parseInt_sound s) as H1.
    pose proof (@isIntegerKey_parseInt_complete s) as H2.
    destruct (isIntegerKey_parseInt (KStr s)),
             (isIntegerKey prints_back (KStr s)); auto.
    symmetry; auto. }
  split; [exact E|]. rewrite E, isIntegerKey_iff_index_numeral.
  split; intros (i & Hk & Hp); exists i; (split; [exact Hk|]);
    unfold prints_back in *; rewrite numeral_of_nat in *;
    now apply String.eqb_eq.
Qed.

Example integer_key_samples :
  map isIntegerKey_parseInt
      [KStr "0"; KStr "42"; KStr "007"; KStr "-1"; KStr "+1"; KStr "1.0";
       KStr "NaN"; KStr "length"; KStr EmptyString; KSym 3; KStr " 1";
       KStr "1e21"; KStr "Infinity";
       KStr "9007199254740992"; KStr "9007199254740993";
       KStr "18014398509481984"; KStr "1152921504606846976";
       KStr "100000000000000000000"; KStr "1000000000000000000000"]
  = [true; true; false; false; false; false;
     false; false; false; false; false;
     false; false;
     true; false;
     true; false;
     true; false] /\
  map Number_toString
      [num_of_Z 42; num_of_Z (2 ^ 53 + 1); num_of_Z (2 ^ 60); num_of_Z (10 ^ 21);
       S754_finite false 7205759403792794 (-56); S754_finite false 1 (-1074);
       S754_finite true 6755399441055744 (-52)]
  = ["42"; "9007199254740992"; "1152921504606847000"; "1e+21";
     "0.1"; "5e-324"; "-1.5"]%string /\
  map sample_StringToNumber
      ["1.5"; " 2 "; "0x10"; "1e1"; EmptyString; "length"; "-0"; "0.1"]%string
  = [S754_finite false 6755399441055744 (-52); num_of_Z 2; num_of_Z 16;
     num_of_Z 10; pos_zero; NaN; neg_zero;
     S754_finite false 7205759403792794 (-56)].
Proof. split; [|split]; vm_compute; reflexivity. Qed.

(* ===================================================================== *)
(** ** Further properties: effects with a scheduler                       *)
(* ===================================================================== *)

Section Schedulers.
Variable defs : eff -> EffectDef.
Variable StringToNumber : string -> number.
Variable ObjectToNumber : nat -> option number.
Variable numeral_roundtrips : Z -> bool.
Variable run' : State -> eff -> result.

Lemma triggerEffects_loop_schedulers (st : State) (calls : list eff) :
  Forall (fun e => scheduler (defs e) = true) calls ->
  triggerEffects_loop defs run' st calls =
  Some (st,
        map EvScheduler
            (filter (fun e => negb (opt_eff_eqb (activeEffect st) e)
                              || allowRecurse (defs e)) calls),
        false).
Proof.
  induction 1 as [|e l He Hl IH]; [reflexivity|].
  simpl. unfold triggerEffect. rewrite He.
  destruct (negb (opt_eff_eqb (activeEffect st) e) || allowRecurse (defs e));
    rewrite IH; reflexivity.
Qed.

(** X9: When every effect that a trigger calls has a scheduler, the trigger
    starts no computation and leaves the engine as it is: it calls the
    schedulers, in the order of the calls, and skips the effect that is
    running unless that effect allows recursion. *)
Theorem trigger_calls_schedulers_only
    (st : State) (t : nat) (tk : kind) (type : TriggerOpTypes)
    (k : option key) (nv : value) (calls : list eff) :
  trigger_calls defs StringToNumber ObjectToNumber numeral_roundtrips
    st t tk type k nv = Ok calls ->
  Forall (fun e => scheduler (defs e) = true) calls ->
  trigger defs StringToNumber ObjectToNumber numeral_roundtrips run'
    st t tk type k nv =
  Some (st,
        map EvScheduler
            (filter (fun e => negb (opt_eff_eqb (activeEffect st) e)
                              || allowRecurse (defs e)) calls),
        false).
Proof.
  intros Hc Hs. unfold trigger. rewrite Hc.
  now apply triggerEffects_loop_schedulers.
Qed.
End Schedulers.

Lemma trigger_calls_schedulers_only_witness :
  trigger_calls scheduled_defs sample_StringToNumber sample_ObjectToNumber
    sample_roundtrips sample_state 0%nat PlainObject SET (Some (KStr "b")) VUndef
  = Ok [1%nat; 0%nat; 2%nat] /\
  Forall (fun e => scheduler (scheduled_defs e) = true) [1%nat; 0%nat; 2%nat] /\
  trigger scheduled_defs sample_StringToNumber sample_ObjectToNumber
    sample_roundtrips (fun _ _ => None) sample_state 0%nat PlainObject SET
    (Some (KStr "b")) VUndef
  = Some (sample_state, [EvScheduler 1%nat; EvScheduler 0%nat; EvScheduler 2%nat],
          false).
Proof.
  assert (H : Forall (fun e => scheduler (scheduled_defs e) = true)
                     [1%nat; 0%nat; 2%nat]) by (repeat constructor).
  split; [reflexivity|]. split; [exact H|].
  exact (@trigger_calls_schedulers_only scheduled_defs sample_StringToNumber
           sample_ObjectToNumber sample_roundtrips (fun _ _ => None) sample_state
           0%nat PlainObject SET (Some (KStr "b")) VUndef [1%nat; 0%nat; 2%nat]
           eq_refl H).
Defined.

(* ===================================================================== *)
(** ** Further properties: the traps that read                            *)
(* ===================================================================== *)

Section ReadTrapFacts.
Variable Heap : Type.
Variable IS_REACTIVE : key.
Variable IS_READONLY : key.
Variable IS_SHALLOW : key.
Variable RAW : key.
Variable is_proxy_of : Heap -> bool -> bool -> value -> nat -> bool.
Variable isNonTrackableKeys : string -> bool.
Variable builtInSymbols : nat -> bool.
Variable isArray : Heap -> nat -> bool.
Variable isRef : Heap -> value -> bool.
Variable Reflect_get : Heap -> nat -> key -> value -> value.
Variable numeral_roundtrips : Z -> bool.

Local Abbreviation getter :=
  (createGetter IS_REACTIVE IS_READONLY IS_SHALLOW RAW is_proxy_of
                isNonTrackableKeys builtInSymbols isArray isRef Reflect_get
                numeral_roundtrips).

(** X10: The get trap calls [track] at most once, on the key that is read and
    with type GET.  The read-only getters never call it.  The other
    getters call it for every key, except the flag keys, the names of the
    instrumented array methods on an array, [hasOwnProperty], the keys
    that are not trackable and the well-known symbols. *)
Theorem get_trap_tracks_the_key_once
    (isReadonly shallow : bool) (h : Heap) (target : nat) (k : key)
    (receiver : value) :
  (snd (getter isReadonly shallow h target k receiver) = [] \/
   snd (getter isReadonly shallow h target k receiver) = [CallTrack target GET k]) /\
  snd (getter true shallow h target k receiver) = [] /\
  (key_eqb k IS_REACTIVE = false ->
   key_eqb k IS_READONLY = false ->
   key_eqb k IS_SHALLOW = false ->
   key_eqb k RAW = false ->
   (isArray h target && is_instrumented k) = false ->
   key_eqb k (KStr "hasOwnProperty") = false ->
   match k with KSym n => builtInSymbols n | KStr s => isNonTrackableKeys s end
     = false ->
   snd (getter false shallow h target k receiver) = [CallTrack target GET k]).
Proof.
  assert (G : forall ro,
            snd (getter ro shallow h target k receiver) = [] \/
            (ro = false /\
             snd (getter ro shallow h target k receiver) = [CallTrack target GET k])).
  { intros ro. unfold createGetter.
    destruct (key_eqb k IS_REACTIVE); [now left|].
    destruct (key_eqb k IS_READONLY); [now left|].
    destruct (key_eqb k IS_SHALLOW); [now left|].
    destruct (key_eqb k RAW && is_proxy_of h ro shallow receiver target); [now left|].
    destruct (negb ro && isArray h target && is_instrumented k); [now left|].
    destruct (negb ro && key_eqb k (KStr "hasOwnProperty")); [now left|].
    destruct (match k with KSym n => builtInSymbols n | KStr s => isNonTrackableKeys s end);
      [now left|].
    destruct ro; simpl.
    - left. destruct shallow; [reflexivity|].
      destruct (isRef h _); [reflexivity|]. destruct (isObject _); reflexivity.
    - right. split; [reflexivity|]. destruct shallow; [reflexivity|].
      destruct (isRef h _); [reflexivity|]. destruct (isObject _); reflexivity. }
  split; [|split].
  - destruct (G isReadonly) as [H|[_ H]]; auto.
  - destruct (G true) as [H|[H _]]; [exact H | discriminate].
  - intros H1 H2 H3 H4 H5 H6 H7. unfold createGetter.
    rewrite H1, H2, H3, H4, H6. simpl. rewrite H5, H7.
    destruct shallow; [reflexivity|].
    destruct (isRef h _); [reflexivity|]. destruct (isObject _); reflexivity.
Qed.

(** X11: Outside shallow mode, for a key whose read reaches [Reflect.get]
    and is tracked (not a flag key answered at once, not an instrumented
    method or [hasOwnProperty] of a getter that is not read-only, not a
    well-known symbol or a key that is not trackable), the get trap
    - unwraps a ref: it returns [res.value], except at an integer key of
      an array, where it returns the ref itself;
    - wraps an object that is not a ref: it returns [readonly(res)] from
      the read-only getter and [reactive(res)] from the other;
    - returns any other value as it is;
    so a value handed out as it is stored is never a bare object, and is
    a ref only at an integer key of an array. *)
Theorem get_trap_unwraps_and_wraps
    (isReadonly : bool) (h : Heap) (target : nat) (k : key) (receiver : value) :
  key_eqb k IS_REACTIVE = false ->
  key_eqb k IS_READONLY = false ->
  key_eqb k IS_SHALLOW = false ->
  (key_eqb k RAW && is_proxy_of h isReadonly false receiver target) = false ->
  (negb isReadonly && isArray h target && is_instrumented k) = false ->
  (negb isReadonly && key_eqb k (KStr "hasOwnProperty")) = false ->
  match k with KSym n => builtInSymbols n | KStr s => isNonTrackableKeys s end
    = false ->
  let res := Reflect_get h target k receiver in
  let got := fst (getter isReadonly false h target k receiver) in
  (isRef h res = true ->
   got = if isArray h target && isIntegerKey numeral_roundtrips k
         then GotValue res else GotRefValue res) /\
  (isRef h res = false -> isObject res = true ->
   got = if isReadonly then GotReadonly res else GotReactive res) /\
  (isRef h res = false -> isObject res = false -> got = GotValue res) /\
  (forall v, got = GotValue v ->
     v = res /\
     (isRef h v = true ->
      isArray h target = true /\ isIntegerKey numeral_roundtrips k = true) /\
     (isRef h v = false -> isObject v = false)).
Proof.
  intros H1 H2 H3 H4 H5 H6 H7 res got.
  assert (E : got =
              if isRef h res then
                if isArray h target && isIntegerKey numeral_roundtrips k
                then GotValue res else GotRefValue res
              else if isObject res then
                     if isReadonly then GotReadonly res else GotReactive res
                   else GotValue res).
  { unfold got, createGetter. rewrite H1, H2, H3, H4, H5, H6, H7.
    fold res. cbn [negb]. destruct (isRef h res); [reflexivity|].
    destruct (isObject res); reflexivity. }
  split; [|split; [|split]].
  - intros Hr. now rewrite E, Hr.
  - intros Hr Ho. now rewrite E, Hr, Ho.
  - intros Hr Ho. now rewrite E, Hr, Ho.
  - intros v Hv. rewrite E in Hv.
    destruct (isRef h res) eqn:Hr.
    + destruct (isArray h target && isIntegerKey numeral_roundtrips k) eqn:Ha;
        [|discriminate].
      injection Hv as <-. apply andb_true_iff in Ha.
      split; [reflexivity|]. split; [auto | congruence].
    + destruct (isObject res) eqn:Ho.
      * destruct isReadonly; discriminate.
      * injection Hv as <-. split; [reflexivity|]. split; [congruence | auto].
Qed.
End ReadTrapFacts.

Lemma get_trap_unwraps_and_wraps_witness :
  simple_isRef simple_heap (simple_get simple_heap 0%nat (KStr "box")) = true /\
  fst (simple_getter false false simple_heap 0%nat (KStr "box") (VObj 2))
    = GotRefValue (VObj 1).
Proof.
  split; [reflexivity|].
  exact (proj1 (@get_trap_unwraps_and_wraps SimpleHeap (KStr "__v_isReactive")
                  (KStr "__v_isReadonly") (KStr "__v_isShallow") (KStr "__v_raw")
                  simple_is_proxy_of sample_isNonTrackableKeys
                  sample_builtInSymbols simple_isArray simple_isRef
                  simple_Reflect_get sample_roundtrips
                  false simple_heap 0%nat (KStr "box") (VObj 2)
                  eq_refl eq_refl eq_refl eq_refl eq_refl eq_refl eq_refl)
               eq_refl).
Defined.

(* ===================================================================== *)
(** ** Further properties: from a trap to the effects it calls            *)
(* ===================================================================== *)

Lemma string_of_index_not_length (i : nat) :
  key_eqb (KStr (string_of_index i)) length_key = false.
Proof.
  apply key_eqb_neq. intros H. injection H as H.
  pose proof (canonical_string_of_index i) as C. rewrite H in C. discriminate.
Qed.

Section TrapsAndEngine.
Variable defs : eff -> EffectDef.
Variable StringToNumber : string -> number.
Variable ObjectToNumber : nat -> option number.
Variable numeral_roundtrips : Z -> bool.

Variable Heap : Type.
Variable isReadonly : Heap -> value -> bool.
Variable isShallow : Heap -> value -> bool.
Variable isRef : Heap -> value -> bool.
Variable toRaw : Heap -> value -> value.
Variable ref_assign : Heap -> value -> value -> Heap.
Variable get_prop : Heap -> nat -> key -> value.
Variable hasOwn : Heap -> nat -> key -> bool.
Variable isArray : Heap -> nat -> bool.
Variable array_length : Heap -> nat -> Z.
Variable Reflect_set : Heap -> nat -> key -> value -> value -> bool * Heap.
Variable Reflect_deleteProperty : Heap -> nat -> key -> bool * Heap.

Local Abbreviation calls_of :=
  (trigger_calls defs StringToNumber ObjectToNumber numeral_roundtrips).
Local Abbreviation fired :=
  (fired_calls defs StringToNumber ObjectToNumber numeral_roundtrips).
Local Abbreviation setter :=
  (createSetter isReadonly isShallow isRef toRaw ref_assign get_prop hasOwn
                isArray array_length Reflect_set numeral_roundtrips).
Local Abbreviation delete_trap :=
  (deleteProperty get_prop hasOwn Reflect_deleteProperty).

Lemma called_through_key (st : State) (t : nat) (tk : kind) (type : TriggerOpTypes)
    (k : key) (nv : value) (ks : list key) (k' : key) (e : eff) (depsMap : KeyToDepMap) :
  targetMap st t = Some depsMap ->
  trigger_select StringToNumber ObjectToNumber numeral_roundtrips
    depsMap tk type (Some k) nv = Ok ks ->
  In k' ks ->
  dep_has st (t, k') e = true ->
  exists calls, calls_of st t tk type (Some k) nv = Ok calls /\ In e calls.
Proof.
  intros Hm Hks Hin Hh.
  destruct (calls_of st t tk type (Some k) nv) as [calls|] eqn:Hc.
  - exists calls. split; [reflexivity|].
    apply (In_trigger_calls _ _ _ _ _ _ _ _ _ _ _ Hc).
    exists depsMap, ks, k'. auto.
  - unfold trigger_calls in Hc. rewrite Hm, Hks in Hc. discriminate.
Qed.

Lemma dep_has_targetMap (st : State) (t : nat) (k : key) (e : eff) :
  dep_has st (t, k) e = true -> exists depsMap, targetMap st t = Some depsMap.
Proof.
  unfold dep_has, dep_at. simpl. destruct (targetMap st t); [eauto | discriminate].
Qed.

(** X12: Deleting, through the proxy, a key that a target other than an array
    owns makes one call of [trigger], of type DELETE with the old value,
    which calls every effect that read that key and every effect that
    enumerated the keys of the target; deleting a key that the target
    does not own, or failing to delete, calls [trigger] not at all. *)
Theorem delete_trap_calls_readers_and_enumerators
    (h : Heap) (target : nat) (tk : kind) (k : key) (st : State)
    (result : bool) (h1 : Heap) :
  Reflect_deleteProperty h target k = (result, h1) ->
  kind_isArray tk = false ->
  ((hasOwn h target k = false \/ result = false) ->
   delete_trap h target k = (result, h1, [])) /\
  (hasOwn h target k = true -> result = true ->
   exists ev,
     ev = CallTrigger target DELETE k VUndef (Some (get_prop h target k)) /\
     delete_trap h target k = (true, h1, [ev]) /\
     forall e,
       dep_has st (target, k) e = true \/ dep_has st (target, ITERATE_KEY) e = true ->
       exists calls, fired st tk ev = Ok calls /\ In e calls).
Proof.
  intros Hdel Harr. unfold deleteProperty. rewrite Hdel. split.
  - intros [-> | ->]; [now rewrite andb_false_r | reflexivity].
  - intros -> ->. eexists. split; [reflexivity|]. split; [reflexivity|].
    intros e He. simpl.
    assert (Hks : forall depsMap,
              trigger_select StringToNumber ObjectToNumber numeral_roundtrips
                depsMap tk DELETE (Some k) VUndef
              = Ok (k :: ITERATE_KEY
                      :: (if kind_isMap tk then [MAP_KEY_ITERATE_KEY] else []))).
    { intros depsMap. unfold trigger_select. rewrite Harr, andb_false_r. reflexivity. }
    destruct He as [He|He]; destruct (dep_has_targetMap _ _ _ _ He) as [depsMap Hm].
    + eapply called_through_key; [exact Hm | apply Hks | now left | exact He].
    + eapply called_through_key; [exact Hm | apply Hks | right; now left | exact He].
Qed.

(** X13: Writing the element [i] of an array through its proxy: at or beyond
    the length the set trap fires ADD, which calls every effect that read
    [length]; below the length it fires SET if the value changes, which
    calls every effect that read the element, and nothing if it does not
    change. *)
Theorem set_trap_on_array_element
    (shallow : bool) (h : Heap) (target : nat) (i : nat) (v receiver : value)
    (oldValue1 v1 : value) (result : bool) (h1 : Heap) (st : State) :
  isArray h target = true ->
  numeral_roundtrips (Z.of_nat i) = true ->
  (isReadonly h (get_prop h target (KStr (string_of_index i)))
   && isRef h (get_prop h target (KStr (string_of_index i)))
   && negb (isRef h v)) = false ->
  setter_values isReadonly isShallow toRaw shallow h
    (get_prop h target (KStr (string_of_index i))) v = (oldValue1, v1) ->
  Reflect_set h target (KStr (string_of_index i)) v1 receiver = (result, h1) ->
  toRaw h1 receiver = VObj target ->
  (array_length h target <= Z.of_nat i ->
   exists ev,
     setter shallow h target (KStr (string_of_index i)) v receiver
       = (result, h1, [ev]) /\
     forall e, dep_has st (target, length_key) e = true ->
               exists calls, fired st ArrayObject ev = Ok calls /\ In e calls) /\
  (Z.of_nat i < array_length h target -> v1 <> oldValue1 ->
   exists ev,
     setter shallow h target (KStr (string_of_index i)) v receiver
       = (result, h1, [ev]) /\
     forall e, dep_has st (target, KStr (string_of_index i)) e = true ->
               exists calls, fired st ArrayObject ev = Ok calls /\ In e calls) /\
  (Z.of_nat i < array_length h target -> v1 = oldValue1 ->
   setter shallow h target (KStr (string_of_index i)) v receiver = (result, h1, [])).
Proof.
  intros Harr Hrt Hrej Hvals Hset Hraw.
  assert (Hint : isIntegerKey numeral_roundtrips (KStr (string_of_index i)) = true).
  { simpl. now rewrite canonical_string_of_index, digits_value_string_of_index, Hrt. }
  assert (Hhad : hadKey hasOwn isArray array_length numeral_roundtrips h target
                        (KStr (string_of_index i))
                 = (Z.of_nat i <? array_length h target)).
  { unfold hadKey. rewrite Harr, Hint. simpl.
    now rewrite digits_value_string_of_index. }
  assert (Hgo : setter shallow h target (KStr (string_of_index i)) v receiver =
                (result, h1,
                 if negb (Z.of_nat i <? array_length h target)
                 then [CallTrigger target ADD (KStr (string_of_index i)) v1 None]
                 else if hasChanged v1 oldValue1
                      then [CallTrigger target SET (KStr (string_of_index i)) v1
                                        (Some oldValue1)]
                      else [])).
  { unfold createSetter. rewrite Hrej, Hvals, Harr. simpl negb.
    rewrite andb_false_r. simpl. rewrite Hset, Hraw, Hhad. simpl.
    now rewrite Nat.eqb_refl. }
  assert (Hsel : forall type depsMap,
            type = ADD \/ type = SET ->
            trigger_select StringToNumber ObjectToNumber numeral_roundtrips
              depsMap ArrayObject type (Some (KStr (string_of_index i))) v1
            = Ok (KStr (string_of_index i)
                    :: match type with ADD => [length_key] | _ => [] end)).
  { intros type depsMap Hty. unfold trigger_select.
    rewrite string_of_index_not_length.
    destruct Hty as [E|E]; subst type; cbn [andb kind_isArray kind_isMap negb];
      [rewrite Hint|]; reflexivity. }
  split; [|split].
  - intros Hle. apply Z.ltb_ge in Hle. rewrite Hle in Hgo. simpl in Hgo.
    eexists. split; [exact Hgo|]. intros e He. simpl.
    destruct (dep_has_targetMap _ _ _ _ He) as [depsMap Hm].
    eapply called_through_key;
      [exact Hm | apply Hsel; now left | right; now left | exact He].
  - intros Hlt Hne. apply Z.ltb_lt in Hlt. rewrite Hlt in Hgo. simpl in Hgo.
    apply hasChanged_neq in Hne. rewrite Hne in Hgo.
    eexists. split; [exact Hgo|]. intros e He. simpl.
    destruct (dep_has_targetMap _ _ _ _ He) as [depsMap Hm].
    eapply called_through_key;
      [exact Hm | apply Hsel; now right | now left | exact He].
  - intros Hlt Heq. apply Z.ltb_lt in Hlt. rewrite Hlt in Hgo. simpl in Hgo.
    assert (Hc : hasChanged v1 oldValue1 = false).
    { apply not_true_iff_false. intros Hc. apply hasChanged_neq in Hc. congruence. }
    now rewrite Hc in Hgo.
Qed.
End TrapsAndEngine.

Lemma delete_trap_calls_readers_and_enumerators_witness :
  simple_delete simple_heap 0%nat (KStr "count")
    = (true, snd (simple_delete simple_heap 0%nat (KStr "count"))) /\
  kind_isArray PlainObject = false /\
  simple_hasOwn simple_heap 0%nat (KStr "count") = true /\
  exists ev,
    deleteProperty simple_get simple_hasOwn simple_delete simple_heap 0%nat
                   (KStr "count")
      = (true, snd (simple_delete simple_heap 0%nat (KStr "count")), [ev]) /\
    ev = CallTrigger 0%nat DELETE (KStr "count") VUndef (Some (VNum (num_of_Z 1))).
Proof.
  split; [reflexivity|]. split; [reflexivity|]. split; [reflexivity|].
  destruct (@delete_trap_calls_readers_and_enumerators sample_defs
              sample_StringToNumber sample_ObjectToNumber sample_roundtrips
              SimpleHeap simple_get simple_hasOwn simple_delete simple_heap 0%nat
              PlainObject (KStr "count") sample_state true
              (snd (simple_delete simple_heap 0%nat (KStr "count")))
              eq_refl eq_refl) as [_ H].
  destruct (H eq_refl eq_refl) as (ev & Heq & Hev & _).
  exists ev. split; [exact Hev | exact Heq].
Defined.

Lemma set_trap_on_array_element_witness :
  simple_isArray array_heap 5%nat = true /\
  sample_roundtrips (Z.of_nat 3) = true /\
  simple_length array_heap 5%nat <= Z.of_nat 3 /\
  dep_has array_state (5%nat, length_key) 0%nat = true /\
  exists ev,
    simple_set false array_heap 5%nat (KStr (string_of_index 3))
               (VNum (num_of_Z 10)) (VObj 6)
      = (true,
         simple_store array_heap 5%nat (KStr (string_of_index 3)) (VNum (num_of_Z 10)),
         [ev]) /\
    exists calls,
      fired_calls sample_defs sample_StringToNumber sample_ObjectToNumber
                  sample_roundtrips array_state ArrayObject ev = Ok calls /\
      In 0%nat calls.
Proof.
  assert (Hlen : simple_length array_heap 5%nat <= Z.of_nat 3) by (vm_compute; discriminate).
  split; [reflexivity|]. split; [reflexivity|]. split; [exact Hlen|].
  split; [reflexivity|].
  destruct (@set_trap_on_array_element sample_defs sample_StringToNumber
              sample_ObjectToNumber sample_roundtrips SimpleHeap simple_isReadonly
              simple_isShallow simple_isRef simple_toRaw simple_ref_assign simple_get
              simple_hasOwn simple_isArray simple_length simple_Reflect_set
              false array_heap 5%nat 3%nat (VNum (num_of_Z 10)) (VObj 6)
              VUndef (VNum (num_of_Z 10)) true
              (simple_store array_heap 5%nat (KStr (string_of_index 3))
                            (VNum (num_of_Z 10)))
              array_state eq_refl eq_refl eq_refl eq_refl eq_refl eq_refl)
    as (Hadd & _ & _).
  destruct (Hadd Hlen) as (ev & Hev & Hcalls).
  exists ev. split; [exact Hev|]. apply Hcalls. reflexivity.
Defined.

(* ===================================================================== *)
(** ** Further properties: the instrumented array methods                 *)
(* ===================================================================== *)

Lemma In_search_method_reads (arr len : nat) (r : dep_ref) :
  In r (search_method_reads arr len) <->
  r = (arr, length_key) \/
  exists i, (i < len)%nat /\ r = (arr, KStr (string_of_index i)).
Proof.
  unfold search_method_reads. cbn [In]. rewrite in_map_iff. split.
  - intros [H|H].
    + left. now symmetry.
    + destruct H as (i & H & Hi). right. exists i.
      apply in_seq in Hi. split; [lia | now symmetry].
  - intros [H|H].
    + left. now symmetry.
    + destruct H as (i & Hi & H). right. exists i.
      split; [now symmetry | apply in_seq; lia].
Qed.

Section SearchMethods.
Variable defs : eff -> EffectDef.
Variable StringToNumber : string -> number.
Variable ObjectToNumber : nat -> option number.
Variable numeral_roundtrips : Z -> bool.

Local Abbreviation run_ :=
  (run defs StringToNumber ObjectToNumber numeral_roundtrips).
Local Abbreviation calls_of :=
  (trigger_calls defs StringToNumber ObjectToNumber numeral_roundtrips).

(** X14: From a state where [deps] of the effect mirrors the deps and no
    dep carries the marker bit of the depth of the run (which fails once a
    running effect has been stopped by a nested one, see C4), an active effect
    that is not running, at a depth within the marker bits, whose
    computation calls [includes], [indexOf] or [lastIndexOf] on a
    reactive array of length [len] is subscribed, after the run, to
    [length] and to each of the [len] elements, and to nothing else; so
    it is called when any of these elements is set and when an element is
    added at any index. *)
Theorem search_method_subscribes_to_all_elements
    (f : nat) (st : State) (e : eff) (arr len : nat) :
  fn (defs e) = reads_body (search_method_reads arr len) ->
  active (effects st e) = true ->
  deferStop (effects st e) = false ->
  chain_has f st (activeEffect st) e = Some false ->
  0 <= effectTrackDepth st < maxMarkerBits ->
  effect_wf st e ->
  markers_clear (shl1 (effectTrackDepth st + 1)) st ->
  exists st',
    run_ (S f) st e = Some (st', [EvFn e], false) /\
    (forall r, dep_has st' r e = true <->
               r = (arr, length_key) \/
               exists i, (i < len)%nat /\ r = (arr, KStr (string_of_index i))) /\
    (forall i nv, (i < len)%nat ->
       exists calls,
         calls_of st' arr ArrayObject SET (Some (KStr (string_of_index i))) nv
           = Ok calls /\ In e calls) /\
    (forall j nv, numeral_roundtrips (Z.of_nat j) = true ->
       exists calls,
         calls_of st' arr ArrayObject ADD (Some (KStr (string_of_index j))) nv
           = Ok calls /\ In e calls).
Proof.
  intros Hfn Hact Hdefer Hchain Hdepth Hwf Hclear.
  destruct (reads_body_facts e (search_method_reads arr len)) as (B1 & B2 & B3).
  rewrite <- Hfn in B1, B2, B3.
  destruct (@run_bitmask_spec defs StringToNumber ObjectToNumber
              numeral_roundtrips f st e B1 Hact Hdefer Hchain Hdepth Hwf Hclear)
    as (st' & evs & Hrun & _ & _ & _ & _ & _ & Hcase).
  rewrite B2, B3 in Hcase. destruct Hcase as (-> & Hiff & _).
  assert (Hsub : forall r, dep_has st' r e = true <->
            r = (arr, length_key) \/
            exists i, (i < len)%nat /\ r = (arr, KStr (string_of_index i))).
  { intros r. rewrite Hiff. apply In_search_method_reads. }
  exists st'. split; [exact Hrun|]. split; [exact Hsub|]. split.
  - intros i nv Hi.
    assert (He : dep_has st' (arr, KStr (string_of_index i)) e = true)
      by (apply Hsub; right; eauto).
    destruct (dep_has_targetMap _ _ _ _ He) as [depsMap Hm].
    eapply called_through_key;
      [exact Hm
      | unfold trigger_select; rewrite string_of_index_not_length; reflexivity
      | now left | exact He].
  - intros j nv Hj.
    assert (He : dep_has st' (arr, length_key) e = true) by (apply Hsub; now left).
    destruct (dep_has_targetMap _ _ _ _ He) as [depsMap Hm].
    assert (Hint : isIntegerKey numeral_roundtrips (KStr (string_of_index j)) = true).
    { simpl. now rewrite canonical_string_of_index, digits_value_string_of_index, Hj. }
    eapply called_through_key;
      [exact Hm
      | unfold trigger_select; rewrite string_of_index_not_length;
        cbn [andb kind_isArray negb]; rewrite Hint; reflexivity
      | right; now left | exact He].
Qed.
End SearchMethods.

(** When every argument is raw already, the instrumented [includes],
    [indexOf] and [lastIndexOf] return what the method of the raw array
    returns; and whenever that method finds the arguments as given, its
    answer is returned without a second search. *)
Theorem search_method_on_raw_arguments
    (toRaw : value -> value) (search : list value -> value) (args : list value) :
  ((forall a, In a args -> toRaw a = a) ->
   search_method toRaw search args = search args) /\
  (strict_equal (search args) (VNum (num_of_Z (-1))) = false ->
   strict_equal (search args) (VBool false) = false ->
   search_method toRaw search args = search args).
Proof.
  unfold search_method. split.
  - intros Hraw.
    assert (E : map toRaw args = args).
    { rewrite <- (map_id args) at 2. now apply map_ext_in. }
    rewrite E. now destruct (_ || _).
  - intros H1 H2. now rewrite H1, H2.
Qed.

Lemma initial_state_wf (e : eff) : effect_wf initial_state e.
Proof.
  split; [constructor|]. intros r. simpl. split; [discriminate | intros []].
Qed.

Lemma initial_state_clear (bit : Z) : markers_clear bit initial_state.
Proof. intros r d H. discriminate. Qed.

Lemma search_method_subscribes_to_all_elements_witness :
  fn (search_defs 2%nat) = reads_body (search_method_reads 5 3) /\
  active (effects initial_state 2%nat) = true /\
  deferStop (effects initial_state 2%nat) = false /\
  chain_has 0 initial_state (activeEffect initial_state) 2%nat = Some false /\
  0 <= effectTrackDepth initial_state < maxMarkerBits /\
  effect_wf initial_state 2%nat /\
  markers_clear (shl1 (effectTrackDepth initial_state + 1)) initial_state /\
  exists st',
    run search_defs sample_StringToNumber sample_ObjectToNumber sample_roundtrips
        1 initial_state 2%nat = Some (st', [EvFn 2%nat], false) /\
    dep_has st' (5%nat, KStr "2") 2%nat = true /\
    dep_has st' (5%nat, KStr "3") 2%nat = false.
Proof.
  assert (H1 : 0 <= effectTrackDepth initial_state < maxMarkerBits)
    by (simpl; unfold maxMarkerBits; lia).
  do 4 (split; [reflexivity|]). split; [exact H1|].
  split; [apply initial_state_wf|]. split; [apply initial_state_clear|].
  destruct (@search_method_subscribes_to_all_elements search_defs
              sample_StringToNumber sample_ObjectToNumber sample_roundtrips 0
              initial_state 2%nat 5%nat 3%nat eq_refl eq_refl eq_refl eq_refl H1
              (initial_state_wf 2%nat) (initial_state_clear _))
    as (st' & Hrun & Hsub & _).
  exists st'. split; [exact Hrun|]. split.
  - apply Hsub. right. exists 2%nat. split; [lia | reflexivity].
  - apply not_true_iff_false. intros H. apply Hsub in H.
    destruct H as [H|(i & Hi & H)]; [discriminate|].
    destruct i as [|[|[|i]]]; try discriminate. lia.
Defined.

(* ===================================================================== *)
(** ** Further properties: the other effects                              *)
(* ===================================================================== *)

Section OtherEffects.
Variable defs : eff -> EffectDef.
Variable StringToNumber : string -> number.
Variable ObjectToNumber : nat -> option number.
Variable numeral_roundtrips : Z -> bool.

(** X15: A run of an effect that reads slots, and may stop itself, changes
    the membership of no other effect in any dep, under a marker bit and
    past the marker bits alike. *)
Theorem run_leaves_other_effects_subscribed
    (f : nat) (st : State) (e : eff) :
  Forall (reads_or_stops e) (fn (defs e)) ->
  active (effects st e) = true ->
  deferStop (effects st e) = false ->
  chain_has f st (activeEffect st) e = Some false ->
  0 <= effectTrackDepth st ->
  effect_wf st e ->
  (effectTrackDepth st < maxMarkerBits ->
   markers_clear (shl1 (effectTrackDepth st + 1)) st) ->
  exists st' tr,
    run defs StringToNumber ObjectToNumber numeral_roundtrips (S f) st e
      = Some (st', tr, false) /\
    forall r x, x <> e -> dep_has st' r x = dep_has st r x.
Proof.
  intros Hbody Hact Hdefer Hchain Hd0 Hwf Hclear.
  destruct (Z.lt_ge_cases (effectTrackDepth st) maxMarkerBits) as [Hlt|Hge].
  - destruct (@run_bitmask_spec defs StringToNumber ObjectToNumber
                numeral_roundtrips f st e Hbody Hact Hdefer Hchain
                (conj Hd0 Hlt) Hwf (Hclear Hlt))
      as (st' & evs & Hrun & Hfr & _).
    exists st', (EvFn e :: evs). split; assumption.
  - destruct (@run_fullcleanup_spec defs StringToNumber ObjectToNumber
                numeral_roundtrips f st e Hbody Hact Hdefer Hchain Hge Hwf)
      as (st' & evs & Hrun & Hfr & _).
    exists st', (EvFn e :: evs). split; assumption.
Qed.
End OtherEffects.

Lemma run_leaves_other_effects_subscribed_witness :
  Forall (reads_or_stops 0%nat) (fn (selfstop_defs 0%nat)) /\
  active (effects sample_state 0%nat) = true /\
  deferStop (effects sample_state 0%nat) = false /\
  chain_has 0 sample_state (activeEffect sample_state) 0%nat = Some false /\
  0 <= effectTrackDepth sample_state /\
  effect_wf sample_state 0%nat /\
  exists st' tr,
    run selfstop_defs sample_StringToNumber sample_ObjectToNumber sample_roundtrips
        1 sample_state 0%nat = Some (st', tr, false) /\
    dep_has st' (0%nat, KStr "b") 1%nat = true.
Proof.
  assert (H0 : Forall (reads_or_stops 0%nat) (fn (selfstop_defs 0%nat)))
    by (repeat constructor).
  assert (H1 : 0 <= effectTrackDepth sample_state) by (simpl; lia).
  split; [exact H0|]. do 3 (split; [reflexivity|]). split; [exact H1|].
  split; [exact sample_state_wf0|].
  destruct (@run_leaves_other_effects_subscribed selfstop_defs
              sample_StringToNumber sample_ObjectToNumber sample_roundtrips 0
              sample_state 0%nat H0 eq_refl eq_refl eq_refl H1 sample_state_wf0
              (fun _ => sample_state_clear _ 0)) as (st' & tr & Hrun & Hfr).
  exists st', tr. split; [exact Hrun|]. rewrite Hfr by discriminate. reflexivity.
Defined.

(* ===================================================================== *)
(** ** Further properties: the shared helpers                             *)
(* ===================================================================== *)

Lemma indexOf_none (el : value) (arr : list value) :
  (forall x, In x arr -> strict_equal x el = false) -> indexOf el arr = None.
Proof.
  induction arr as [|x r IH]; intros H; [reflexivity|]. simpl.
  rewrite (H x) by now left. rewrite IH; [reflexivity|].
  intros y Hy. apply H. now right.
Qed.

Lemma indexOf_first (el x : value) (l1 l2 : list value) :
  (forall y, In y l1 -> strict_equal y el = false) ->
  strict_equal x el = true ->
  indexOf el (l1 ++ x :: l2) = Some (List.length l1).
Proof.
  intros H Hx. induction l1 as [|y l1 IH]; simpl.
  - now rewrite Hx.
  - rewrite (H y) by now left. rewrite IH; [reflexivity|].
    intros z Hz. apply H. now right.
Qed.

Lemma strict_equal_NaN (x : value) : strict_equal x (VNum NaN) = false.
Proof. destruct x as [| |b|f|s|n|a]; try reflexivity. now destruct f. Qed.

(** X16: [remove] takes out the first element that is [===] the given one and
    nothing else; an array without such an element is left as it is, so
    NaN, which is [===] nothing, is never removed. *)
Theorem remove_takes_first_occurrence (arr : list value) (el : value) :
  ((forall x, In x arr -> strict_equal x el = false) -> remove arr el = arr) /\
  (forall l1 x l2,
     arr = l1 ++ x :: l2 ->
     (forall y, In y l1 -> strict_equal y el = false) ->
     strict_equal x el = true ->
     remove arr el = l1 ++ l2) /\
  remove arr (VNum NaN) = arr.
Proof.
  assert (H0 : forall el', (forall x, In x arr -> strict_equal x el' = false) ->
                           remove arr el' = arr).
  { intros el' H. unfold remove. now rewrite indexOf_none. }
  split; [apply H0|]. split.
  - intros l1 x l2 -> H Hx. unfold remove.
    rewrite (indexOf_first el x l1 l2 H Hx).
    clear H H0. induction l1 as [|y l1 IH]; [reflexivity|].
    simpl. f_equal. exact IH.
  - apply H0. intros x _. apply strict_equal_NaN.
Qed.

(** X17: Every key of a model listener is a key of a listener:
    [isModelListener(key)] implies [isOn(key)]. *)
Theorem model_listener_is_listener (s : string) :
  isModelListener s = true -> isOn s = true.
Proof.
  unfold isModelListener. intros H.
  destruct s as [|a [|b [|c r]]]; cbn [String.prefix] in H;
    try discriminate H;
    repeat match type of H with
           | context [ascii_dec ?x ?y] =>
               destruct (ascii_dec x y); [subst|discriminate H];
               cbn [String.prefix] in H
           end;
    try discriminate H.
  reflexivity.
Qed.

Lemma model_listener_is_listener_witness :
  isModelListener "onUpdate:modelValue" = true /\
  isOn "onUpdate:modelValue" = true.
Proof.
  split; [reflexivity|].
  apply (@model_listener_is_listener "onUpdate:modelValue"). reflexivity.
Defined.

Lemma toUpperCase_ascii_not_lower (c : ascii) :
  (nat_of_ascii c < 128)%nat -> is_lower (toUpperCase_ascii c) = false.
Proof.
  intros _. unfold toUpperCase_ascii. destruct (is_lower c) eqn:E; [|exact E].
  unfold is_lower in *. apply andb_true_iff in E. destruct E as [E1 E2].
  apply Nat.leb_le in E1, E2.
  rewrite nat_ascii_embedding by lia.
  apply andb_false_iff. left. apply Nat.leb_gt. lia.
Qed.

(** X18: The key that [toHandlerKey] makes for a name is recognised by [isOn],
    for every name that is not empty (and starts with an ASCII character,
    as [capitalize] is modelled for these); the empty name gives the empty
    key, which is not. *)
Theorem toHandlerKey_is_listener_key (s : string) :
  (match s with
   | EmptyString => True
   | String c _ => (nat_of_ascii c < 128)%nat
   end) ->
  isOn (toHandlerKey s) = negb (String.eqb s EmptyString).
Proof.
  destruct s as [|c r]; intros H; [reflexivity|].
  simpl. now rewrite toUpperCase_ascii_not_lower.
Qed.

Lemma toHandlerKey_is_listener_key_witness :
  toHandlerKey "click" = "onClick"%string /\
  isOn (toHandlerKey "click") = negb (String.eqb "click" EmptyString).
Proof.
  split; [reflexivity|].
  apply (@toHandlerKey_is_listener_key "click"). vm_compute. repeat constructor.
Defined.

(** X19: A function behind [cacheStringFunction] returns what the function
    itself returns, on every call and whatever was asked before; an empty
    result is computed anew each time. *)
Theorem cached_function_agrees (fn : string -> string) (strs : list string) :
  fst (cached_calls fn [] strs) = map fn strs.
Proof.
  assert (G : forall c, cache_sound fn c ->
                        fst (cached_calls fn c strs) = map fn strs).
  { induction strs as [|s r IH]; intros c Hc; [reflexivity|].
    simpl. unfold cached_call.
    destruct (cache_get s c) as [[|a v]|] eqn:E.
    - specialize (IH ((s, fn s) :: c)).
      destruct (cached_calls fn ((s, fn s) :: c) r) as [vs c2]. simpl in *.
      rewrite IH; [reflexivity|].
      intros s' v' H. simpl in H. destruct (String.eqb_spec s' s) as [->|];
        [now injection H as <- | now apply Hc].
    - specialize (IH c Hc).
      destruct (cached_calls fn c r) as [vs c2]. simpl in *.
      rewrite IH. f_equal. now apply Hc.
    - specialize (IH ((s, fn s) :: c)).
      destruct (cached_calls fn ((s, fn s) :: c) r) as [vs c2]. simpl in *.
      rewrite IH; [reflexivity|].
      intros s' v' H. simpl in H. destruct (String.eqb_spec s' s) as [->|];
        [now injection H as <- | now apply Hc]. }
  apply G. intros s v H. discriminate.
Qed.
(* ===================================================================== *)
(** ** Further properties: every dep stays a Set                          *)
(* ===================================================================== *)

Lemma sets_upd_dep (st : State) (r : dep_ref) (f : Dep -> Dep) :
  (forall d, NoDup (members d) -> NoDup (members (f d))) ->
  deps_are_sets st -> deps_are_sets (upd_dep st r f).
Proof.
  intros Hf H t m k d Ht Hk. unfold upd_dep in Ht. simpl in Ht.
  destruct (Nat.eqb_spec t (fst r)) as [->|Hne]; [|eapply H; eassumption].
  destruct (targetMap st (fst r)) as [m0|] eqn:Em; [|discriminate].
  destruct (map_get (snd r) m0) as [d0|] eqn:Ed.
  - injection Ht as <-. rewrite map_get_map_set in Hk.
    destruct (key_eqb k (snd r)); [|eapply H; eassumption].
    injection Hk as <-. apply Hf. eapply H; eassumption.
  - injection Ht as <-. eapply H; eassumption.
Qed.

Lemma sets_same_targetMap (st st' : State) :
  targetMap st' = targetMap st -> deps_are_sets st -> deps_are_sets st'.
Proof. intros E H t m k d Ht Hk. rewrite E in Ht. eapply H; eassumption. Qed.

Lemma sets_fold_upd_dep (F : State -> dep_ref -> Dep -> Dep) (l : list dep_ref) :
  (forall s r d, NoDup (members d) -> NoDup (members (F s r d))) ->
  forall st, deps_are_sets st ->
             deps_are_sets (fold_left (fun s r => upd_dep s r (F s r)) l st).
Proof.
  intros HF. induction l as [|a l IH]; intros st H; simpl; [exact H|].
  apply IH. apply sets_upd_dep; [apply HF | exact H].
Qed.

Lemma sets_cleanupEffect (st : State) (e : eff) :
  deps_are_sets st -> deps_are_sets (cleanupEffect st e).
Proof.
  intros H. unfold cleanupEffect.
  eapply sets_same_targetMap; [reflexivity|].
  apply (sets_fold_upd_dep
           (fun _ _ d => set_members (set_delete e (members d)) d)); [|exact H].
  intros s r d Hd. simpl. now apply NoDup_set_delete.
Qed.

Lemma sets_initDepMarkers (st : State) (e : eff) :
  deps_are_sets st -> deps_are_sets (initDepMarkers st e).
Proof.
  intros H. unfold initDepMarkers.
  apply (sets_fold_upd_dep
           (fun s _ d => set_w (Z.lor (w d) (trackOpBit s)) d)); [|exact H].
  intros s r d Hd. exact Hd.
Qed.

Lemma sets_finalize_loop (e : eff) (l : list dep_ref) :
  forall kept st, deps_are_sets st ->
                  deps_are_sets (fst (finalize_loop e l kept st)).
Proof.
  induction l as [|a l IH]; intros kept st H; simpl; [exact H|].
  destruct (dep_at st a) as [d|]; [|now apply IH].
  apply IH. repeat apply sets_upd_dep; try (intros d0 Hd0; exact Hd0).
  destruct (wasTracked (trackOpBit st) d && negb (newTracked (trackOpBit st) d));
    [|exact H].
  apply sets_upd_dep; [|exact H]. intros d0 Hd0. simpl. now apply NoDup_set_delete.
Qed.

Lemma sets_finalizeDepMarkers (st : State) (e : eff) :
  deps_are_sets st -> deps_are_sets (finalizeDepMarkers st e).
Proof.
  intros H. unfold finalizeDepMarkers.
  pose proof (@sets_finalize_loop e (deps (effects st e)) [] st H) as H1.
  destruct (finalize_loop e (deps (effects st e)) [] st) as [s1 kept].
  eapply sets_same_targetMap; [reflexivity | exact H1].
Qed.

Lemma sets_ensure_dep (st : State) (t : nat) (k : key) :
  deps_are_sets st -> deps_are_sets (ensure_dep st t k).
Proof.
  intros H t' m k' d Ht Hk. unfold ensure_dep in Ht. simpl in Ht.
  destruct (Nat.eqb_spec t' t) as [->|Hne]; [|eapply H; eassumption].
  injection Ht as <-.
  destruct (targetMap st t) as [m0|] eqn:Em.
  - destruct (map_get k m0) as [d0|] eqn:Ed; [eapply H; eassumption|].
    rewrite map_get_map_set in Hk.
    destruct (key_eqb k' k); [|eapply H; eassumption].
    injection Hk as <-. apply NoDup_set_of_list.
  - simpl in Hk. destruct (key_eqb k' k); [|discriminate].
    injection Hk as <-. apply NoDup_set_of_list.
Qed.

Lemma sets_trackEffects (st : State) (r : dep_ref) :
  deps_are_sets st -> deps_are_sets (trackEffects st r).
Proof.
  intros H. unfold trackEffects.
  destruct (activeEffect st) as [a|]; [|exact H].
  destruct (dep_at st r) as [dep|]; [|exact H].
  assert (Hadd : forall s, deps_are_sets s ->
            deps_are_sets
              (upd_effect
                 (upd_dep s r (fun d => set_members (set_add a (members d)) d))
                 a (fun s0 => set_deps (deps s0 ++ [r]) s0))).
  { intros s Hs. eapply sets_same_targetMap; [reflexivity|].
    apply sets_upd_dep; [|exact Hs]. intros d Hd. simpl. now apply NoDup_set_add. }
  destruct (effectTrackDepth st <=? maxMarkerBits).
  - destruct (negb (newTracked (trackOpBit st) dep)).
    + assert (H1 : deps_are_sets
                     (upd_dep st r (fun d => set_n (Z.lor (n d) (trackOpBit st)) d)))
        by (apply sets_upd_dep; [intros d Hd; exact Hd | exact H]).
      destruct (negb (wasTracked (trackOpBit st) dep)); [now apply Hadd | exact H1].
    + exact H.
  - destruct (negb (set_has a (members dep))); [now apply Hadd | exact H].
Qed.

Lemma sets_track (st : State) (t : nat) (k : key) :
  deps_are_sets st -> deps_are_sets (track st t k).
Proof.
  intros H. unfold track.
  destruct (shouldTrack st &&
            match activeEffect st with Some _ => true | None => false end);
    [|exact H].
  apply sets_trackEffects, sets_ensure_dep, H.
Qed.

Lemma sets_stop (defs : eff -> EffectDef) (st : State) (e : eff) :
  deps_are_sets st -> deps_are_sets (fst (stop defs st e)).
Proof.
  intros H. unfold stop.
  destruct (opt_eff_eqb (activeEffect st) e); [exact H|].
  destruct (active (effects st e)); [|exact H].
  simpl. eapply sets_same_targetMap; [reflexivity|]. now apply sets_cleanupEffect.
Qed.

Lemma sets_run_enter (st : State) (e : eff) :
  deps_are_sets st -> deps_are_sets (run_enter st e).
Proof.
  intros H. unfold run_enter.
  match goal with
  | |- context [initDepMarkers ?s2 e] => set (st2 := s2)
  end.
  assert (H2 : deps_are_sets st2)
    by (eapply sets_same_targetMap; [reflexivity | exact H]).
  destruct (effectTrackDepth st2 <=? maxMarkerBits);
    [now apply sets_initDepMarkers | now apply sets_cleanupEffect].
Qed.

Lemma sets_run_exit (defs : eff -> EffectDef) (st : State) (e : eff) (last : bool) :
  deps_are_sets st -> deps_are_sets (fst (run_exit defs st e last)).
Proof.
  intros H. unfold run_exit.
  set (sF := if effectTrackDepth st <=? maxMarkerBits
             then finalizeDepMarkers st e else st).
  assert (HF : deps_are_sets sF).
  { unfold sF. destruct (effectTrackDepth st <=? maxMarkerBits);
      [now apply sets_finalizeDepMarkers | exact H]. }
  match goal with
  | |- context [upd_effect ?s2 e (set_parent None)] =>
      set (s3 := upd_effect s2 e (set_parent None))
  end.
  assert (H3 : deps_are_sets s3)
    by (eapply sets_same_targetMap; [reflexivity | exact HF]).
  destruct (deferStop (effects s3 e)); [now apply sets_stop | exact H3].
Qed.

Section DepsStaySets.
Variable defs : eff -> EffectDef.
Variable StringToNumber : string -> number.
Variable ObjectToNumber : nat -> option number.
Variable numeral_roundtrips : Z -> bool.

Local Abbreviation run_ :=
  (run defs StringToNumber ObjectToNumber numeral_roundtrips).

Section SetsBody.
Variable run' : State -> eff -> result.
Hypothesis run'_sets :
  forall st e st' tr th,
    run' st e = Some (st', tr, th) -> deps_are_sets st -> deps_are_sets st'.

Lemma sets_triggerEffects_loop (l : list eff) :
  forall st st' tr th,
    triggerEffects_loop defs run' st l = Some (st', tr, th) ->
    deps_are_sets st -> deps_are_sets st'.
Proof.
  induction l as [|e l IH]; intros st st' tr th H Hs; simpl in H.
  - now injection H as <- _ _.
  - assert (E1 : forall s1 tr1 th1,
               triggerEffect defs run' st e = Some (s1, tr1, th1) ->
               deps_are_sets s1).
    { intros s1 tr1 th1. unfold triggerEffect.
      destruct (negb (opt_eff_eqb (activeEffect st) e) || allowRecurse (defs e)).
      - destruct (scheduler (defs e)).
        + intros E. now injection E as <- _ _.
        + intros E. eapply run'_sets; eassumption.
      - intros E. now injection E as <- _ _. }
    destruct (triggerEffect defs run' st e) as [[[s1 tr1] [|]]|] eqn:E;
      try discriminate.
    + injection H as <- _ _. eapply E1; reflexivity.
    + destruct (triggerEffects_loop defs run' s1 l) as [[[s2 tr2] th2]|] eqn:E2;
        [|discriminate].
      injection H as <- _ _. eapply IH; [eassumption|]. eapply E1; reflexivity.
Qed.

Lemma sets_exec_op (st : State) (o : op) st' tr th :
  exec_op defs StringToNumber ObjectToNumber numeral_roundtrips run' st o
    = Some (st', tr, th) ->
  deps_are_sets st -> deps_are_sets st'.
Proof.
  destruct o as [t k|e|e|t tk ty k nv]; simpl.
  - intros H Hs. injection H as <- _ _. now apply sets_track.
  - pose proof (@sets_stop defs st e) as Hstop.
    destruct (stop defs st e) as [s1 tr1]. intros H Hs.
    injection H as <- _ _. now apply Hstop.
  - apply run'_sets.
  - unfold trigger.
    destruct (trigger_calls defs StringToNumber ObjectToNumber numeral_roundtrips
                st t tk ty k nv) as [calls|].
    + apply sets_triggerEffects_loop.
    + intros H Hs. now injection H as <- _ _.
Qed.

Lemma sets_exec_ops (l : list op) :
  forall st st' tr th,
    exec_ops defs StringToNumber ObjectToNumber numeral_roundtrips run' st l
      = Some (st', tr, th) ->
    deps_are_sets st -> deps_are_sets st'.
Proof.
  induction l as [|o l IH]; intros st st' tr th H Hs; simpl in H.
  - now injection H as <- _ _.
  - destruct (exec_op defs StringToNumber ObjectToNumber numeral_roundtrips
                run' st o) as [[[s1 tr1] [|]]|] eqn:E; try discriminate.
    + injection H as <- _ _. eapply sets_exec_op; eassumption.
    + destruct (exec_ops defs StringToNumber ObjectToNumber numeral_roundtrips
                  run' s1 l) as [[[s2 tr2] th2]|] eqn:E2; [|discriminate].
      injection H as <- _ _.
      eapply IH; [eassumption|]. eapply sets_exec_op; eassumption.
Qed.
End SetsBody.

(** X20: Whatever a computation does (reads, stops, nested runs, triggers,
    throwing or not), a run started in a state where every dep is a Set
    ends in such a state: [trackEffects], [cleanupEffect] and
    [finalizeDepMarkers] only add to and delete from the deps through the
    Set operations, and [track] creates a dep with [createDep]. *)
Theorem run_keeps_deps_sets (f : nat) :
  forall st e st' tr th,
    deps_are_sets st ->
    run_ f st e = Some (st', tr, th) ->
    deps_are_sets st'.
Proof.
  assert (G : forall st e st' tr th,
             run_ f st e = Some (st', tr, th) ->
             deps_are_sets st -> deps_are_sets st').
  { induction f as [|f IH]; intros st e st' tr th H Hs; [discriminate|].
    simpl in H. destruct (negb (active (effects st e))).
    - destruct (exec_ops defs StringToNumber ObjectToNumber numeral_roundtrips
                  (run_ f) st (fn (defs e))) as [[[s1 tr1] th1]|] eqn:E;
        [|discriminate].
      injection H as <- _ _. eapply sets_exec_ops; eassumption.
    - destruct (chain_has f st (activeEffect st) e) as [[|]|] eqn:Hc;
        try discriminate.
      + now injection H as <- _ _.
      + destruct (exec_ops defs StringToNumber ObjectToNumber numeral_roundtrips
                    (run_ f) (run_enter st e) (fn (defs e)))
          as [[[s1 tr1] th1]|] eqn:E; [|discriminate].
        pose proof (@sets_run_exit defs s1 e (shouldTrack st)) as Hx.
        destruct (run_exit defs s1 e (shouldTrack st)) as [s2 tr2].
        injection H as <- _ _. simpl in Hx. apply Hx.
        eapply sets_exec_ops; [exact IH | eassumption |].
        now apply sets_run_enter. }
  intros st e st' tr th Hs H. eapply G; eassumption.
Qed.
End DepsStaySets.

Lemma run_keeps_deps_sets_witness :
  exists st',
    run throwing_defs sample_StringToNumber sample_ObjectToNumber sample_roundtrips
        5 sample_state 4%nat = Some (st', [EvFn 4%nat; EvFn 3%nat], true) /\
    deps_are_sets sample_state /\
    deps_are_sets st'.
Proof.
  destruct throwing_run_result as [st' E]. exists st'. split; [exact E|].
  split; [exact sample_state_sets|].
  exact (@run_keeps_deps_sets throwing_defs sample_StringToNumber
           sample_ObjectToNumber sample_roundtrips 5 sample_state 4%nat
           st' _ _ sample_state_sets E).
Defined.

Lemma result_trace_inv (r : result) (tr : list event) (th : bool) :
  result_trace r = Some (tr, th) -> r = Some (result_state r, tr, th).
Proof.
  destruct r as [[[s tr'] th']|]; simpl; [|discriminate].
  intros H. now injection H as <- <-.
Qed.

Ltac run_result := apply result_trace_inv; vm_compute; reflexivity.
(** C4, at a failing input.  From the initial state, effect 0 reads [x]
    and runs effect 1, which stops effect 0 while it is running:
    [cleanupEffect] empties [deps] of effect 0, so [finalizeDepMarkers]
    finds no dep to clean at the end of its run and the dep of [x] keeps
    the [n] bit of depth 1.
    - Effect 2 then runs and reads [x]: [trackEffects] takes the dep for
      newly tracked already and does not add the effect, so the run read
      [x], effect 2 is not in the dep of [x], and a write to [x] calls
      nobody.
    - Effect 3 was subscribed to [x] by an earlier run; its next run reads
      [y] only, but [finalizeDepMarkers] finds the [n] bit on the dep of
      [x] and keeps effect 3 there: a write to [x] calls effect 3. *)
Lemma run_after_stop_by_nested_effect :
  (exists s1 s2,
     run stuck_defs sample_StringToNumber sample_ObjectToNumber sample_roundtrips
         4 initial_state 0%nat = Some (s1, [EvFn 0%nat; EvFn 1%nat], false) /\
     dep_at s1 (0%nat, KStr "x") = Some (mkDep [] 0 2) /\
     activeEffect s1 = None /\ effectTrackDepth s1 = 0 /\
     fn (stuck_defs 2%nat) = reads_body [(0%nat, KStr "x")] /\
     run stuck_defs sample_StringToNumber sample_ObjectToNumber sample_roundtrips
         4 s1 2%nat = Some (s2, [EvFn 2%nat], false) /\
     dep_has s2 (0%nat, KStr "x") 2%nat = false /\
     trigger_calls stuck_defs sample_StringToNumber sample_ObjectToNumber
       sample_roundtrips s2 0%nat PlainObject SET (Some (KStr "x"))
       (VNum (num_of_Z 1)) = Ok []) /\
  (exists t1 t2 t3,
     run stuck_defs sample_StringToNumber sample_ObjectToNumber sample_roundtrips
         4 initial_state 3%nat = Some (t1, [EvFn 3%nat], false) /\
     dep_has t1 (0%nat, KStr "x") 3%nat = true /\
     run stuck_defs sample_StringToNumber sample_ObjectToNumber sample_roundtrips
         4 t1 0%nat = Some (t2, [EvFn 0%nat; EvFn 1%nat], false) /\
     fn (stuck_later_defs 3%nat) = reads_body [(0%nat, KStr "y")] /\
     run stuck_later_defs sample_StringToNumber sample_ObjectToNumber
         sample_roundtrips 4 t2 3%nat = Some (t3, [EvFn 3%nat], false) /\
     dep_has t3 (0%nat, KStr "x") 3%nat = true /\
     trigger_calls stuck_later_defs sample_StringToNumber sample_ObjectToNumber
       sample_roundtrips t3 0%nat PlainObject SET (Some (KStr "x"))
       (VNum (num_of_Z 1)) = Ok [3%nat]).
Proof.
  split.
  - eexists. eexists.
    split; [run_result|].
    repeat (split; [first [run_result | vm_compute; reflexivity]|]).
    vm_compute; reflexivity.
  - eexists. eexists. eexists.
    split; [run_result|].
    repeat (split; [first [run_result | vm_compute; reflexivity]|]).
    vm_compute; reflexivity.
Qed.

Example get_trap_samples :
  fst (simple_getter false false ref_array_heap 7%nat (KStr "0") (VObj 8))
    = GotValue (VObj 1) /\
  fst (simple_getter false false ref_array_heap 7%nat (KStr "child") (VObj 8))
    = GotReactive (VObj 9) /\
  fst (simple_getter true false ref_array_heap 7%nat (KStr "child") (VObj 8))
    = GotReadonly (VObj 9) /\
  fst (simple_getter false true ref_array_heap 7%nat (KStr "child") (VObj 8))
    = GotValue (VObj 9) /\
  simple_getter false false ref_array_heap 7%nat ITERATE_KEY (VObj 8)
    = (GotValue VUndef, [CallTrack 7%nat GET ITERATE_KEY]) /\
  simple_getter false false ref_array_heap 7%nat (KSym 100) (VObj 8)
    = (GotValue VUndef, []).
Proof. split; [|split; [|split; [|split; [|split]]]]; vm_compute; reflexivity. Qed.

Example rounding_samples :
  num_of_Z (2 ^ 53 + 1) = S754_finite false (2 ^ 52) 1 /\
  num_of_Z (2 ^ 53 + 3) = S754_finite false (2 ^ 52 + 2) 1 /\
  map (rounds_to (2 ^ 52) 1)
      [inject_Z (2 ^ 53 + 1); inject_Z (2 ^ 53) - (1 # 2);
       inject_Z (2 ^ 53) - (3 # 4); inject_Z (2 ^ 53) + (5 # 4)]%Q
  = [true; true; false; false] /\
  map (rounds_to (2 ^ 52 + 1) 1)
      [inject_Z (2 ^ 53 + 1); inject_Z (2 ^ 53 + 2); inject_Z (2 ^ 53 + 3)]
  = [false; true; false] /\
  map (rounds_to (2 ^ 52 + 2) 1)
      [inject_Z (2 ^ 53 + 3); inject_Z (2 ^ 53 + 5)]
  = [true; true] /\
  round_ratio 1 10 = S754_finite false 7205759403792794 (-56) /\
  rounds_to 7205759403792794 (-56) (1 # 10) = true.
Proof.
  split; [|split; [|split; [|split; [|split; [|split]]]]];
    vm_compute; reflexivity.
Qed.

(** X21: Every index is an integer key: for a natural number [i] below
    2^53 (an array index is below 2^32), [parseInt] reads the numeral
    [i + ''] as the double that is [i], and that double prints back as
    the numeral; so [isIntegerKey] as it is written, and as the engine
    and the traps are stated with it, accepts the numeral. *)
Theorem indices_are_integer_keys (i : nat) :
  Z.of_nat i < 2 ^ 53 ->
  parseInt (string_of_index i) = num_of_Z (Z.of_nat i) /\
  Number_toString (num_of_Z (Z.of_nat i)) = string_of_index i /\
  isIntegerKey_parseInt (KStr (string_of_index i)) = true /\
  isIntegerKey prints_back (KStr (string_of_index i)) = true.
Proof.
  intros Hi.
  pose proof (@prints_back_small (Z.of_nat i) ltac:(lia)) as Hp.
  assert (Hk : isIntegerKey prints_back (KStr (string_of_index i)) = true).
  { cbn [isIntegerKey].
    now rewrite canonical_string_of_index, digits_value_string_of_index, Hp. }
  split; [|split; [|split]].
  - rewrite (@parseInt_canonical _ (canonical_string_of_index i)).
    now rewrite digits_value_string_of_index.
  - unfold prints_back in Hp. apply String.eqb_eq in Hp.
    now rewrite numeral_of_nat in Hp.
  - now apply isIntegerKey_parseInt_complete.
  - exact Hk.
Qed.

Lemma indices_are_integer_keys_witness :
  Z.of_nat 1024 < 2 ^ 53 /\
  string_of_index 1024 = "1024"%string /\
  isIntegerKey_parseInt (KStr (string_of_index 1024)) = true.
Proof.
  assert (H : Z.of_nat 1024 < 2 ^ 53) by (vm_compute; reflexivity).
  split; [exact H|]. split; [vm_compute; reflexivity|].
  exact (proj1 (proj2 (proj2 (@indices_are_integer_keys 1024%nat H)))).
Defined.
